(** * Atlas Assistant: dispatcher and reminder scheduler

    A shallow embedding of the dispatch pipeline and of the reminder
    scheduler of [altas.py], with the properties its specification states
    about them.

    The program comes first, organised as [altas.py] is:
    - [Datetime]: the part of Python's [datetime] module that
      [scheduler_loop] uses ([fromisoformat], [>=], [+ timedelta],
      [isoformat(timespec='minutes')]);
    - [Py]: the values that [json.loads] returns, and exceptions;
    - [Store]: the SQLite tables [reminders] and [logs] with the functions
      [db_log] and [delete_reminder], every statement of which may raise;
    - [Scheduler]: one iteration of [scheduler_loop] and the loop itself;
    - [Dispatcher]: [plan_with_openai], [ACTIONS] and [handle_user_text];
    - [Surfaces]: [cli_loop], the hotkey prompt and the voice listener,
      with [str.strip] on texts that are the UTF-8 bytes of a [str];
    - [Reminders]: [add_reminder] and [action_set_reminder];
    - [Hotkeys]: [action_hotkeys] and [send_hotkeys];
    - [Apps]: [action_open_app], [action_open_url] and [record_habit].
    The properties follow: of the calendar, of the scheduler, of the
    dispatcher, then the claims of the specification, C1 to C10, and
    further properties of the code, X1 to X23. *)

From Stdlib Require Import ZArith List String Ascii Bool Lia DecimalString.
Import ListNotations.

Local Open Scope string_scope.
Local Open Scope list_scope.
Local Open Scope Z_scope.

(** ** Python's [datetime], as far as the scheduler uses it *)

Module Datetime.

(** [timedelta]: a normalised triple, [0 <= seconds < 86400] and
    [0 <= microseconds < 1000000]. *)
Record timedelta := mk_timedelta
  { td_days : Z; td_seconds : Z; td_microseconds : Z }.

(** The constructor [timedelta(days, seconds, microseconds)]: carries are
    propagated with floor division, as [divmod] does. *)
Definition new_timedelta (days seconds microseconds : Z) : timedelta :=
  let s := seconds + microseconds / 1000000 in
  {| td_days := days + s / 86400;
     td_seconds := s mod 86400;
     td_microseconds := microseconds mod 1000000 |}.

(** The keyword forms used by the scheduler: [timedelta(days=1)],
    [timedelta(hours=1)], [timedelta(weeks=1)]. *)
Definition timedelta_days (n : Z) : timedelta := new_timedelta n 0 0.
Definition timedelta_hours (n : Z) : timedelta := new_timedelta 0 (n * 3600) 0.
Definition timedelta_weeks (n : Z) : timedelta := new_timedelta (n * 7) 0 0.

Definition timedelta_add (a b : timedelta) : timedelta :=
  new_timedelta (td_days a + td_days b) (td_seconds a + td_seconds b)
                (td_microseconds a + td_microseconds b).

(** The seven calendar fields of a [datetime] object. *)
Record fields := mk_fields
  { year : Z; month : Z; day : Z;
    hour : Z; minute : Z; second : Z; microsecond : Z }.

(** A [datetime] is naive (no [tzinfo]) or aware (a fixed UTC offset). *)
Inductive datetime :=
| Naive (f : fields)
| Aware (f : fields) (utcoffset : timedelta).

Definition MINYEAR : Z := 1.
Definition MAXYEAR : Z := 9999.
Definition MAXORDINAL : Z := 3652059.

Definition DAYS_IN_MONTH : list Z :=
  [-1; 31; 28; 31; 30; 31; 30; 31; 31; 30; 31; 30; 31].
Definition DAYS_BEFORE_MONTH : list Z :=
  [-1; 0; 31; 59; 90; 120; 151; 181; 212; 243; 273; 304; 334].

Definition tbl (t : list Z) (i : Z) : Z := nth (Z.to_nat i) t (-1).

Definition is_leap (y : Z) : bool :=
  (y mod 4 =? 0) && (negb (y mod 100 =? 0) || (y mod 400 =? 0)).

Definition days_before_year (y : Z) : Z :=
  let y := y - 1 in y * 365 + y / 4 - y / 100 + y / 400.

Definition days_in_month (y m : Z) : Z :=
  if (m =? 2) && is_leap y then 29 else tbl DAYS_IN_MONTH m.

Definition days_before_month (y m : Z) : Z :=
  tbl DAYS_BEFORE_MONTH m + (if (2 <? m) && is_leap y then 1 else 0).

Definition ymd2ord (y m d : Z) : Z :=
  days_before_year y + days_before_month y m + d.

Definition DI400Y : Z := 146097.
Definition DI100Y : Z := 36524.
Definition DI4Y : Z := 1461.

(** [_ord2ymd]: the date of a proleptic Gregorian ordinal, with the year
    returned as the 400-year cycle and the year inside the cycle. *)
Definition ord2ymd_cycle (n : Z) : Z * Z * Z :=
  let n100 := n / DI100Y in
  let n := n mod DI100Y in
  let n4 := n / DI4Y in
  let n := n mod DI4Y in
  let n1 := n / 365 in
  let n := n mod 365 in
  let y := n100 * 100 + n4 * 4 + n1 + 1 in
  if (n1 =? 4) || (n100 =? 4) then (y - 1, 12, 31)
  else
    let leapyear := (n1 =? 3) && (negb (n4 =? 24) || (n100 =? 3)) in
    let m := Z.shiftr (n + 50) 5 in
    let preceding :=
      tbl DAYS_BEFORE_MONTH m + (if (2 <? m) && leapyear then 1 else 0) in
    if n <? preceding then
      let m' := m - 1 in
      let preceding' :=
        preceding
        - (tbl DAYS_IN_MONTH m' + (if (m' =? 2) && leapyear then 1 else 0)) in
      (y, m', n - preceding' + 1)
    else (y, m, n - preceding + 1).

Definition ord2ymd (n : Z) : Z * Z * Z :=
  let n := n - 1 in
  let n400 := n / DI400Y in
  let '(y, m, d) := ord2ymd_cycle (n mod DI400Y) in
  (n400 * 400 + y, m, d).

(** The checks of the [datetime] constructor. *)
Definition check_date_fields (y m d : Z) : bool :=
  (MINYEAR <=? y) && (y <=? MAXYEAR) && (1 <=? m) && (m <=? 12)
  && (1 <=? d) && (d <=? days_in_month y m).

Definition check_time_fields (h mi s us : Z) : bool :=
  (0 <=? h) && (h <=? 23) && (0 <=? mi) && (mi <=? 59)
  && (0 <=? s) && (s <=? 59) && (0 <=? us) && (us <=? 999999).

Definition valid (f : fields) : bool :=
  check_date_fields (year f) (month f) (day f)
  && check_time_fields (hour f) (minute f) (second f) (microsecond f).

(** [self + other] for a naive [datetime]: [None] is [OverflowError]. *)
Definition add (f : fields) (other : timedelta) : option fields :=
  let delta :=
    timedelta_add
      (new_timedelta (ymd2ord (year f) (month f) (day f))
                     (hour f * 3600 + minute f * 60 + second f)
                     (microsecond f))
      other in
  let hh := td_seconds delta / 3600 in
  let rem := td_seconds delta mod 3600 in
  if (0 <? td_days delta) && (td_days delta <=? MAXORDINAL) then
    let '(y, m, d) := ord2ymd (td_days delta) in
    Some {| year := y; month := m; day := d;
            hour := hh; minute := rem / 60; second := rem mod 60;
            microsecond := td_microseconds delta |}
  else None.

(** Comparison of two naive values, field by field as Python compares the
    tuples [(year, month, day, hour, minute, second, microsecond)]. *)
Definition to_tuple (f : fields) : list Z :=
  [year f; month f; day f; hour f; minute f; second f; microsecond f].

Fixpoint cmp_tuple (a b : list Z) : comparison :=
  match a, b with
  | x :: a', y :: b' =>
      match x ?= y with Eq => cmp_tuple a' b' | c => c end
  | [], [] => Eq
  | [], _ :: _ => Lt
  | _ :: _, [] => Gt
  end.

Definition ge (a b : fields) : bool :=
  match cmp_tuple (to_tuple a) (to_tuple b) with Lt => false | _ => true end.

(** Dropping what [timespec='minutes'] does not print. *)
Definition trunc_minutes (f : fields) : fields :=
  {| year := year f; month := month f; day := day f;
     hour := hour f; minute := minute f; second := 0; microsecond := 0 |}.

(** *** Text form *)

Definition digit (k : Z) : ascii := ascii_of_nat (48 + Z.to_nat k).

Definition digit_val (c : ascii) : option Z :=
  let n := Z.of_nat (nat_of_ascii c) in
  if (48 <=? n) && (n <=? 57) then Some (n - 48) else None.

(** ["%02d"] and ["%04d"] on the field ranges of a [datetime]. *)
Definition fmt02 (n : Z) : string :=
  String (digit (n / 10)) (String (digit (n mod 10)) EmptyString).

Definition fmt04 (n : Z) : string :=
  (fmt02 (n / 100) ++ fmt02 (n mod 100))%string.

(** [isoformat(timespec='minutes')] of a naive value:
    [YYYY-MM-DDTHH:MM]. *)
Definition isoformat_minutes (f : fields) : string :=
  (fmt04 (year f) ++ "-" ++ fmt02 (month f) ++ "-" ++ fmt02 (day f)
   ++ "T" ++ fmt02 (hour f) ++ ":" ++ fmt02 (minute f))%string.

(** Exactly two decimal digits, and what follows them. *)
Definition parse2 (s : string) : option (Z * string) :=
  match s with
  | String a (String b r) =>
      match digit_val a, digit_val b with
      | Some x, Some y => Some (10 * x + y, r)
      | _, _ => None
      end
  | _ => None
  end.

Definition expect (c : ascii) (s : string) : option string :=
  match s with
  | String a r => if Ascii.eqb a c then Some r else None
  | EmptyString => None
  end.

(** [YYYY-MM-DD] at the head of the text. *)
Definition parse_isoformat_date (s : string) : option (Z * Z * Z * string) :=
  match parse2 s with
  | Some (c, s1) =>
    match parse2 s1 with
    | Some (y, s2) =>
      match expect "-" s2 with
      | Some s3 =>
        match parse2 s3 with
        | Some (m, s4) =>
          match expect "-" s4 with
          | Some s5 =>
            match parse2 s5 with
            | Some (d, rest) => Some (100 * c + y, m, d, rest)
            | None => None
            end
          | None => None
          end
        | None => None
        end
      | None => None
      end
    | None => None
    end
  | None => None
  end.

(** All the characters of the text are digits: their value. *)
Fixpoint parse_digits (acc : Z) (s : string) : option Z :=
  match s with
  | EmptyString => Some acc
  | String a r =>
      match digit_val a with
      | Some x => parse_digits (10 * acc + x) r
      | None => None
      end
  end.

(** The fraction after the seconds: nothing, or a dot and three or six
    digits. *)
Definition parse_fraction (s : string) : option Z :=
  match s with
  | EmptyString => Some 0
  | String a r =>
      if Ascii.eqb a "." then
        match String.length r with
        | 3%nat => option_map (Z.mul 1000) (parse_digits 0 r)
        | 6%nat => parse_digits 0 r
        | _ => None
        end
      else None
  end.

(** [_parse_hh_mm_ss_ff]: [HH[:MM[:SS[.fff[fff]]]]], the whole text. *)
Definition parse_hh_mm_ss_ff (s : string) : option (Z * Z * Z * Z) :=
  match parse2 s with
  | None => None
  | Some (hh, EmptyString) => Some (hh, 0, 0, 0)
  | Some (hh, s1) =>
    match expect ":" s1 with
    | None => None
    | Some s2 =>
      match parse2 s2 with
      | None => None
      | Some (mm, EmptyString) => Some (hh, mm, 0, 0)
      | Some (mm, s3) =>
        match expect ":" s3 with
        | None => None
        | Some s4 =>
          match parse2 s4 with
          | None => None
          | Some (ss, s5) =>
              option_map (fun us => (hh, mm, ss, us)) (parse_fraction s5)
          end
        end
      end
    end
  end.

Definition is_sign (c : ascii) : bool := Ascii.eqb c "+" || Ascii.eqb c "-".

(** The text up to the first sign, and the sign with what follows it. *)
Fixpoint split_sign (s : string) : string * option (ascii * string) :=
  match s with
  | EmptyString => (EmptyString, None)
  | String a r =>
      if is_sign a then (EmptyString, Some (a, r))
      else let '(t, z) := split_sign r in (String a t, z)
  end.

(** The UTC offset [HH:MM], [HH:MM:SS] or [HH:MM:SS.ffffff] after the
    sign; [timezone] refuses an offset of 24 hours or more. *)
Definition parse_utcoffset (sign : ascii) (s : string) : option timedelta :=
  match String.length s with
  | 5%nat | 8%nat | 15%nat =>
      match parse_hh_mm_ss_ff s with
      | Some (hh, mm, ss, us) =>
          let k := if Ascii.eqb sign "-" then -1 else 1 in
          let td := new_timedelta 0 (k * (hh * 3600 + mm * 60 + ss)) (k * us) in
          if (-1 <=? td_days td) && (td_days td <=? 0)
             && negb ((td_days td =? -1) && (td_seconds td =? 0)
                      && (td_microseconds td =? 0))
          then Some td else None
      | None => None
      end
  | _ => None
  end.

(** [_parse_isoformat_time]: [HH[:MM[:SS[.fff[fff]]]][+HH:MM[:SS[.ffffff]]]]. *)
Definition parse_isoformat_time (s : string)
  : option (Z * Z * Z * Z * option timedelta) :=
  let '(timestr, z) := split_sign s in
  match parse_hh_mm_ss_ff timestr with
  | None => None
  | Some (hh, mm, ss, us) =>
      match z with
      | None => Some (hh, mm, ss, us, None)
      | Some (sign, tzstr) =>
          match parse_utcoffset sign tzstr with
          | Some off => Some (hh, mm, ss, us, Some off)
          | None => None
          end
      end
  end.

(** The constructor [datetime(year, ..., tzinfo)]: [None] is [ValueError]. *)
Definition new_datetime (f : fields) (tz : option timedelta) : option datetime :=
  if valid f then
    Some (match tz with None => Naive f | Some off => Aware f off end)
  else None.

(** [datetime.fromisoformat], with the grammar of Python 3.7 to 3.10: the
    text forms that [isoformat] writes,
    [YYYY-MM-DD[*HH[:MM[:SS[.fff[fff]]]][+HH:MM[:SS[.ffffff]]]]] with [*]
    any one character. Later versions read these texts alike and accept
    further ISO 8601 forms. [None] is [ValueError]. *)
Definition fromisoformat (s : string) : option datetime :=
  match parse_isoformat_date s with
  | None => None
  | Some (y, m, d, EmptyString) =>
      new_datetime {| year := y; month := m; day := d; hour := 0;
                      minute := 0; second := 0; microsecond := 0 |} None
  | Some (y, m, d, String _ tstr) =>
      match parse_isoformat_time tstr with
      | None => None
      | Some (hh, mm, ss, us, tz) =>
          new_datetime {| year := y; month := m; day := d; hour := hh;
                          minute := mm; second := ss; microsecond := us |} tz
      end
  end.

(** *** Checks used by the proofs *)

(** The integers [start, start + len). *)
Fixpoint zrange (start : Z) (len : nat) : list Z :=
  match len with
  | O => []
  | S k => start :: zrange (start + 1) k
  end.

(** What [ord2ymd_cycle] must return on one day of the 400-year cycle. *)
Definition cycle_ok (r : Z) : bool :=
  let '(y, m, d) := ord2ymd_cycle r in
  (1 <=? y) && (y <=? 400) && ((145730 <? r) || (y <=? 399))
  && (1 <=? m) && (m <=? 12) && (1 <=? d) && (d <=? days_in_month y m).

(** No character of the text is a sign. *)
Fixpoint no_sign (s : string) : bool :=
  match s with
  | EmptyString => true
  | String a r => negb (is_sign a) && no_sign r
  end.

End Datetime.

Import Datetime.

(** ** Python values that cross the program *)

Module Py.

(** What [json.loads] returns. A [dict] keeps its keys in order; of a
    [float] the model keeps whether it is nonzero and its text. *)
#[local] Set Warnings "-register-all".
Inductive json :=
| JNull
| JBool (b : bool)
| JInt (z : Z)
| JFloat (nonzero : bool) (text : string)
| JStr (s : string)
| JList (l : list json)
| JDict (d : list (string * json)).

(** An exception, carried with the text that [str(e)] gives. *)
Inductive exn := Exn (msg : string).

Definition str_exn (e : exn) : string := let 'Exn msg := e in msg.

(** Truth value of a JSON value, as [if v:] and [v or d] test it. *)
Definition truthy (v : json) : bool :=
  match v with
  | JNull => false
  | JBool b => b
  | JInt z => negb (z =? 0)
  | JFloat nonzero _ => nonzero
  | JStr s => negb (String.eqb s "")
  | JList l => match l with [] => false | _ => true end
  | JDict d => match d with [] => false | _ => true end
  end.

Definition py_or (a b : json) : json := if truthy a then a else b.

(** [d.get(key, default)]. *)
Fixpoint dict_get (d : list (string * json)) (key : string) (default : json)
  : json :=
  match d with
  | [] => default
  | (k, v) :: rest => if String.eqb k key then v else dict_get rest key default
  end.

Definition type_name (v : json) : string :=
  match v with
  | JNull => "NoneType"
  | JBool _ => "bool"
  | JInt _ => "int"
  | JFloat _ _ => "float"
  | JStr _ => "str"
  | JList _ => "list"
  | JDict _ => "dict"
  end.

(** Truth value and text of a nullable TEXT column. *)
Definition truthy_text (t : option string) : bool :=
  match t with
  | None => false
  | Some s => negb (String.eqb s "")
  end.

Definition str_text (t : option string) : string :=
  match t with
  | None => "None"
  | Some s => s
  end.

End Py.

Import Py.

(** ** The SQLite store and the effects of the providers *)

Module Store.

(** A row of [reminders(id INTEGER PRIMARY KEY, text TEXT, due_at TEXT,
    repeat_rule TEXT)]: every TEXT column may hold NULL. *)
Record reminder := mk_reminder
  { rid : Z;
    text : option string;
    due_at : option string;
    repeat_rule : option string }.

(** A row of [logs]: the kind and the payload that [json.dumps] serialises.
    The [id] of a row is its position; the column [ts] holds the time of
    the insert and is not modelled. *)
Record log_entry := mk_log { kind : string; payload : json }.

(** What the program does to the world outside the database, in order. *)
Inductive effect :=
| Stdout (line : string)                     (* [print] *)
| Notification (title message : string)      (* [notification.notify] *)
| Tts (spoken : json)                        (* [STATE["tts"].say] *)
| Input_prompt (prompt : string)             (* [input] waits for a line *)
| Warning (message : string)                 (* [logging.warning] *)
| Plan_request (user_text : string)          (* [plan_with_openai] entered *)
| Call (name : string) (args : json).        (* a handler of [ACTIONS] entered *)

(** The state of the process: the two tables, the outcome of the database
    statements still to come ([Some e]: the statement raises [e] and
    changes nothing; past the end of the list every statement succeeds),
    the effects so far, and the state [E] of the providers. *)
Record world {E : Type} := mk_world
  { reminders : list reminder;
    logs : list log_entry;
    faults : list (option exn);
    out : list effect;
    ext : E }.
Arguments world : clear implicits.
Arguments mk_world {E}.

Section Operations.
Context {E : Type}.

(** Computations that read and write the world and may raise. *)
Definition M (A : Type) : Type := world E -> (exn + A) * world E.

Definition ret {A} (a : A) : M A := fun w => (inr a, w).
Definition raise {A} (e : exn) : M A := fun w => (inl e, w).
Definition bind {A B} (c : M A) (k : A -> M B) : M B :=
  fun w => match c w with
           | (inr a, w') => k a w'
           | (inl e, w') => (inl e, w')
           end.

(** [try: c except Exception as e: h e]. *)
Definition try_except {A} (c : M A) (h : exn -> M A) : M A :=
  fun w => match c w with
           | (inr a, w') => (inr a, w')
           | (inl e, w') => h e w'
           end.

Definition emit (x : effect) : M unit :=
  fun w => (inr tt, {| reminders := reminders w; logs := logs w;
                       faults := faults w; out := out w ++ [x];
                       ext := ext w |}).

(** One database statement ([connect], [execute], [commit]): it raises when
    the next outcome says so. *)
Definition statement : M unit :=
  fun w => match faults w with
           | [] => (inr tt, w)
           | o :: rest =>
               let w' := {| reminders := reminders w; logs := logs w;
                            faults := rest; out := out w; ext := ext w |} in
               match o with
               | Some e => (inl e, w')
               | None => (inr tt, w')
               end
           end.

Definition set_reminders (f : list reminder -> list reminder) : M unit :=
  fun w => (inr tt, {| reminders := f (reminders w); logs := logs w;
                       faults := faults w; out := out w; ext := ext w |}).

Definition set_logs (f : list log_entry -> list log_entry) : M unit :=
  fun w => (inr tt, {| reminders := reminders w; logs := f (logs w);
                       faults := faults w; out := out w; ext := ext w |}).

End Operations.

Declare Scope store_scope.
Notation "x <- c ;; k" := (bind c (fun x => k))
  (at level 61, c at next level, right associativity) : store_scope.
Notation "c ;; k" := (bind c (fun _ => k))
  (at level 61, right associativity) : store_scope.
Local Open Scope store_scope.

(** The rows that [WHERE id=?] leaves alone, and [SET due_at=?] on the
    others. *)
Definition keep_other (i : Z) (r : reminder) : bool := negb (rid r =? i).

Definition set_due (due : string) (i : Z) (r : reminder) : reminder :=
  if rid r =? i then mk_reminder (rid r) (text r) (Some due) (repeat_rule r)
  else r.

Section Functions.
Context {E : Type}.

(** [db_log(kind, payload)]: INSERT INTO logs. *)
Definition db_log (k : string) (p : json) : M (E := E) unit :=
  statement ;; set_logs (fun l => l ++ [mk_log k p]).

(** SELECT id, text, due_at, repeat_rule FROM reminders. *)
Definition select_reminders : M (E := E) (list reminder) :=
  statement ;; (fun w => (inr (reminders w), w)).

(** [delete_reminder(rid)]: DELETE FROM reminders WHERE id=?. *)
Definition delete_reminder (i : Z) : M (E := E) unit :=
  statement ;; set_reminders (filter (keep_other i)).

(** UPDATE reminders SET due_at=? WHERE id=?. *)
Definition update_due_at (due : string) (i : Z) : M (E := E) unit :=
  statement ;; set_reminders (map (set_due due i)).

(** [notify(title, message)]: a desktop notification when [plyer] is there
    (its failure is swallowed), and always a line on the console. *)
Definition notify (title message : string) : M (E := E) unit :=
  emit (Notification title message) ;;
  emit (Stdout (" [NOTIFY] " ++ title ++ ": " ++ message)).

(** [tts_say(text)]: speech when [pyttsx3] is there; it never raises. *)
Definition tts_say (spoken : json) : M (E := E) unit := emit (Tts spoken).

End Functions.

End Store.

Import Store.
Local Open Scope store_scope.

(** ** The reminder scheduler *)

Module Scheduler.

(** [try: dt = datetime.fromisoformat(due_at)]: [None] is the branch
    [except Exception: continue], taken for NULL too. *)
Definition parse_due (r : reminder) : option datetime :=
  match due_at r with
  | Some s => fromisoformat s
  | None => None
  end.

Section Tick.
Context {E : Type}.

(** The chain [if repeat_rule == "daily": ... elif ... else: nxt = None]. *)
Definition next_due (repeat_rule : string) (dt : fields) : M (E := E) (option fields) :=
  let plus td :=
    match add dt td with
    | Some nxt => ret (Some nxt)
    | None => raise (Exn "date value out of range")
    end in
  if String.eqb repeat_rule "daily" then plus (timedelta_days 1)
  else if String.eqb repeat_rule "hourly" then plus (timedelta_hours 1)
  else if String.eqb repeat_rule "weekly" then plus (timedelta_weeks 1)
  else ret None.

(** The body of [for rid, text, due_at, repeat_rule in rows:]. Returning is
    [continue] or the end of the body; raising leaves the loop, for the
    handler [except Exception: pass] of the [try] around the whole tick.
    Only [fromisoformat] stands in a [try] of its own. *)
Definition process_reminder (now : fields) (r : reminder) : M (E := E) unit :=
  match parse_due r with
  | None => ret tt
  | Some (Aware _ _) =>
      raise (Exn "can't compare offset-naive and offset-aware datetimes")
  | Some (Naive dt) =>
      if ge now dt then
        notify "Reminder" (str_text (text r)) ;;
        tts_say (JStr ("Reminder: " ++ str_text (text r))) ;;
        if truthy_text (repeat_rule r) then
          nxt <- next_due (str_text (repeat_rule r)) dt ;;
          match nxt with
          | Some n => update_due_at (isoformat_minutes n) (rid r)
          | None => delete_reminder (rid r)
          end
        else delete_reminder (rid r)
      else ret tt
  end.

Fixpoint for_each (body : reminder -> M (E := E) unit) (rows : list reminder)
  : M (E := E) unit :=
  match rows with
  | [] => ret tt
  | r :: rest => body r ;; for_each body rest
  end.

(** One iteration of [while not STATE["stop"]:], without the [sleep]: the
    world after it, and the exception that [except Exception: pass]
    swallowed, if any. *)
Definition tick (now : fields) (w : world E) : world E * option exn :=
  match (rows <- select_reminders ;; for_each (process_reminder now) rows) w with
  | (inr _, w') => (w', None)
  | (inl e, w') => (w', Some e)
  end.

(** The loop for as long as the stop flag is down: one tick per reading of
    the clock. *)
Fixpoint scheduler_loop (clock : list fields) (w : world E) : world E :=
  match clock with
  | [] => w
  | now :: later => scheduler_loop later (fst (tick now w))
  end.

(** *** Vocabulary of the properties *)

Definition ids (w : world E) : list Z := map rid (reminders w).

(** The rule is one of the three names the scheduler knows. *)
Definition known_rule (rule : option string) : bool :=
  match rule with
  | Some s => String.eqb s "daily" || String.eqb s "hourly"
              || String.eqb s "weekly"
  | None => false
  end.

(** What firing a reminder emits before it touches the table. *)
Definition announce (r : reminder) : M (E := E) unit :=
  notify "Reminder" (str_text (text r)) ;;
  tts_say (JStr ("Reminder: " ++ str_text (text r))).

(** The period of a known rule. *)
Definition period_of (rule : option string) : timedelta :=
  match rule with
  | Some s => if String.eqb s "daily" then timedelta_days 1
              else if String.eqb s "hourly" then timedelta_hours 1
              else timedelta_weeks 1
  | None => timedelta_weeks 1
  end.

(** The rule table as the specification words it:
    {hourly: +1 hour, daily: +1 day, weekly: +7 days}. *)
Definition period_table (rule : string) : option timedelta :=
  if String.eqb rule "hourly" then Some (mk_timedelta 0 3600 0)
  else if String.eqb rule "daily" then Some (mk_timedelta 1 0 0)
  else if String.eqb rule "weekly" then Some (mk_timedelta 7 0 0)
  else None.

(** The world with its table [reminders] rewritten. *)
Definition retable (g : list reminder -> list reminder) (w : world E)
  : world E :=
  {| reminders := g (reminders w); logs := logs w; faults := faults w;
     out := out w; ext := ext w |}.

(** The reminder [i] with its rule set to NULL. *)
Definition clear_rule (i : Z) (r : reminder) : reminder :=
  if rid r =? i then mk_reminder (rid r) (text r) (due_at r) None else r.

(** What processing a reminder may do to the table: nothing, delete its
    row, or write its next due time. *)
Inductive table_step (r : reminder) (t t' : list reminder) : Prop :=
| Step_same : t' = t -> table_step r t t'
| Step_delete :
    known_rule (repeat_rule r) = false ->
    t' = filter (keep_other (rid r)) t -> table_step r t t'
| Step_update (dt n : fields) :
    known_rule (repeat_rule r) = true ->
    parse_due r = Some (Naive dt) ->
    add dt (period_of (repeat_rule r)) = Some n ->
    t' = map (set_due (isoformat_minutes n) (rid r)) t -> table_step r t t'.

(** The row of a reminder, whatever its due time. *)
Definition same_reminder (r x : reminder) : Prop :=
  rid x = rid r /\ text x = text r /\ repeat_rule x = repeat_rule r.

(** The row of a reminder as the scheduler may have left it: untouched, or
    with a due time written with minute precision. *)
Definition rescheduled (r x : reminder) : Prop :=
  x = r
  \/ exists n, valid n = true
               /\ x = mk_reminder (rid r) (text r)
                                  (Some (isoformat_minutes n)) (repeat_rule r).

(** What a tick that ran to its end did with a reminder of the table. *)
Definition fate (now : fields) (r : reminder) (t' : list reminder) : Prop :=
  match parse_due r with
  | Some (Naive dt) =>
      if ge now dt then
        if known_rule (repeat_rule r) then
          exists n, add dt (period_of (repeat_rule r)) = Some n
                    /\ In (set_due (isoformat_minutes n) (rid r) r) t'
        else ~ In (rid r) (map rid t')
      else In r t'
  | Some (Aware _ _) => False
  | None => In r t'
  end.

(** Rewriting the table by [g] commutes with the statements that
    processing [x] may run. *)
Definition commutes_with (g : list reminder -> list reminder) (x : reminder)
  : Prop :=
  (forall t, g (filter (keep_other (rid x)) t)
             = filter (keep_other (rid x)) (g t))
  /\ (forall due t, g (map (set_due due (rid x)) t)
                    = map (set_due due (rid x)) (g t)).

End Tick.

End Scheduler.

Import Scheduler.

(** ** The dispatcher *)

Module Dispatcher.

(** The keys of [ACTIONS]; each stands for the handler registered under it. *)
Definition ACTIONS : list string :=
  ["open_app"; "open_url"; "weather"; "set_reminder"; "system_stats";
   "clipboard_set"; "clipboard_get"; "file_move"; "file_delete"; "search";
   "switch_desktop"; "hotkeys"].

(** The dict [{"reply": ..., "action": ...}] a plan is. *)
Record plan := mk_plan { reply : json; action : json }.

(** The entry that the dispatcher logs for an utterance. *)
Definition utterance (user_text : string) : log_entry :=
  mk_log "utterance" (JDict [("text", JStr user_text)]).

(** How a handler is called: with the items of a dict as keyword
    arguments, or with the items of any other value as positional ones. *)
Inductive call_args :=
| Keywords (d : list (string * json))
| Positional (v : json).

Definition as_call_args (args : json) : call_args :=
  match args with
  | JDict d => Keywords d
  | _ => Positional args
  end.

Definition in_registry (name : string) : bool :=
  existsb (String.eqb name) ACTIONS.

(** [ACTIONS.get(name)]: a list or a dict is not hashable, and any other
    value that is not a key is looked up in vain. *)
Definition lookup (name : json) : exn + option string :=
  match name with
  | JStr s => inr (if in_registry s then Some s else None)
  | JList _ => inl (Exn "unhashable type: 'list'")
  | JDict _ => inl (Exn "unhashable type: 'dict'")
  | _ => inr None
  end.

Section Providers.
Context {E : Type}.

(** [_openai_client]: [None] when no key is configured; else, for the text
    of the user, what [json.loads(resp.choices[0].message.content)] returns
    or the exception that the request or [json.loads] raises. *)
Variable openai_client : option (string -> E -> (exn + json) * E).

(** The handler registered under a name, called on the arguments of the
    plan: it returns [str(res)] or raises, and it may write reminders and
    act on the world outside. *)
Variable handler :
  string -> call_args -> list reminder * E -> (exn + string) * (list reminder * E).

(** [str] of a list or a dict. *)
Variable repr : json -> string.

(** [str(v)], as an f-string formats a value. *)
Definition py_str (v : json) : string :=
  match v with
  | JStr s => s
  | JNull => "None"
  | JBool true => "True"
  | JBool false => "False"
  | JInt z => NilZero.string_of_int (Z.to_int z)
  | JFloat _ t => t
  | JList _ | JDict _ => repr v
  end.

(** [plan_with_openai(user_text)]: it never raises. *)
Definition plan_with_openai (user_text : string) : M (E := E) plan :=
  emit (Plan_request user_text) ;;
  match openai_client with
  | None =>
      ret (mk_plan (JStr ("(OpenAI not configured) " ++ user_text)) JNull)
  | Some create =>
      fun w =>
        let '(res, x) := create user_text (ext w) in
        let w' := {| reminders := reminders w; logs := logs w;
                     faults := faults w; out := out w; ext := x |} in
        match res with
        | inr (JDict j) =>
            (inr (mk_plan (py_or (dict_get j "reply" JNull) (JStr ""))
                          (dict_get j "action" JNull)), w')
        | inr v =>
            (inr (mk_plan
                    (JStr ("NLU error: '" ++ type_name v
                           ++ "' object has no attribute 'get'")) JNull), w')
        | inl e => (inr (mk_plan (JStr ("NLU error: " ++ str_exn e)) JNull), w')
        end
  end.

(** The call of [fn]: with keyword arguments [if isinstance(args, dict)],
    [else] with positional ones. *)
Definition call (name : string) (args : json) : M (E := E) string :=
  emit (Call name args) ;;
  fun w =>
    let '(res, (rs, x)) :=
      handler name (as_call_args args) (reminders w, ext w) in
    (res, {| reminders := rs; logs := logs w; faults := faults w;
             out := out w; ext := x |}).

(** [if reply: print(...); tts_say(reply)]. *)
Definition deliver (reply : json) : M (E := E) unit :=
  if truthy reply then
    emit (Stdout (" ASSISTANT: " ++ py_str reply)) ;; tts_say reply
  else ret tt.

(** [if action and isinstance(action, dict): ...]; the [else] that prints
    [unknown action] is the one of [if fn:]. *)
Definition execute (action : json) : M (E := E) unit :=
  match action with
  | JDict ((_ :: _) as d) =>
      let name := dict_get d "name" JNull in
      let args := dict_get d "args" (JDict []) in
      match lookup name with
      | inl e => raise e
      | inr (Some fn) =>
          try_except
            (res <- call fn args ;;
             emit (Stdout ("[action:" ++ py_str name ++ "] " ++ res)) ;;
             db_log "action"
                    (JDict [("name", name); ("args", args);
                            ("result", JStr res)]))
            (fun e =>
               emit (Stdout ("[action:" ++ py_str name ++ "] error: "
                             ++ str_exn e)))
      | inr None => emit (Stdout ("unknown action: " ++ py_str name))
      end
  | _ => ret tt
  end.

(** [handle_user_text(user_text)]. *)
Definition handle_user_text (user_text : string) : M (E := E) unit :=
  db_log "utterance" (JDict [("text", JStr user_text)]) ;;
  plan <- plan_with_openai user_text ;;
  deliver (py_or (reply plan) (JStr "")) ;;
  execute (action plan).

End Providers.

End Dispatcher.

Import Dispatcher.

(** ** The input surfaces *)

Module Surfaces.

(** A text is the UTF-8 bytes of a [str]. [str.isspace] holds for the
    characters U+0009 to U+000D, U+001C to U+0020, U+0085, U+00A0, U+1680,
    U+2000 to U+200A, U+2028, U+2029, U+202F, U+205F and U+3000, written
    in one, two or three bytes. *)
Definition is_space (c : ascii) : bool :=
  let n := nat_of_ascii c in
  ((9 <=? n) && (n <=? 13) || (28 <=? n) && (n <=? 32))%nat.

(** U+0085 and U+00A0. *)
Definition is_space2 (a b : ascii) : bool :=
  let y := nat_of_ascii b in
  ((nat_of_ascii a =? 194) && ((y =? 133) || (y =? 160)))%nat.

(** U+1680, U+2000 to U+200A, U+2028, U+2029, U+202F, U+205F and U+3000. *)
Definition is_space3 (a b c : ascii) : bool :=
  let x := nat_of_ascii a in
  let y := nat_of_ascii b in
  let z := nat_of_ascii c in
  ((x =? 225) && (y =? 154) && (z =? 128)
   || (x =? 226) && (y =? 128)
      && ((128 <=? z) && (z <=? 138) || (z =? 168) || (z =? 169) || (z =? 175))
   || (x =? 226) && (y =? 129) && (z =? 159)
   || (x =? 227) && (y =? 128) && (z =? 128))%nat.

(** The text without the characters at its head that the three tests take
    for white space. *)
Section Skip.
Variable one : ascii -> bool.
Variable two : ascii -> ascii -> bool.
Variable three : ascii -> ascii -> ascii -> bool.

Fixpoint skip_spaces (s : string) : string :=
  match s with
  | String a r =>
      if one a then skip_spaces r
      else
        match r with
        | String b r2 =>
            if two a b then skip_spaces r2
            else
              match r2 with
              | String c r3 => if three a b c then skip_spaces r3 else s
              | EmptyString => s
              end
        | EmptyString => s
        end
  | EmptyString => EmptyString
  end.

End Skip.

Fixpoint reverse_onto (s acc : string) : string :=
  match s with
  | String c r => reverse_onto r (String c acc)
  | EmptyString => acc
  end.

(** The bytes of the text, last first. *)
Definition reverse (s : string) : string := reverse_onto s EmptyString.

(** [str.lstrip()]. *)
Definition lstrip (s : string) : string :=
  skip_spaces is_space is_space2 is_space3 s.

(** [str.rstrip()]: the white space at the end is the white space at the
    head of the bytes read backwards. *)
Definition rstrip (s : string) : string :=
  reverse (skip_spaces is_space (fun b a => is_space2 a b)
                       (fun c b a => is_space3 a b c) (reverse s)).

(** [str.strip()]. *)
Definition strip (s : string) : string := rstrip (lstrip s).

Definition lower_char (c : ascii) : ascii :=
  let n := nat_of_ascii c in
  if ((65 <=? n) && (n <=? 90))%nat then ascii_of_nat (n + 32) else c.

(** [str.lower()] on ASCII letters. *)
Fixpoint lower (s : string) : string :=
  match s with
  | String c r => String (lower_char c) (lower r)
  | EmptyString => EmptyString
  end.

(** [sub in s]. *)
Fixpoint contains (sub s : string) : bool :=
  String.prefix sub s
  || match s with
     | String _ r => contains sub r
     | EmptyString => false
     end.

Definition APP_NAME : string := "Atlas Assistant".

Section Providers.
Context {E : Type}.
Variable openai_client : option (string -> E -> (exn + json) * E).
Variable handler :
  string -> call_args -> list reminder * E -> (exn + string) * (list reminder * E).
Variable repr : json -> string.

Let handle := handle_user_text openai_client handler repr.

(** The body of [while not STATE["stop"]:] in [cli_loop], over the lines
    that [input] returns; past the last line [input] raises [EOFError]. An
    exception of [handle_user_text] leaves the loop and the function. *)
Fixpoint cli_lines (lines : list string) : M (E := E) unit :=
  match lines with
  | [] => emit (Input_prompt "you> ")
  | line :: rest =>
      emit (Input_prompt "you> ") ;;
      let user_text := strip line in
      if String.eqb user_text "" then cli_lines rest
      else if String.eqb (lower user_text) "exit"
              || String.eqb (lower user_text) "quit" then ret tt
      else handle user_text ;; cli_lines rest
  end.

Definition cli_loop (lines : list string) : M (E := E) unit :=
  emit (Stdout " Type to chat. Press Ctrl+C to quit. Use hotkey Ctrl+Alt+A anytime.") ;;
  cli_lines lines.

(** [on_hotkey()], with the line typed at its prompt ([None]: [input]
    raises [EOFError]). *)
Definition on_hotkey (typed : option string) : M (E := E) unit :=
  try_except
    (emit (Stdout " [Hotkey] Type your command:") ;;
     emit (Input_prompt "> ") ;;
     match typed with
     | Some user_text => handle user_text
     | None => raise (Exn "EOF when reading a line")
     end)
    (fun _ => ret tt).

(** The loop of [VoskListener.run] over the texts of the results that the
    recogniser accepts. *)
Fixpoint voice_results (wake : string) (active : bool) (results : list string)
  : M (E := E) unit :=
  match results with
  | [] => ret tt
  | result :: rest =>
      let text := lower result in
      if String.eqb text "" then voice_results wake active rest
      else if negb active then
        if contains wake text then
          notify APP_NAME "Listening..." ;; voice_results wake true rest
        else voice_results wake false rest
      else handle text ;; voice_results wake false rest
  end.

(** [VoskListener(wake_word).run()] when [vosk] is there. *)
Definition voice_run (wake_word : string) (results : list string)
  : M (E := E) unit :=
  try_except
    (voice_results (lower wake_word) false results)
    (fun e => emit (Warning ("Vosk error: " ++ str_exn e))).

End Providers.

End Surfaces.

Import Surfaces.

(** ** Worlds and providers to run the program on *)

(** A world with no log, no output and no provider state. *)
Definition world0 (rs : list reminder) (fs : list (option exn)) : world unit :=
  mk_world rs [] fs [] tt.

(** A table of three reminders and a clock reading, to run the claims on. *)
Definition tea : reminder :=
  mk_reminder 1 (Some "tea") (Some "2024-01-31T10:00:30") (Some "daily").
Definition bus : reminder :=
  mk_reminder 2 (Some "bus") (Some "2024-01-31T09:00") None.
Definition rent : reminder :=
  mk_reminder 3 (Some "rent") (Some "2024-02-01T09:00") (Some "weekly").
Definition morning : fields := mk_fields 2024 1 31 10 0 45 0.
Definition desk : world unit := world0 [tea; bus; rent] [].

(** Providers to run the claims on: a service that answers every text with
    one plan, handlers that all raise, handlers that all return. *)
Definition scripted (j : json) : option (string -> unit -> (exn + json) * unit) :=
  Some (fun _ x => (inr j, x)).
Definition raising (msg : string)
  : string -> call_args -> list reminder * unit
    -> (exn + string) * (list reminder * unit) :=
  fun _ _ st => (inl (Exn msg), st).
Definition returning (res : string)
  : string -> call_args -> list reminder * unit
    -> (exn + string) * (list reminder * unit) :=
  fun _ _ st => (inr res, st).
Definition no_repr : json -> string := fun _ => "".

Definition open_calc : json :=
  JDict [("reply", JStr "");
         ("action", JDict [("name", JStr "open_app"); ("args", JDict [])])].
Definition do_the_thing : json :=
  JDict [("reply", JStr ""); ("action", JDict [("name", JStr "do_the_thing")])].

(** ** The rest of the reminder store *)

Module Reminders.

(** The rowid that SQLite gives to a row inserted without one into a table
    with an INTEGER PRIMARY KEY: one more than the largest in use, 1 in an
    empty table (the largest 64-bit rowid is never reached here). *)
Definition next_id (t : list reminder) : Z :=
  1 + fold_right Z.max 0 (map rid t).

Section Functions.
Context {E : Type}.

(** [add_reminder(text, due_at, repeat_rule=None)], on parameters that are
    [str] or [None]: INSERT INTO reminders(text, due_at, repeat_rule). *)
Definition add_reminder (text due_at repeat_rule : option string)
  : M (E := E) unit :=
  statement ;;
  set_reminders
    (fun t => t ++ [mk_reminder (next_id t) text due_at repeat_rule]).

(** [action_set_reminder(text, due_iso, repeat=None)]. *)
Definition action_set_reminder (text due_iso repeat : option string)
  : M (E := E) string :=
  add_reminder text due_iso repeat ;;
  ret ("Reminder set for " ++ str_text due_iso)%string.

(** What the two threads do to the table, one operation at a time. *)
Inductive operation :=
| Set_reminder (text due_iso repeat : option string)
| Tick (now : fields).

Definition run_operation (o : operation) (w : world E) : world E :=
  match o with
  | Set_reminder t d r => snd (action_set_reminder t d r w)
  | Tick now => fst (tick now w)
  end.

Definition run_operations (os : list operation) (w : world E) : world E :=
  fold_left (fun v o => run_operation o v) os w.

End Functions.

(** *** Vocabulary of the properties *)

(** The reminder is due at [now]: its due time parses, is naive and is not
    after [now]. *)
Definition is_due (now : fields) (r : reminder) : bool :=
  match parse_due r with
  | Some (Naive dt) => ge now dt
  | _ => false
  end.

(** The due time of the reminder carries a UTC offset. *)
Definition is_aware (r : reminder) : bool :=
  match parse_due r with
  | Some (Aware _ _) => true
  | _ => false
  end.

(** The reminder waits: its due time does not parse, or is naive and after
    [now]. *)
Definition waits (now : fields) (r : reminder) : bool :=
  negb (is_due now r) && negb (is_aware r).

(** What firing the reminder sends out. *)
Definition announcement (r : reminder) : list effect :=
  [Notification "Reminder" (str_text (text r));
   Stdout (" [NOTIFY] Reminder: " ++ str_text (text r));
   Tts (JStr ("Reminder: " ++ str_text (text r)))].

Definition announcements (now : fields) (rows : list reminder) : list effect :=
  flat_map (fun r => if is_due now r then announcement r else []) rows.

(** What a tick that runs to its end leaves of a row: nothing when the
    reminder fires without a known rule, the row with its next due time when
    it fires with one, the row itself when it waits. (A tick in which the
    next due time overflows does not run to its end.) *)
Definition after_tick (now : fields) (r : reminder) : list reminder :=
  match parse_due r with
  | Some (Naive dt) =>
      if ge now dt then
        if known_rule (repeat_rule r) then
          match add dt (period_of (repeat_rule r)) with
          | Some n => [set_due (isoformat_minutes n) (rid r) r]
          | None => [r]
          end
        else []
      else [r]
  | _ => [r]
  end.

End Reminders.

Import Reminders.

(** A reminder whose due time carries a UTC offset, and a table with it,
    in the order of the ids. *)
Definition flight : reminder :=
  mk_reminder 4 (Some "flight") (Some "2024-01-31T09:30+01:00") None.
Definition dentist : reminder :=
  mk_reminder 5 (Some "dentist") (Some "2024-01-31T09:45") None.
Definition jammed : world unit := world0 [bus; flight; dentist] [].


(** ** Vocabulary for the dispatcher and the input surfaces *)

Module Traces.

Definition is_call (x : effect) : bool :=
  match x with Call _ _ => true | _ => false end.

(** The handler calls among the effects. *)
Definition calls (o : list effect) : list effect := filter is_call o.

(** The texts that reached the planner, in order. *)
Definition planned (o : list effect) : list string :=
  flat_map (fun x => match x with Plan_request u => [u] | _ => [] end) o.

(** The log entries of kind [utterance]. *)
Definition utterances (l : list log_entry) : list log_entry :=
  filter (fun e => String.eqb (kind e) "utterance") l.

(** The entry that the dispatcher logs for an action that returned. *)
Definition action_entry (name : string) (args : json) (res : string)
  : log_entry :=
  mk_log "action"
         (JDict [("name", JStr name); ("args", args); ("result", JStr res)]).

(** The text after [NLU error: ] in the reply, when the answer of the
    service is an exception or is not a JSON object. *)
Definition nlu_error (res : exn + json) : option string :=
  match res with
  | inl e => Some (str_exn e)
  | inr (JDict _) => None
  | inr v => Some ("'" ++ type_name v ++ "' object has no attribute 'get'")%string
  end.

(** The line is [exit] or [quit], in any case. *)
Definition is_exit (u : string) : bool :=
  String.eqb (lower u) "exit" || String.eqb (lower u) "quit".

End Traces.

Import Traces.

(** A service that fails on every request. *)
Definition failing (msg : string)
  : option (string -> unit -> (exn + json) * unit) :=
  Some (fun _ x => (inl (Exn msg), x)).

(** ** The hotkeys action *)

Module Hotkeys.

(** [s.split(sep)] for a separator of one character: the pieces between the
    separators, empty ones included; there is always at least one piece. *)
Fixpoint split (sep : ascii) (s : string) : list string :=
  match s with
  | EmptyString => [EmptyString]
  | String c r =>
      if Ascii.eqb c sep then EmptyString :: split sep r
      else match split sep r with
           | piece :: pieces => String c piece :: pieces
           | [] => [String c EmptyString]
           end
  end.

(** [keys = [k.strip() for k in keys_csv.split(',')]]. *)
Definition keys (keys_csv : string) : list string :=
  map strip (split "," keys_csv).

Section Providers.
Context {E : Type}.

(** [pyautogui]: [None] when the module is not installed; else what
    [pyautogui.hotkey] does with the keys, and the exception it raises if
    any. *)
Variable pyautogui : option (list string -> E -> option exn * E).

(** [send_hotkeys], called with the keys as its arguments. *)
Definition send_hotkeys (names : list string) (x : E) : string * E :=
  match pyautogui with
  | None => ("pyautogui not installed", x)
  | Some hotkey =>
      match hotkey names x with
      | (None, x') => ("ok", x')
      | (Some e, x') => (("failed: " ++ str_exn e)%string, x')
      end
  end.

(** [action_hotkeys(keys_csv)], on a [str]. *)
Definition action_hotkeys (keys_csv : string) : E -> string * E :=
  send_hotkeys (keys keys_csv).

End Providers.

(** *** Vocabulary of the properties *)

(** The text holds a comma. *)
Fixpoint has_comma (s : string) : bool :=
  match s with
  | EmptyString => false
  | String c r => Ascii.eqb c "," || has_comma r
  end.

(** The number of commas of the text. *)
Fixpoint commas (s : string) : nat :=
  match s with
  | EmptyString => O
  | String c r => if Ascii.eqb c "," then S (commas r) else commas r
  end.

(** A key name as the action passes it on: no comma, no blank around it. *)
Definition key_name (k : string) : Prop :=
  strip k = k /\ has_comma k = false.

(** A keyboard that records the names of the keys it is asked to press. *)
Definition recording : option (list string -> list (list string)
                               -> option exn * list (list string)) :=
  Some (fun names pressed => (None, pressed ++ [names])).

End Hotkeys.

Import Hotkeys.

(** ** The actions that record a habit *)

Module Apps.

(** The table [habits] (its column [action]) and the operating system. *)
Record desktop {X : Type} := mk_desktop { habits : list string; os : X }.
Arguments desktop : clear implicits.
Arguments mk_desktop {X}.

Section Providers.
Context {X : Type}.

(** [os.startfile(name)] on Windows, [subprocess.Popen([name])] elsewhere:
    what it does, and the exception it raises if any. *)
Variable launch : string -> X -> option exn * X.

(** The same for a URL: [os.startfile], [open] or [xdg-open]. *)
Variable browse : string -> X -> option exn * X.

Definition set_os (x : X) (w : world (desktop X)) : world (desktop X) :=
  {| reminders := reminders w; logs := logs w; faults := faults w;
     out := out w; ext := mk_desktop (habits (ext w)) x |}.

(** [record_habit(action)]: INSERT INTO habits(ts, action). *)
Definition record_habit (action : string) : M (E := desktop X) unit :=
  statement ;;
  (fun w => (inr tt,
             {| reminders := reminders w; logs := logs w; faults := faults w;
                out := out w;
                ext := mk_desktop (habits (ext w) ++ [action]) (os (ext w)) |})).

(** The start of the application, inside the [try] of [action_open_app]. *)
Definition start (name : string) : M (E := desktop X) unit :=
  fun w => match launch name (os (ext w)) with
           | (None, x) => (inr tt, set_os x w)
           | (Some e, x) => (inl e, set_os x w)
           end.

(** [action_open_app(name)]. *)
Definition action_open_app (name : string) : M (E := desktop X) string :=
  try_except
    (start name ;;
     record_habit ("open_app:" ++ name) ;;
     ret ("Opened " ++ name)%string)
    (fun e => ret ("Failed to open app: " ++ str_exn e)%string).

(** [open_url(url)]: whatever is raised is dropped. *)
Definition open_url (url : string) : M (E := desktop X) unit :=
  fun w => (inr tt, set_os (snd (browse url (os (ext w)))) w).

(** [action_open_url(url)]. *)
Definition action_open_url (url : string) : M (E := desktop X) string :=
  open_url url ;; record_habit "open_url" ;; ret ("Opened " ++ url)%string.

End Providers.

(** A system on which every start succeeds, and which keeps the names of
    what was started. *)
Definition starting : string -> list string -> option exn * list string :=
  fun name started => (None, started ++ [name]).

End Apps.

Import Apps.

(** ** Vocabulary for the order of due times *)

Module Timeline.

(** The microseconds from the start of day 0 of the calendar to a naive
    value. *)
Definition stamp (f : fields) : Z :=
  ymd2ord (year f) (month f) (day f) * 86400000000
  + (hour f * 3600 + minute f * 60 + second f) * 1000000
  + microsecond f.

(** The microseconds of a [timedelta]. *)
Definition span (td : timedelta) : Z :=
  td_days td * 86400000000 + td_seconds td * 1000000 + td_microseconds td.

(** [ymd2ord] undoes [ord2ymd_cycle] on one day of the 400-year cycle. *)
Definition cycle_back (r : Z) : bool :=
  let '(y, m, d) := ord2ymd_cycle r in ymd2ord y m d =? r + 1.

End Timeline.

Import Timeline.
(** * Properties *)

Section DatetimeFacts.

(** *** Facts about the calendar *)

Lemma in_zrange (len : nat) :
  forall start z, start <= z < start + Z.of_nat len -> In z (zrange start len).
Proof.
  induction len as [|k IH]; intros start z Hz; [lia|].
  cbn [zrange]. destruct (Z.eq_dec start z) as [->|Hne]; [now left|right].
  apply IH. lia.
Qed.

Lemma forallb_below (P : Z -> bool) (n : Z) :
  forallb P (zrange 0 (Z.to_nat n)) = true ->
  forall z, 0 <= z < n -> P z = true.
Proof.
  intros H z Hz. rewrite forallb_forall in H. apply H.
  apply in_zrange. lia.
Qed.

Lemma cycle_ok_all : forall r, 0 <= r < DI400Y -> cycle_ok r = true.
Proof.
  apply (forallb_below cycle_ok DI400Y). vm_cast_no_check (eq_refl true).
Qed.

Lemma is_leap_period (q y : Z) : is_leap (q * 400 + y) = is_leap y.
Proof.
  unfold is_leap.
  replace (q * 400 + y) with (y + (q * 100) * 4) at 1 by ring.
  replace (q * 400 + y) with (y + (q * 4) * 100) at 1 by ring.
  replace (q * 400 + y) with (y + q * 400) by ring.
  now rewrite !Z.mod_add by lia.
Qed.

Lemma days_in_month_period (q y m : Z) :
  days_in_month (q * 400 + y) m = days_in_month y m.
Proof. unfold days_in_month. now rewrite is_leap_period. Qed.

Lemma ord2ymd_valid (n : Z) :
  1 <= n <= MAXORDINAL ->
  let '(y, m, d) := ord2ymd n in check_date_fields y m d = true.
Proof.
  intros Hn. unfold ord2ymd, MAXORDINAL in *.
  assert (Hq : 0 <= (n - 1) / DI400Y <= 24).
  { unfold DI400Y. split.
    - apply Z.div_pos; lia.
    - apply Z.lt_succ_r. apply Z.div_lt_upper_bound; lia. }
  assert (Hr : 0 <= (n - 1) mod DI400Y < DI400Y)
    by (apply Z.mod_pos_bound; reflexivity).
  assert (Hn' : n - 1 = DI400Y * ((n - 1) / DI400Y) + (n - 1) mod DI400Y)
    by (apply Z.div_mod; discriminate).
  pose proof (cycle_ok_all _ Hr) as Hc. unfold cycle_ok in Hc.
  destruct (ord2ymd_cycle ((n - 1) mod DI400Y)) as [[y m] d].
  unfold check_date_fields, MINYEAR, MAXYEAR.
  rewrite days_in_month_period.
  rewrite !andb_true_iff, orb_true_iff, !Z.leb_le, Z.ltb_lt in Hc.
  rewrite !andb_true_iff, !Z.leb_le.
  unfold DI400Y in *. lia.
Qed.

Lemma div_range (a b q : Z) : 0 < b -> 0 <= a < b * q -> 0 <= a / b < q.
Proof.
  intros Hb Ha. split; [apply Z.div_pos; lia|].
  apply Z.div_lt_upper_bound; lia.
Qed.

Lemma new_timedelta_range (d s u : Z) :
  0 <= td_seconds (new_timedelta d s u) < 86400
  /\ 0 <= td_microseconds (new_timedelta d s u) < 1000000.
Proof.
  unfold new_timedelta; cbn [td_seconds td_microseconds].
  split; apply Z.mod_pos_bound; reflexivity.
Qed.

(** A sum that does not overflow is a [datetime] the constructor accepts. *)
Lemma add_valid (f f' : fields) (td : timedelta) :
  add f td = Some f' -> valid f' = true.
Proof.
  unfold add.
  match goal with
  | |- context [timedelta_add ?a ?b] =>
      destruct (new_timedelta_range (td_days a + td_days b)
                  (td_seconds a + td_seconds b)
                  (td_microseconds a + td_microseconds b)) as [Hs Hu];
      change (new_timedelta (td_days a + td_days b)
                (td_seconds a + td_seconds b)
                (td_microseconds a + td_microseconds b))
        with (timedelta_add a b) in Hs, Hu;
      set (delta := timedelta_add a b) in *; clearbody delta
  end.
  destruct ((0 <? td_days delta) && (td_days delta <=? MAXORDINAL)) eqn:Hd;
    [|discriminate].
  rewrite andb_true_iff, Z.ltb_lt, Z.leb_le in Hd.
  pose proof (ord2ymd_valid (td_days delta)) as Hv.
  destruct (ord2ymd (td_days delta)) as [[y m] d].
  intros [= <-]. unfold valid; cbn [year month day hour minute second microsecond].
  rewrite Hv by lia. cbn [andb]. unfold check_time_fields.
  pose proof (div_range (td_seconds delta) 3600 24).
  assert (0 <= td_seconds delta mod 3600 < 3600)
    by (apply Z.mod_pos_bound; reflexivity).
  pose proof (div_range (td_seconds delta mod 3600) 60 60).
  assert (0 <= (td_seconds delta mod 3600) mod 60 < 60)
    by (apply Z.mod_pos_bound; reflexivity).
  rewrite !andb_true_iff, !Z.leb_le. lia.
Qed.

(** *** Reading back what [isoformat] wrote *)

Lemma digit_cases (k : Z) :
  0 <= k <= 9 ->
  k = 0 \/ k = 1 \/ k = 2 \/ k = 3 \/ k = 4 \/ k = 5 \/ k = 6 \/ k = 7
  \/ k = 8 \/ k = 9.
Proof. lia. Qed.

Ltac each_digit H :=
  apply digit_cases in H;
  repeat (destruct H as [H|H]; [subst; reflexivity|]); subst; reflexivity.

Lemma digit_val_digit (k : Z) : 0 <= k <= 9 -> digit_val (digit k) = Some k.
Proof. intros H. each_digit H. Qed.

Lemma is_sign_digit (k : Z) : 0 <= k <= 9 -> is_sign (digit k) = false.
Proof. intros H. each_digit H. Qed.

Lemma two_digits (n : Z) :
  0 <= n <= 99 -> 0 <= n / 10 <= 9 /\ 0 <= n mod 10 <= 9.
Proof.
  intros H. pose proof (div_range n 10 10). 
  pose proof (Z.mod_pos_bound n 10). lia.
Qed.

Lemma parse2_fmt02 (n : Z) (r : string) :
  0 <= n <= 99 -> parse2 (fmt02 n ++ r) = Some (n, r).
Proof.
  intros H. destruct (two_digits n H) as [Hq Hr].
  unfold fmt02, parse2. cbn [append].
  rewrite !digit_val_digit by assumption.
  do 2 f_equal. symmetry. apply Z.div_mod. discriminate.
Qed.

Lemma append_assoc (a b c : string) :
  ((a ++ b) ++ c = a ++ (b ++ c))%string.
Proof. induction a as [|x a IH]; cbn; [reflexivity|now rewrite IH]. Qed.

Lemma append_nil_r (a : string) : (a ++ "" = a)%string.
Proof. induction a as [|x a IH]; cbn; [reflexivity|now rewrite IH]. Qed.

Lemma parse_date_isoformat (y m d : Z) (r : string) :
  0 <= y <= 9999 -> 0 <= m <= 99 -> 0 <= d <= 99 ->
  parse_isoformat_date
    (fmt04 y ++ "-" ++ fmt02 m ++ "-" ++ fmt02 d ++ r)
  = Some (y, m, d, r).
Proof.
  intros Hy Hm Hd. unfold parse_isoformat_date, fmt04.
  assert (Hc : 0 <= y / 100 <= 99).
  { pose proof (div_range y 100 100). lia. }
  assert (Hyy : 0 <= y mod 100 <= 99).
  { pose proof (Z.mod_pos_bound y 100). lia. }
  rewrite !append_assoc.
  rewrite (parse2_fmt02 (y / 100)) by assumption.
  rewrite (parse2_fmt02 (y mod 100)) by assumption.
  cbn [append expect Ascii.eqb Bool.eqb].
  rewrite (parse2_fmt02 m) by assumption.
  cbn [append expect Ascii.eqb Bool.eqb].
  rewrite (parse2_fmt02 d) by assumption.
  do 4 f_equal. symmetry. apply Z.div_mod. discriminate.
Qed.

Lemma split_sign_no_sign (s : string) :
  no_sign s = true -> split_sign s = (s, None).
Proof.
  induction s as [|a r IH]; [reflexivity|]. cbn [no_sign split_sign].
  intros H. apply andb_prop in H. destruct H as [Ha Hr].
  apply negb_true_iff in Ha. rewrite Ha, (IH Hr). reflexivity.
Qed.

Lemma parse_time_isoformat (h mi : Z) :
  0 <= h <= 99 -> 0 <= mi <= 99 ->
  parse_isoformat_time (fmt02 h ++ String ":" (fmt02 mi))
  = Some (h, mi, 0, 0, None).
Proof.
  intros Hh Hmi. unfold parse_isoformat_time.
  rewrite split_sign_no_sign.
  - unfold parse_hh_mm_ss_ff. rewrite (parse2_fmt02 h) by assumption.
    cbn [append expect Ascii.eqb Bool.eqb].
    rewrite <- (append_nil_r (fmt02 mi)) at 1.
    rewrite (parse2_fmt02 mi) by assumption. reflexivity.
  - destruct (two_digits h Hh), (two_digits mi Hmi).
    unfold fmt02. cbn [append no_sign].
    rewrite !is_sign_digit by assumption. reflexivity.
Qed.

Lemma valid_ranges (f : fields) :
  valid f = true ->
  1 <= year f <= 9999 /\ 1 <= month f <= 12 /\ 1 <= day f <= 31
  /\ 0 <= hour f <= 23 /\ 0 <= minute f <= 59.
Proof.
  unfold valid, check_date_fields, check_time_fields, MINYEAR, MAXYEAR.
  rewrite !andb_true_iff, !Z.leb_le. intros H.
  assert (Hdim : days_in_month (year f) (month f) <= 31).
  { unfold days_in_month.
    destruct ((month f =? 2) && is_leap (year f)); [lia|].
    unfold tbl. generalize (Z.to_nat (month f)). intros k.
    do 13 (destruct k as [|k]; [cbn; lia|]). destruct k; cbn; lia. }
  lia.
Qed.

Lemma valid_trunc_minutes (f : fields) :
  valid f = true -> valid (trunc_minutes f) = true.
Proof.
  unfold valid, check_time_fields, trunc_minutes;
    cbn [year month day hour minute second microsecond].
  rewrite !andb_true_iff, !Z.leb_le. intros H. repeat split; try apply H; lia.
Qed.

(** Reading back the text written with [timespec='minutes'] gives the value
    without its seconds and microseconds. *)
Lemma fromisoformat_isoformat_minutes (f : fields) :
  valid f = true ->
  fromisoformat (isoformat_minutes f) = Some (Naive (trunc_minutes f)).
Proof.
  intros Hv. pose proof (valid_ranges f Hv) as Hr.
  unfold fromisoformat, isoformat_minutes.
  rewrite parse_date_isoformat by lia.
  cbn [append]. rewrite parse_time_isoformat by lia.
  unfold new_datetime. fold (trunc_minutes f).
  now rewrite valid_trunc_minutes.
Qed.

(** What [fromisoformat] returns passed the checks of the constructor. *)
Lemma fromisoformat_valid (s : string) (f : fields) :
  fromisoformat s = Some (Naive f) -> valid f = true.
Proof.
  unfold fromisoformat, new_datetime.
  destruct (parse_isoformat_date s) as [[[[y m] d] [|c tstr]]|]; [| |discriminate].
  - destruct (valid _) eqn:Hv; [|discriminate]. now intros [= <-].
  - destruct (parse_isoformat_time tstr) as [[[[[hh mm] ss] us] tz]|];
      [|discriminate].
    destruct (valid _) eqn:Hv; [|discriminate].
    destruct tz; [discriminate|]. now intros [= <-].
Qed.

(** Adding whole minutes leaves the seconds and microseconds in place. *)
Lemma add_whole_minutes (f n : fields) (td : timedelta) (k : Z) :
  valid f = true -> td_seconds td = 60 * k -> td_microseconds td = 0 ->
  add f td = Some n ->
  second n = second f /\ microsecond n = microsecond f.
Proof.
  unfold valid, check_time_fields. rewrite !andb_true_iff, !Z.leb_le.
  intros (_ & H) Hs Hu. unfold add.
  destruct (_ && _); [|discriminate].
  destruct (ord2ymd _) as [[y m] d]. intros [= <-].
  cbn [second microsecond]. unfold timedelta_add, new_timedelta.
  cbn [td_days td_seconds td_microseconds]. rewrite Hs, Hu.
  assert (Hus : microsecond f / 1000000 = 0) by (apply Z.div_small; lia).
  assert (Hum : microsecond f mod 1000000 = microsecond f)
    by (apply Z.mod_small; lia).
  rewrite Hus, Hum, !Z.add_0_r, Hus, Hum, Z.add_0_r.
  split; [|reflexivity].
  rewrite (Z.mod_small (hour f * 3600 + minute f * 60 + second f)) by lia.
  Z.to_euclidean_division_equations. lia.
Qed.

End DatetimeFacts.


Example parse_seconds :
  fromisoformat "2024-01-31T10:00:30"
  = Some (Naive (mk_fields 2024 1 31 10 0 30 0)).
Proof. reflexivity. Qed.

Example parse_aware :
  fromisoformat "2024-01-31T10:00:30+02:00"
  = Some (Aware (mk_fields 2024 1 31 10 0 30 0) (mk_timedelta 0 7200 0)).
Proof. reflexivity. Qed.

Example parse_garbage : fromisoformat "tomorrow at noon" = None.
Proof. reflexivity. Qed.

Example add_day_month_end :
  option_map isoformat_minutes
    (add (mk_fields 2024 2 28 23 59 30 0) (timedelta_days 1))
  = Some "2024-02-29T23:59"%string.
Proof. reflexivity. Qed.

Example add_week_year_end :
  add (mk_fields 2023 12 28 8 0 0 0) (timedelta_weeks 1)
  = Some (mk_fields 2024 1 4 8 0 0 0).
Proof. reflexivity. Qed.

Example add_overflow :
  add (mk_fields 9999 12 31 23 30 0 0) (timedelta_hours 1) = None.
Proof. reflexivity. Qed.

Section SchedulerFacts.
Context {E : Type}.

(** *** How a reminder is processed, case by case *)

Lemma process_unparsable (now : fields) (r : reminder) (w : world E) :
  parse_due r = None -> process_reminder now r w = (inr tt, w).
Proof. unfold process_reminder. now intros ->. Qed.

Lemma process_not_due (now dt : fields) (r : reminder) (w : world E) :
  parse_due r = Some (Naive dt) -> ge now dt = false ->
  process_reminder now r w = (inr tt, w).
Proof. unfold process_reminder. now intros -> ->. Qed.

Lemma process_aware (now dt : fields) (off : timedelta) (r : reminder)
      (w : world E) :
  parse_due r = Some (Aware dt off) ->
  exists e, process_reminder now r w = (inl e, w).
Proof. unfold process_reminder. intros ->. now eexists. Qed.

Lemma next_due_unknown (s : string) (dt : fields) (w : world E) :
  known_rule (Some s) = false -> next_due s dt w = (inr None, w).
Proof.
  unfold known_rule, next_due. intros H.
  apply orb_false_elim in H. destruct H as [H Hw].
  apply orb_false_elim in H. destruct H as [Hd Hh].
  now rewrite Hd, Hh, Hw.
Qed.

Lemma truthy_known (rule : option string) :
  known_rule rule = true -> truthy_text rule = true.
Proof.
  destruct rule as [s|]; [|discriminate]. cbn.
  destruct (String.eqb_spec s ""); [subst; discriminate|reflexivity].
Qed.

(** A reminder without a rule the scheduler knows fires and is deleted. *)
Lemma process_fire_delete (now dt : fields) (r : reminder) (w : world E) :
  parse_due r = Some (Naive dt) -> ge now dt = true ->
  known_rule (repeat_rule r) = false ->
  process_reminder now r w = (announce r ;; delete_reminder (rid r)) w.
Proof.
  unfold process_reminder, announce. intros -> -> Hk.
  destruct (repeat_rule r) as [s|]; cbn [truthy_text str_text]; [|reflexivity].
  destruct (negb (String.eqb s "")); [|reflexivity].
  unfold bind. cbn. now rewrite next_due_unknown.
Qed.

Lemma next_due_known (s : string) (dt : fields) (w : world E) :
  known_rule (Some s) = true ->
  next_due s dt w
  = match add dt (period_of (Some s)) with
    | Some n => (inr (Some n), w)
    | None => (inl (Exn "date value out of range"), w)
    end.
Proof.
  unfold known_rule, next_due, period_of. intros H.
  destruct (String.eqb s "daily"); [now destruct (add _ _)|].
  destruct (String.eqb s "hourly"); [now destruct (add _ _)|].
  destruct (String.eqb s "weekly"); [now destruct (add _ _)|discriminate].
Qed.

(** A reminder with a known rule fires and is moved to its next due time,
    written with minute precision. *)
Lemma process_fire_update (now dt n : fields) (r : reminder) (w : world E) :
  parse_due r = Some (Naive dt) -> ge now dt = true ->
  known_rule (repeat_rule r) = true ->
  add dt (period_of (repeat_rule r)) = Some n ->
  process_reminder now r w
  = (announce r ;; update_due_at (isoformat_minutes n) (rid r)) w.
Proof.
  unfold process_reminder, announce. intros -> -> Hk Ha.
  rewrite (truthy_known _ Hk).
  destruct (repeat_rule r) as [s|]; [|discriminate]. cbn [str_text].
  unfold bind. cbn. rewrite next_due_known, Ha by assumption. reflexivity.
Qed.

(** A next due time past year 9999 raises after the announcement. *)
Lemma process_fire_overflow (now dt : fields) (r : reminder) (w : world E) :
  parse_due r = Some (Naive dt) -> ge now dt = true ->
  known_rule (repeat_rule r) = true ->
  add dt (period_of (repeat_rule r)) = None ->
  process_reminder now r w
  = (announce r ;; raise (Exn "date value out of range")) w.
Proof.
  unfold process_reminder, announce. intros -> -> Hk Ha.
  rewrite (truthy_known _ Hk).
  destruct (repeat_rule r) as [s|]; [|discriminate]. cbn [str_text].
  unfold bind. cbn. rewrite next_due_known, Ha by assumption. reflexivity.
Qed.

(** *** What processing one reminder does to the table *)

Ltac run_statement w :=
  unfold announce, notify, tts_say, delete_reminder, update_due_at, emit,
    statement, set_reminders, raise, bind;
  cbn [faults reminders logs out ext];
  destruct (faults w) as [|[?|] ?]; cbn [fst snd faults reminders logs out ext].

Lemma process_reminder_step (now : fields) (r : reminder) (w : world E) :
  table_step r (reminders w) (reminders (snd (process_reminder now r w))).
Proof.
  destruct (parse_due r) as [[dt|dt off]|] eqn:Hp.
  - destruct (ge now dt) eqn:Hge.
    + destruct (known_rule (repeat_rule r)) eqn:Hk.
      * destruct (add dt (period_of (repeat_rule r))) as [n|] eqn:Ha.
        -- rewrite (process_fire_update now dt n) by assumption.
           run_statement w; try (now apply Step_same);
             now apply (Step_update r _ _ dt n).
        -- rewrite (process_fire_overflow now dt) by assumption.
           now apply Step_same.
      * rewrite (process_fire_delete now dt) by assumption.
        run_statement w; try (now apply Step_same); now apply Step_delete.
    + rewrite (process_not_due now dt) by assumption. now apply Step_same.
  - destruct (process_aware now dt off r w Hp) as [e ->]. now apply Step_same.
  - rewrite process_unparsable by assumption. now apply Step_same.
Qed.

(** An exception leaves the table as it was. *)
Lemma process_reminder_raise (now : fields) (r : reminder) (w w' : world E)
      (e : exn) :
  process_reminder now r w = (inl e, w') -> reminders w' = reminders w.
Proof.
  destruct (parse_due r) as [[dt|dt off]|] eqn:Hp.
  - destruct (ge now dt) eqn:Hge.
    + destruct (known_rule (repeat_rule r)) eqn:Hk.
      * destruct (add dt (period_of (repeat_rule r))) as [n|] eqn:Ha.
        -- rewrite (process_fire_update now dt n) by assumption.
           run_statement w; intros H; inversion H; reflexivity.
        -- rewrite (process_fire_overflow now dt) by assumption.
           run_statement w; intros H; inversion H; reflexivity.
      * rewrite (process_fire_delete now dt) by assumption.
        run_statement w; intros H; inversion H; reflexivity.
    + rewrite (process_not_due now dt) by assumption. discriminate.
  - destruct (process_aware now dt off r w Hp) as [e' ->].
    intros H; inversion H; reflexivity.
  - rewrite process_unparsable by assumption. discriminate.
Qed.

Lemma rid_set_due (due : string) (i : Z) (x : reminder) :
  rid (set_due due i x) = rid x.
Proof. unfold set_due. now destruct (rid x =? i). Qed.

Lemma map_rid_set_due (due : string) (i : Z) (t : list reminder) :
  map rid (map (set_due due i) t) = map rid t.
Proof.
  rewrite map_map. apply map_ext. intros x. apply rid_set_due.
Qed.

Lemma set_due_other (due : string) (i : Z) (x : reminder) :
  rid x <> i -> set_due due i x = x.
Proof. unfold set_due. intros H. now apply Z.eqb_neq in H as ->. Qed.

Lemma keep_other_true (i : Z) (x : reminder) :
  keep_other i x = true <-> rid x <> i.
Proof. unfold keep_other. now rewrite negb_true_iff, Z.eqb_neq. Qed.

(** A row with another id is left alone. *)
Lemma table_step_other (r x : reminder) (t t' : list reminder) :
  table_step r t t' -> rid x <> rid r -> In x t -> In x t'.
Proof.
  intros [->| _ -> | dt n _ _ _ ->] Hne Hin.
  - assumption.
  - apply filter_In. split; [assumption|now apply keep_other_true].
  - rewrite <- (set_due_other (isoformat_minutes n) (rid r) x Hne).
    now apply in_map.
Qed.

(** No step adds an id. *)
Lemma table_step_ids (r : reminder) (t t' : list reminder) :
  table_step r t t' -> incl (map rid t') (map rid t).
Proof.
  intros [->| _ -> | dt n _ _ _ ->].
  - apply incl_refl.
  - intros i Hi. apply in_map_iff in Hi. destruct Hi as (x & <- & Hx).
    apply filter_In in Hx. apply in_map. apply Hx.
  - rewrite map_rid_set_due. apply incl_refl.
Qed.

(** Deleting rows keeps the ids distinct. *)
Lemma distinct_ids_filter (keep : reminder -> bool) (t : list reminder) :
  NoDup (map rid t) -> NoDup (map rid (filter keep t)).
Proof.
  induction t as [|x t IH]; cbn [map filter]; [trivial|].
  intros Hnd. inversion Hnd as [|? ? Hx Ht]; subst.
  destruct (keep x); cbn [map]; [|now apply IH].
  constructor; [|now apply IH].
  intros Hin. apply Hx. apply in_map_iff in Hin.
  destruct Hin as (y & Hy & Hf). apply filter_In in Hf.
  apply in_map_iff. exists y. split; [assumption|apply Hf].
Qed.

(** The ids stay distinct: the PRIMARY KEY is kept. *)
Lemma table_step_NoDup (r : reminder) (t t' : list reminder) :
  table_step r t t' -> NoDup (map rid t) -> NoDup (map rid t').
Proof.
  intros [->| _ -> | dt n _ _ _ ->] H.
  - assumption.
  - now apply distinct_ids_filter.
  - now rewrite map_rid_set_due.
Qed.

(** *** The loop over the rows and the tick *)

Lemma for_each_cons (body : reminder -> M (E := E) unit) (r : reminder)
      (rest : list reminder) (w : world E) :
  for_each body (r :: rest) w
  = match body r w with
    | (inr _, w') => for_each body rest w'
    | (inl e, w') => (inl e, w')
    end.
Proof. reflexivity. Qed.

Lemma for_each_app (body : reminder -> M (E := E) unit)
      (pre post : list reminder) (w : world E) :
  for_each body (pre ++ post) w
  = match for_each body pre w with
    | (inr _, w') => for_each body post w'
    | (inl e, w') => (inl e, w')
    end.
Proof.
  revert w. induction pre as [|r pre IH]; intros w; [reflexivity|].
  cbn [app]. rewrite !for_each_cons.
  destruct (body r w) as [[e|[]] w1]; [reflexivity|]. apply IH.
Qed.

(** A loop that runs to its end ran each of its parts to its end. *)
Lemma for_each_split (body : reminder -> M (E := E) unit)
      (pre post : list reminder) (r : reminder) (w w' : world E) :
  for_each body (pre ++ r :: post) w = (inr tt, w') ->
  exists w1 w2,
    for_each body pre w = (inr tt, w1) /\ body r w1 = (inr tt, w2)
    /\ for_each body post w2 = (inr tt, w').
Proof.
  rewrite for_each_app.
  destruct (for_each body pre w) as [[e|[]] w1] eqn:H1; [discriminate|].
  rewrite for_each_cons.
  destruct (body r w1) as [[e|[]] w2] eqn:H2; [discriminate|].
  intros H. now exists w1, w2.
Qed.

Lemma for_each_invariant (P : list reminder -> Prop)
      (body : reminder -> M (E := E) unit) (rows : list reminder) :
  (forall x (w : world E), In x rows -> P (reminders w) ->
                           P (reminders (snd (body x w)))) ->
  forall w, P (reminders w) -> P (reminders (snd (for_each body rows w))).
Proof.
  induction rows as [|r rows IH]; intros Hb w Hw; [assumption|].
  rewrite for_each_cons.
  pose proof (Hb r w (or_introl eq_refl) Hw) as H1.
  destruct (body r w) as [[e|[]] w1]; [assumption|].
  apply IH; [|assumption]. intros x w2 Hx. apply Hb. now right.
Qed.

Lemma statement_frame (w : world E) :
  reminders (snd (statement w)) = reminders w
  /\ logs (snd (statement w)) = logs w
  /\ out (snd (statement w)) = out w
  /\ ext (snd (statement w)) = ext w.
Proof. unfold statement. now destruct (faults w) as [|[e|] fs]. Qed.

(** The tick, as the SELECT followed by the loop over its rows. *)
Lemma tick_unfold (now : fields) (w : world E) :
  tick now w
  = match statement w with
    | (inr _, w0) =>
        match for_each (process_reminder now) (reminders w) w0 with
        | (inr _, w') => (w', None)
        | (inl e, w') => (w', Some e)
        end
    | (inl e, w0) => (w0, Some e)
    end.
Proof.
  unfold tick, select_reminders, bind.
  pose proof (statement_frame w) as (Hr & _).
  destruct (statement w) as [[e|[]] w0]; [reflexivity|].
  cbn [snd] in Hr. now rewrite Hr.
Qed.

Lemma tick_invariant (P : list reminder -> Prop) (now : fields) (w : world E) :
  (forall x (w' : world E), In x (reminders w) -> P (reminders w') ->
                P (reminders (snd (process_reminder now x w')))) ->
  P (reminders w) -> P (reminders (fst (tick now w))).
Proof.
  intros Hb Hw. rewrite tick_unfold.
  pose proof (statement_frame w) as (Hr & _).
  destruct (statement w) as [[e|[]] w0]; cbn [snd] in Hr.
  - cbn [fst]. now rewrite Hr.
  - rewrite <- Hr in Hw.
    pose proof (for_each_invariant P (process_reminder now) (reminders w) Hb w0 Hw)
      as H.
    now destruct (for_each (process_reminder now) (reminders w) w0)
      as [[e|[]] w'].
Qed.


Lemma tick_NoDup (now : fields) (w : world E) :
  NoDup (ids w) -> NoDup (ids (fst (tick now w))).
Proof.
  unfold ids. apply (tick_invariant (fun t => NoDup (map rid t))).
  intros x w' _. apply (table_step_NoDup x). apply process_reminder_step.
Qed.

Lemma same_id_same_row (t : list reminder) (x y : reminder) :
  NoDup (map rid t) -> In x t -> In y t -> rid x = rid y -> x = y.
Proof.
  induction t as [|a t IH]; cbn; [contradiction|].
  intros H Hx Hy Hid. inversion H as [|? ? Hn Hd]; subst.
  destruct Hx as [->|Hx], Hy as [->|Hy].
  - reflexivity.
  - exfalso. apply Hn. rewrite Hid. now apply in_map.
  - exfalso. apply Hn. rewrite <- Hid. now apply in_map.
  - now apply IH.
Qed.

Lemma rescheduled_same (r x : reminder) :
  rescheduled r x -> same_reminder r x.
Proof. intros [->|(n & _ & ->)]; now unfold same_reminder. Qed.

Lemma rescheduled_trans (r x y : reminder) :
  rescheduled r x -> rescheduled x y -> rescheduled r y.
Proof.
  intros [->|(n & Hn & ->)] [->|(m & Hm & ->)]; cbn.
  - now left.
  - right. now exists m.
  - right. now exists n.
  - right. now exists m.
Qed.

(** Firing never deletes a reminder whose rule is known: its row is in the
    table after the tick, however the tick ends. *)
Lemma tick_keeps_known (now : fields) (w : world E) (r : reminder) :
  NoDup (ids w) -> In r (reminders w) -> known_rule (repeat_rule r) = true ->
  exists r', In r' (reminders (fst (tick now w))) /\ rescheduled r r'.
Proof.
  intros Hnd Hin Hk.
  apply (tick_invariant (fun t => exists r', In r' t /\ rescheduled r r')).
  - intros x w' Hx (r' & Hr' & Hs).
    pose proof (process_reminder_step now x w') as Hstep.
    pose proof (rescheduled_same _ _ Hs) as (Hid & _).
    destruct (Z.eq_dec (rid r') (rid x)) as [Heq|Hne].
    + assert (x = r) as ->.
      { apply (same_id_same_row (reminders w)); try assumption. congruence. }
      destruct Hstep as [->| Hf _ | dt n _ _ Ha ->].
      * now exists r'.
      * congruence.
      * exists (set_due (isoformat_minutes n) (rid r) r'). split.
        -- now apply in_map.
        -- right. exists n. split; [exact (add_valid _ _ _ Ha)|].
           unfold set_due. apply Z.eqb_eq in Hid. rewrite Hid.
           destruct Hs as [->|(m & _ & ->)]; reflexivity.
    + exists r'. split; [|assumption].
      now apply (table_step_other x r' _ _ Hstep).
  - exists r. split; [assumption|now left].
Qed.

(** A reminder that is not yet due, or whose due time does not parse, is
    left in the table, however the tick ends. *)
Lemma tick_keeps_waiting (now : fields) (w : world E) (r : reminder) :
  NoDup (ids w) -> In r (reminders w) ->
  (forall dt, parse_due r = Some (Naive dt) -> ge now dt = false) ->
  (forall dt off, parse_due r <> Some (Aware dt off)) ->
  In r (reminders (fst (tick now w))).
Proof.
  intros Hnd Hin Hwait Hnaive.
  apply (tick_invariant (fun t => In r t)); [|assumption].
  intros x w' Hx Hr.
  destruct (Z.eq_dec (rid r) (rid x)) as [Heq|Hne].
  - assert (x = r) as -> by
        (apply (same_id_same_row (reminders w)); auto).
    destruct (parse_due r) as [[dt|dt off]|] eqn:Hp.
    + now rewrite (process_not_due now dt) by auto.
    + now destruct (Hnaive dt off).
    + now rewrite process_unparsable.
  - apply (table_step_other x r (reminders w'));
      [apply process_reminder_step|assumption|assumption].
Qed.

(** The same over the whole loop. *)
Lemma loop_NoDup (clock : list fields) (w : world E) :
  NoDup (ids w) -> NoDup (ids (scheduler_loop clock w)).
Proof.
  revert w. induction clock as [|now clock IH]; intros w H; [assumption|].
  cbn [scheduler_loop]. apply IH. now apply tick_NoDup.
Qed.



(** *** A tick that runs to its end *)

Lemma tick_complete (now : fields) (w w' : world E) :
  tick now w = (w', None) ->
  exists w0, statement w = (inr tt, w0)
             /\ for_each (process_reminder now) (reminders w) w0 = (inr tt, w').
Proof.
  rewrite tick_unfold.
  destruct (statement w) as [[e|[]] w0]; [discriminate|].
  destruct (for_each (process_reminder now) (reminders w) w0)
    as [[e|[]] w1] eqn:Hf; [discriminate|].
  intros [= <-]. now exists w0.
Qed.

Lemma for_each_others (now : fields) (rows : list reminder) (w : world E)
      (x : reminder) :
  ~ In (rid x) (map rid rows) -> In x (reminders w) ->
  In x (reminders (snd (for_each (process_reminder now) rows w))).
Proof.
  intros Hx. apply (for_each_invariant (fun t => In x t)).
  intros y w1 Hy. apply (table_step_other y); [apply process_reminder_step|].
  intros Heq. apply Hx. rewrite Heq. now apply in_map.
Qed.

Lemma for_each_ids (now : fields) (rows : list reminder) (w : world E) :
  incl (map rid (reminders (snd (for_each (process_reminder now) rows w))))
       (map rid (reminders w)).
Proof.
  apply (for_each_invariant
           (fun t => incl (map rid t) (map rid (reminders w))));
    [|apply incl_refl].
  intros y w1 _ H. eapply incl_tran; [|exact H].
  apply (table_step_ids y). apply process_reminder_step.
Qed.

Lemma run_update (r : reminder) (due : string) (i : Z) (w w' : world E) :
  (announce r ;; update_due_at due i) w = (inr tt, w') ->
  reminders w' = map (set_due due i) (reminders w).
Proof. run_statement w; intros H; inversion H; reflexivity. Qed.

Lemma run_delete (r : reminder) (i : Z) (w w' : world E) :
  (announce r ;; delete_reminder i) w = (inr tt, w') ->
  reminders w' = filter (keep_other i) (reminders w).
Proof. run_statement w; intros H; inversion H; reflexivity. Qed.

Lemma not_in_filtered (i : Z) (t : list reminder) :
  ~ In i (map rid (filter (keep_other i) t)).
Proof.
  intros H. apply in_map_iff in H. destruct H as (x & Hx & Hf).
  apply filter_In in Hf. destruct Hf as [_ Hf].
  apply keep_other_true in Hf. contradiction.
Qed.

Lemma tick_row_fate (now : fields) (w w' : world E) (r : reminder) :
  NoDup (ids w) -> In r (reminders w) -> tick now w = (w', None) ->
  fate now r (reminders w').
Proof.
  intros Hnd Hin Htick.
  destruct (tick_complete now w w' Htick) as (w0 & Hs & Hf).
  pose proof (statement_frame w) as (Hr0 & _). rewrite Hs in Hr0. cbn in Hr0.
  destruct (in_split _ _ Hin) as (pre & post & Heq).
  unfold ids in Hnd. rewrite Heq in Hf, Hnd.
  rewrite map_app in Hnd. cbn [map] in Hnd.
  apply NoDup_remove_2 in Hnd.
  assert (Hpre : ~ In (rid r) (map rid pre))
    by (intros H; apply Hnd, in_or_app; now left).
  assert (Hpost : ~ In (rid r) (map rid post))
    by (intros H; apply Hnd, in_or_app; now right).
  destruct (for_each_split _ pre post r w0 w' Hf) as (w1 & w2 & H1 & H2 & H3).
  assert (Hin1 : In r (reminders w1)).
  { pose proof (for_each_others now pre w0 r Hpre) as H.
    rewrite H1 in H. apply H. now rewrite Hr0. }
  pose proof (for_each_others now post w2) as Hkeep.
  pose proof (for_each_ids now post w2) as Hids.
  rewrite H3 in Hkeep, Hids. cbn [snd] in Hkeep, Hids.
  unfold fate.
  destruct (parse_due r) as [[dt|dt off]|] eqn:Hp.
  - destruct (ge now dt) eqn:Hge.
    + destruct (known_rule (repeat_rule r)) eqn:Hk.
      * destruct (add dt (period_of (repeat_rule r))) as [n|] eqn:Ha.
        -- exists n. split; [reflexivity|].
           rewrite (process_fire_update now dt n) in H2 by assumption.
           apply run_update in H2. apply Hkeep.
           ++ now rewrite rid_set_due.
           ++ rewrite H2. now apply in_map.
        -- rewrite (process_fire_overflow now dt) in H2 by assumption.
           revert H2. run_statement w1; discriminate.
      * rewrite (process_fire_delete now dt) in H2 by assumption.
        apply run_delete in H2. intros H. apply Hids in H.
        rewrite H2 in H. now apply not_in_filtered in H.
    + rewrite (process_not_due now dt) in H2 by assumption.
      injection H2 as <-. now apply Hkeep.
  - destruct (process_aware now dt off r w1 Hp) as [e He].
    rewrite He in H2. discriminate.
  - rewrite process_unparsable in H2 by assumption.
    injection H2 as <-. now apply Hkeep.
Qed.

(** *** Rewriting the table commutes with processing other reminders *)

Lemma statement_retable (g : list reminder -> list reminder) (w : world E) :
  statement (retable g w)
  = (fst (statement w), retable g (snd (statement w))).
Proof.
  destruct w as [t l fs o x]. unfold statement, retable. cbn [faults].
  now destruct fs as [|[e|] fs].
Qed.

Lemma process_retable (g : list reminder -> list reminder) (now : fields)
      (x : reminder) (w : world E) :
  commutes_with g x ->
  process_reminder now x (retable g w)
  = (fst (process_reminder now x w), retable g (snd (process_reminder now x w))).
Proof.
  intros [Hd Hu].
  destruct (parse_due x) as [[dt|dt off]|] eqn:Hp.
  - destruct (ge now dt) eqn:Hge.
    + destruct (known_rule (repeat_rule x)) eqn:Hk.
      * destruct (add dt (period_of (repeat_rule x))) as [n|] eqn:Ha.
        -- rewrite !(process_fire_update now dt n) by assumption.
           unfold retable. run_statement w; try reflexivity;
             now rewrite Hu.
        -- rewrite !(process_fire_overflow now dt) by assumption.
           unfold retable. now run_statement w.
      * rewrite !(process_fire_delete now dt) by assumption.
        unfold retable. run_statement w; try reflexivity; now rewrite Hd.
    + now rewrite !(process_not_due now dt) by assumption.
  - unfold process_reminder. now rewrite Hp.
  - now rewrite !process_unparsable by assumption.
Qed.

Lemma for_each_retable (g : list reminder -> list reminder) (now : fields)
      (rows : list reminder) :
  (forall x, In x rows -> commutes_with g x) ->
  forall w : world E,
    for_each (process_reminder now) rows (retable g w)
    = (fst (for_each (process_reminder now) rows w),
       retable g (snd (for_each (process_reminder now) rows w))).
Proof.
  induction rows as [|x rows IH]; intros Hc w; [reflexivity|].
  rewrite !for_each_cons, process_retable by (apply Hc; now left).
  destruct (process_reminder now x w) as [[e|[]] w1]; [reflexivity|].
  cbn [fst snd]. apply IH. intros y Hy. apply Hc. now right.
Qed.

Lemma filter_map_same {A} (p : A -> bool) (f : A -> A) (t : list A) :
  (forall a, p (f a) = p a) -> filter p (map f t) = map f (filter p t).
Proof.
  intros H. induction t as [|a t IH]; [reflexivity|]. cbn.
  rewrite H. destruct (p a); cbn; now rewrite IH.
Qed.

Lemma filter_filter {A} (p q : A -> bool) (t : list A) :
  filter p (filter q t) = filter q (filter p t).
Proof.
  induction t as [|a t IH]; [reflexivity|]. cbn.
  destruct (p a) eqn:Hp, (q a) eqn:Hq; cbn; rewrite ?Hp, ?Hq, IH; reflexivity.
Qed.

(** Leaving a reminder out of the table commutes with every step. *)
Lemma without_commutes (i : Z) (x : reminder) :
  commutes_with (filter (keep_other i)) x.
Proof.
  split.
  - intros t. apply filter_filter.
  - intros due t. apply filter_map_same. intros a.
    unfold keep_other. now rewrite rid_set_due.
Qed.

Lemma rid_clear_rule (i : Z) (x : reminder) : rid (clear_rule i x) = rid x.
Proof. unfold clear_rule. now destruct (rid x =? i). Qed.

Lemma clear_rule_other (i : Z) (x : reminder) :
  rid x <> i -> clear_rule i x = x.
Proof. unfold clear_rule. intros H. now apply Z.eqb_neq in H as ->. Qed.



Lemma filter_clear_rule (i : Z) (t : list reminder) :
  filter (keep_other i) (map (clear_rule i) t) = filter (keep_other i) t.
Proof.
  induction t as [|a t IH]; [reflexivity|]. cbn [map filter].
  assert (Hk : keep_other i (clear_rule i a) = keep_other i a)
    by (unfold keep_other; now rewrite rid_clear_rule).
  rewrite Hk. destruct (keep_other i a) eqn:Hka; [|exact IH].
  apply keep_other_true in Hka. rewrite clear_rule_other by assumption.
  now f_equal.
Qed.

Lemma filter_keep_others (i : Z) (t : list reminder) :
  ~ In i (map rid t) -> filter (keep_other i) t = t.
Proof.
  induction t as [|a t IH]; [reflexivity|]. cbn. intros H.
  assert (Ha : keep_other i a = true).
  { apply keep_other_true. intros Heq. apply H. now left. }
  rewrite Ha. f_equal. apply IH. intros Hin. apply H. now right.
Qed.

Lemma NoDup_app_disjoint {A} (l1 l2 : list A) (a : A) :
  NoDup (l1 ++ l2) -> In a l1 -> ~ In a l2.
Proof.
  induction l1 as [|b l1 IH]; [contradiction|]. cbn.
  intros H Ha Hb. inversion H as [|? ? Hn Hd]; subst.
  destruct Ha as [->|Ha].
  - apply Hn. apply in_or_app. now right.
  - now apply IH.
Qed.

(** The parts of a table around one of its rows have other ids. *)
Lemma split_distinct (t pre post : list reminder) (r : reminder) :
  NoDup (map rid t) -> t = pre ++ r :: post ->
  ~ In (rid r) (map rid pre) /\ ~ In (rid r) (map rid post).
Proof.
  intros Hnd ->. rewrite map_app in Hnd. cbn [map] in Hnd.
  apply NoDup_remove_2 in Hnd.
  split; intros H; apply Hnd, in_or_app; [now left|now right].
Qed.

(** *** The fate of a due reminder, in the words of the claims *)

Lemma tick_reschedules (now dt : fields) (w w' : world E) (r : reminder) :
  NoDup (ids w) -> In r (reminders w) ->
  known_rule (repeat_rule r) = true ->
  parse_due r = Some (Naive dt) -> ge now dt = true ->
  tick now w = (w', None) ->
  exists n,
    add dt (period_of (repeat_rule r)) = Some n
    /\ In (mk_reminder (rid r) (text r) (Some (isoformat_minutes n))
                       (repeat_rule r)) (reminders w')
    /\ fromisoformat (isoformat_minutes n) = Some (Naive (trunc_minutes n)).
Proof.
  intros Hnd Hin Hk Hp Hge Ht.
  pose proof (tick_row_fate now w w' r Hnd Hin Ht) as Hf.
  unfold fate in Hf. rewrite Hp, Hge, Hk in Hf.
  destruct Hf as (n & Ha & Hn). exists n. split; [assumption|]. split.
  - unfold set_due in Hn. now rewrite Z.eqb_refl in Hn.
  - apply fromisoformat_isoformat_minutes. exact (add_valid _ _ _ Ha).
Qed.

Lemma tick_deletes (now dt : fields) (w w' : world E) (r : reminder) :
  NoDup (ids w) -> In r (reminders w) ->
  known_rule (repeat_rule r) = false ->
  parse_due r = Some (Naive dt) -> ge now dt = true ->
  tick now w = (w', None) ->
  ~ In (rid r) (ids w').
Proof.
  intros Hnd Hin Hk Hp Hge Ht.
  pose proof (tick_row_fate now w w' r Hnd Hin Ht) as Hf.
  unfold fate in Hf. now rewrite Hp, Hge, Hk in Hf.
Qed.

Lemma known_rule_period (s : string) :
  known_rule (Some s) = true -> period_table s = Some (period_of (Some s)).
Proof.
  unfold known_rule, period_table, period_of.
  destruct (String.eqb s "daily") eqn:Hd.
  - apply String.eqb_eq in Hd. now subst.
  - destruct (String.eqb s "hourly") eqn:Hh; [reflexivity|].
    destruct (String.eqb s "weekly") eqn:Hw; [reflexivity|discriminate].
Qed.

Lemma period_whole_minutes (rule : option string) :
  td_seconds (period_of rule) = 60 * (td_seconds (period_of rule) / 60)
  /\ td_microseconds (period_of rule) = 0.
Proof.
  unfold period_of. destruct rule as [s|]; [|now split].
  destruct (String.eqb s "daily"); [now split|].
  destruct (String.eqb s "hourly"); now split.
Qed.

(** *** One reminder replaced or left out *)


(** On a world whose table has the rule of [r] cleared, deleting [r] ends in
    the same world. *)
Lemma delete_after_clear (r : reminder) (w w2 : world E) :
  (announce r ;; delete_reminder (rid r)) w = (inr tt, w2) ->
  (announce (clear_rule (rid r) r) ;; delete_reminder (rid r))
    (retable (map (clear_rule (rid r))) w) = (inr tt, w2).
Proof.
  unfold clear_rule at 1. rewrite Z.eqb_refl.
  destruct w as [t l fs o x]. unfold retable.
  unfold announce, notify, tts_say, delete_reminder, emit, statement,
    set_reminders, bind. cbn.
  destruct fs as [|[e|] fs]; cbn; intros H; inversion H;
    now rewrite filter_clear_rule.
Qed.

(** A row that is skipped can be left out of the loop. *)
Lemma for_each_skip (body : reminder -> M (E := E) unit)
      (pre post : list reminder) (r : reminder) (w : world E) :
  (forall v, body r v = (inr tt, v)) ->
  for_each body (pre ++ r :: post) w = for_each body (pre ++ post) w.
Proof.
  intros Hskip. rewrite !for_each_app.
  destruct (for_each body pre w) as [[e|[]] w1]; [reflexivity|].
  now rewrite for_each_cons, Hskip.
Qed.

Lemma filter_without (pre post : list reminder) (r : reminder) :
  ~ In (rid r) (map rid pre) -> ~ In (rid r) (map rid post) ->
  filter (keep_other (rid r)) (pre ++ r :: post) = pre ++ post.
Proof.
  intros Hpre Hpost. rewrite filter_app. cbn [filter].
  unfold keep_other at 2. rewrite Z.eqb_refl. cbn [negb].
  now rewrite !filter_keep_others.
Qed.

End SchedulerFacts.

(** ** Properties of the dispatcher *)

Section DispatcherFacts.
Context {E : Type}.
Variable openai_client : option (string -> E -> (exn + json) * E).
Variable handler :
  string -> call_args -> list reminder * E -> (exn + string) * (list reminder * E).
Variable repr : json -> string.

Local Abbreviation plan_with_openai := (plan_with_openai openai_client).
Local Abbreviation deliver := (deliver (E := E) repr).
Local Abbreviation execute := (execute handler repr).
Local Abbreviation handle_user_text :=
  (handle_user_text openai_client handler repr).

Lemma db_log_run (k : string) (p : json) (w : world E) :
  db_log k p w
  = match faults w with
    | Some e :: fs =>
        (inl e, {| reminders := reminders w; logs := logs w; faults := fs;
                   out := out w; ext := ext w |})
    | fs =>
        (inr tt, {| reminders := reminders w; logs := logs w ++ [mk_log k p];
                    faults := tl fs; out := out w; ext := ext w |})
    end.
Proof.
  destruct w as [t l fs o x]. unfold db_log, statement, set_logs, bind.
  cbn [reminders logs faults out ext]. now destruct fs as [|[e|] fs].
Qed.

Lemma db_log_done (k : string) (p : json) (w w1 : world E) :
  db_log k p w = (inr tt, w1) ->
  w1 = {| reminders := reminders w; logs := logs w ++ [mk_log k p];
          faults := tl (faults w); out := out w; ext := ext w |}.
Proof.
  rewrite db_log_run. destruct (faults w) as [|[e|] fs]; now intros [= <-].
Qed.

(** The planner returns a plan, and touches neither table nor the outcomes
    of the statements to come. *)
Lemma plan_run (user_text : string) (w : world E) :
  exists p x,
    plan_with_openai user_text w
    = (inr p, {| reminders := reminders w; logs := logs w; faults := faults w;
                 out := out w ++ [Plan_request user_text]; ext := x |}).
Proof.
  unfold Dispatcher.plan_with_openai, emit, bind, ret.
  destruct openai_client as [create|]; [|now eexists _, _].
  cbn [reminders logs faults out ext].
  destruct (create user_text (ext w)) as [[e|v] x]; [now eexists _, _|].
  destruct v; now eexists _, _.
Qed.

Lemma deliver_run (v : json) (w : world E) :
  exists o,
    deliver v w
    = (inr tt, {| reminders := reminders w; logs := logs w; faults := faults w;
                  out := out w ++ o; ext := ext w |})
    /\ forall n a, ~ In (Call n a) o.
Proof.
  unfold Dispatcher.deliver. destruct (truthy v).
  - eexists [_; _]. unfold tts_say. unfold emit, bind. cbn.
    rewrite <- app_assoc. split; [reflexivity|].
    intros n a [H|[H|[]]]; discriminate.
  - exists []. unfold ret. rewrite app_nil_r. destruct w. split; [reflexivity|].
    intros n a [].
Qed.

(** Whatever the action, the dispatcher only appends to the log and to the
    output. *)
Lemma execute_grows (a : json) (w : world E) :
  exists l o,
    logs (snd (execute a w)) = logs w ++ l
    /\ out (snd (execute a w)) = out w ++ o.
Proof.
  unfold Dispatcher.execute.
  destruct a as [| | | | | |d]; try (exists [], []; cbn; now rewrite !app_nil_r).
  destruct d as [|kv d]; [exists [], []; cbn; now rewrite !app_nil_r|].
  destruct (lookup _) as [e|[fn|]].
  - exists [], []. cbn. now rewrite !app_nil_r.
  - unfold try_except, call, bind, emit. cbn [reminders logs faults out ext].
    destruct (handler fn _ _) as [[e|res] [rs x]].
    + eexists [], [_; _]. cbn. now rewrite app_nil_r, <- app_assoc.
    + rewrite db_log_run. cbn [reminders logs faults out ext].
      destruct (faults w) as [|[e|] fs]; cbn.
      * eexists [_], [_; _]. now rewrite <- app_assoc.
      * eexists [], [_; _; _]. now rewrite app_nil_r, <- !app_assoc.
      * eexists [_], [_; _]. now rewrite <- app_assoc.
  - eexists [], [_]. cbn. now rewrite app_nil_r.
Qed.

End DispatcherFacts.

(** * The order of due times *)

Lemma cycle_back_all : forall r, 0 <= r < DI400Y -> cycle_back r = true.
Proof.
  apply (forallb_below cycle_back DI400Y). vm_cast_no_check (eq_refl true).
Qed.

Lemma days_before_year_period (q y : Z) :
  days_before_year (q * 400 + y) = q * DI400Y + days_before_year y.
Proof.
  unfold days_before_year, DI400Y.
  replace (q * 400 + y - 1) with (y - 1 + (q * 100) * 4) at 2 by ring.
  replace (q * 400 + y - 1) with (y - 1 + (q * 4) * 100) at 2 by ring.
  replace (q * 400 + y - 1) with (y - 1 + q * 400) at 2 by ring.
  rewrite !Z.div_add by lia. ring.
Qed.

Lemma ymd2ord_period (q y m d : Z) :
  ymd2ord (q * 400 + y) m d = q * DI400Y + ymd2ord y m d.
Proof.
  unfold ymd2ord, days_before_month.
  rewrite days_before_year_period, is_leap_period. ring.
Qed.

(** The ordinal of the date of an ordinal is that ordinal. *)
Lemma ymd2ord_ord2ymd (n : Z) :
  let '(y, m, d) := ord2ymd n in ymd2ord y m d = n.
Proof.
  unfold ord2ymd.
  assert (Hr : 0 <= (n - 1) mod DI400Y < DI400Y)
    by (apply Z.mod_pos_bound; reflexivity).
  assert (Hn : n - 1 = DI400Y * ((n - 1) / DI400Y) + (n - 1) mod DI400Y)
    by (apply Z.div_mod; discriminate).
  pose proof (cycle_back_all _ Hr) as Hc. unfold cycle_back in Hc.
  destruct (ord2ymd_cycle ((n - 1) mod DI400Y)) as [[y m] d].
  apply Z.eqb_eq in Hc. rewrite ymd2ord_period. lia.
Qed.

Lemma days_before_year_step (y : Z) :
  days_before_year (y + 1)
  = days_before_year y + 365 + (if is_leap y then 1 else 0).
Proof.
  unfold days_before_year, is_leap. replace (y + 1 - 1) with y by lia.
  destruct (Z.eqb_spec (y mod 4) 0), (Z.eqb_spec (y mod 100) 0),
    (Z.eqb_spec (y mod 400) 0); cbn [andb orb negb];
    Z.div_mod_to_equations; lia.
Qed.

Lemma days_before_year_mono (y y' : Z) :
  y <= y' -> days_before_year y <= days_before_year y'.
Proof. unfold days_before_year. intros H. Z.div_mod_to_equations. lia. Qed.

Ltac each_month m :=
  let H := fresh in
  assert (H : m = 1 \/ m = 2 \/ m = 3 \/ m = 4 \/ m = 5 \/ m = 6 \/ m = 7
              \/ m = 8 \/ m = 9 \/ m = 10 \/ m = 11 \/ m = 12) by lia;
  destruct H as [->|[->|[->|[->|[->|[->|[->|[->|[->|[->|[->| ->]]]]]]]]]]].

Ltac month_tables :=
  unfold days_before_month, days_in_month in *;
  repeat match goal with
    | |- context [tbl ?t ?m] =>
        let v := eval vm_compute in (tbl t m) in change (tbl t m) with v
    | H : context [tbl ?t ?m] |- _ =>
        let v := eval vm_compute in (tbl t m) in change (tbl t m) with v in H
    | |- context [Z.eqb ?a ?b] =>
        let v := eval vm_compute in (Z.eqb a b) in change (Z.eqb a b) with v
    | H : context [Z.eqb ?a ?b] |- _ =>
        let v := eval vm_compute in (Z.eqb a b) in
        change (Z.eqb a b) with v in H
    | |- context [Z.ltb ?a ?b] =>
        let v := eval vm_compute in (Z.ltb a b) in change (Z.ltb a b) with v
    | H : context [Z.ltb ?a ?b] |- _ =>
        let v := eval vm_compute in (Z.ltb a b) in
        change (Z.ltb a b) with v in H
    end;
  cbn [andb] in *.

(** Inside a year, the days of a month come before the later months and
    there are 365 or 366 of them. *)
Lemma month_before_later (y m m' d : Z) :
  1 <= m -> m < m' -> m' <= 12 -> 1 <= d <= days_in_month y m ->
  days_before_month y m + d <= days_before_month y m'.
Proof.
  intros H1 H2 H3 Hd. destruct (is_leap y) eqn:Hl;
    each_month m; each_month m'; try lia; month_tables; rewrite ?Hl in *;
    cbn [andb] in *; lia.
Qed.

Lemma day_of_year_range (y m d : Z) :
  1 <= m <= 12 -> 1 <= d <= days_in_month y m ->
  1 <= days_before_month y m + d <= 365 + (if is_leap y then 1 else 0).
Proof.
  intros Hm Hd. destruct (is_leap y) eqn:Hl;
    each_month m; month_tables; rewrite ?Hl in *; cbn [andb] in *; lia.
Qed.

(** The ordinal grows with the date, compared as a tuple. *)
Lemma ymd2ord_lex (y m d y' m' d' : Z) :
  1 <= m <= 12 -> 1 <= d <= days_in_month y m ->
  1 <= m' <= 12 -> 1 <= d' <= days_in_month y' m' ->
  y < y' \/ (y = y' /\ (m < m' \/ (m = m' /\ d < d'))) ->
  ymd2ord y m d < ymd2ord y' m' d'.
Proof.
  intros Hm Hd Hm' Hd' H. unfold ymd2ord.
  pose proof (day_of_year_range y m d Hm Hd) as Hr.
  pose proof (day_of_year_range y' m' d' Hm' Hd') as Hr'.
  destruct H as [Hy|[<- [Hlt|[<- Hlt]]]].
  - pose proof (days_before_year_step y) as Hs.
    pose proof (days_before_year_mono (y + 1) y') as Hmono.
    destruct (is_leap y); lia.
  - pose proof (month_before_later y m m' d) as Hb. lia.
  - lia.
Qed.

Lemma valid_fields (f : fields) :
  valid f = true ->
  1 <= month f <= 12 /\ 1 <= day f <= days_in_month (year f) (month f)
  /\ 0 <= hour f <= 23 /\ 0 <= minute f <= 59 /\ 0 <= second f <= 59
  /\ 0 <= microsecond f <= 999999.
Proof.
  unfold valid, check_date_fields, check_time_fields.
  rewrite !andb_true_iff, !Z.leb_le. lia.
Qed.

(** [>=] on naive values is the order of their stamps. *)
Lemma ge_stamp (a b : fields) :
  valid a = true -> valid b = true ->
  (ge a b = true <-> stamp b <= stamp a).
Proof.
  intros Ha Hb. apply valid_fields in Ha, Hb.
  pose proof (ymd2ord_lex (year a) (month a) (day a)
                          (year b) (month b) (day b)) as Hlt.
  pose proof (ymd2ord_lex (year b) (month b) (day b)
                          (year a) (month a) (day a)) as Hgt.
  assert (Heq : year a = year b -> month a = month b -> day a = day b ->
                ymd2ord (year a) (month a) (day a)
                = ymd2ord (year b) (month b) (day b))
    by (intros -> -> ->; reflexivity).
  unfold stamp, ge, to_tuple. cbn [cmp_tuple].
  set (oa := ymd2ord (year a) (month a) (day a)) in *.
  set (ob := ymd2ord (year b) (month b) (day b)) in *.
  clearbody oa ob.
  destruct Ha as (Ha1 & Ha2 & Ha3 & Ha4 & Ha5 & Ha6).
  destruct Hb as (Hb1 & Hb2 & Hb3 & Hb4 & Hb5 & Hb6).
  specialize (Hlt Ha1 Ha2 Hb1 Hb2). specialize (Hgt Hb1 Hb2 Ha1 Ha2).
  clear Ha2 Hb2.
  destruct (Z.compare_spec (year a) (year b));
    [destruct (Z.compare_spec (month a) (month b));
     [destruct (Z.compare_spec (day a) (day b));
      [destruct (Z.compare_spec (hour a) (hour b));
       [destruct (Z.compare_spec (minute a) (minute b));
        [destruct (Z.compare_spec (second a) (second b));
         [destruct (Z.compare_spec (microsecond a) (microsecond b))
         |..]|..]|..]|..]|..]|..];
    (split; [intros Hge; try discriminate Hge|intros Hle; try reflexivity]);
    lia.
Qed.

(** The constructor of [timedelta] keeps the microseconds. *)
Lemma span_new_timedelta (d s u : Z) :
  span (new_timedelta d s u) = d * 86400000000 + s * 1000000 + u.
Proof.
  unfold span, new_timedelta. cbn [td_days td_seconds td_microseconds].
  Z.div_mod_to_equations. lia.
Qed.

(** Adding a [timedelta] adds its microseconds to the stamp. *)
Lemma stamp_add (f n : fields) (td : timedelta) :
  add f td = Some n -> stamp n = stamp f + span td.
Proof.
  unfold add.
  set (delta := timedelta_add _ td).
  assert (Hspan : span delta = stamp f + span td).
  { subst delta. unfold timedelta_add. rewrite span_new_timedelta.
    pose proof (span_new_timedelta
                  (ymd2ord (year f) (month f) (day f))
                  (hour f * 3600 + minute f * 60 + second f)
                  (microsecond f)) as H.
    unfold span in *. unfold stamp. lia. }
  destruct (new_timedelta_range
              (td_days (new_timedelta (ymd2ord (year f) (month f) (day f))
                          (hour f * 3600 + minute f * 60 + second f)
                          (microsecond f)) + td_days td)
              (td_seconds (new_timedelta (ymd2ord (year f) (month f) (day f))
                          (hour f * 3600 + minute f * 60 + second f)
                          (microsecond f)) + td_seconds td)
              (td_microseconds
                 (new_timedelta (ymd2ord (year f) (month f) (day f))
                    (hour f * 3600 + minute f * 60 + second f)
                    (microsecond f)) + td_microseconds td)) as [Hs Hu].
  fold (timedelta_add
          (new_timedelta (ymd2ord (year f) (month f) (day f))
             (hour f * 3600 + minute f * 60 + second f) (microsecond f)) td)
    in Hs, Hu.
  fold delta in Hs, Hu. clearbody delta.
  destruct (_ && _); [|discriminate].
  pose proof (ymd2ord_ord2ymd (td_days delta)) as Hord.
  destruct (ord2ymd (td_days delta)) as [[y m] d]. intros [= <-].
  rewrite <- Hspan. unfold stamp, span.
  cbn [year month day hour minute second microsecond]. rewrite Hord.
  Z.div_mod_to_equations. lia.
Qed.

(** Dropping the seconds moves a value back by less than a minute. *)
Lemma stamp_trunc_minutes (f : fields) :
  valid f = true ->
  stamp f - 60000000 < stamp (trunc_minutes f) <= stamp f.
Proof.
  intros H. apply valid_fields in H. unfold stamp, trunc_minutes.
  cbn [year month day hour minute second microsecond]. lia.
Qed.

Lemma span_period (rule : option string) :
  3600000000 <= span (period_of rule).
Proof.
  unfold period_of. destruct rule as [s|]; [|vm_compute; discriminate].
  destruct (String.eqb s "daily"); [vm_compute; discriminate|].
  destruct (String.eqb s "hourly"); vm_compute; discriminate.
Qed.

(** A due time advanced by a period and written with minute precision is
    later than it was. *)
Lemma advanced_due_is_later (dt n : fields) (rule : option string) :
  valid dt = true -> add dt (period_of rule) = Some n ->
  ge dt (trunc_minutes n) = false /\ ge (trunc_minutes n) dt = true.
Proof.
  intros Hv Ha.
  pose proof (add_valid _ _ _ Ha) as Hn.
  pose proof (valid_trunc_minutes n Hn) as Ht.
  pose proof (stamp_add dt n _ Ha) as Hs.
  pose proof (stamp_trunc_minutes n Hn) as Htr.
  pose proof (span_period rule) as Hp.
  split.
  - destruct (ge dt (trunc_minutes n)) eqn:Hge; [|reflexivity].
    apply (ge_stamp dt (trunc_minutes n) Hv Ht) in Hge. lia.
  - apply (ge_stamp (trunc_minutes n) dt Ht Hv). lia.
Qed.

(** * Facts about [strip] *)

Lemma length_append (a b : string) :
  String.length (a ++ b) = (String.length a + String.length b)%nat.
Proof. induction a as [|c a IH]; [reflexivity|]. cbn. now rewrite IH. Qed.

Lemma reverse_onto_append (s acc : string) :
  reverse_onto s acc = (reverse s ++ acc)%string.
Proof.
  unfold reverse. revert acc.
  induction s as [|c r IH]; intros acc; [reflexivity|]. cbn [reverse_onto].
  rewrite (IH (String c acc)), (IH (String c EmptyString)).
  now rewrite append_assoc.
Qed.

Lemma reverse_append (a b : string) :
  reverse (a ++ b) = (reverse b ++ reverse a)%string.
Proof.
  induction a as [|c a IH]; [now rewrite append_nil_r|].
  unfold reverse in *. cbn [append reverse_onto].
  rewrite !(reverse_onto_append _ (String c EmptyString)).
  fold (reverse (a ++ b)) (reverse a). unfold reverse.
  now rewrite IH, append_assoc.
Qed.

Lemma reverse_reverse (s : string) : reverse (reverse s) = s.
Proof.
  induction s as [|c r IH]; [reflexivity|].
  unfold reverse at 2. cbn [reverse_onto].
  rewrite reverse_onto_append, reverse_append, IH. reflexivity.
Qed.

Section SkipFacts.
Variable one : ascii -> bool.
Variable two : ascii -> ascii -> bool.
Variable three : ascii -> ascii -> ascii -> bool.

Local Abbreviation skip := (skip_spaces one two three).

Lemma skip_spaces_eq (s : string) :
  skip s
  = match s with
    | String a r =>
        if one a then skip r
        else
          match r with
          | String b r2 =>
              if two a b then skip r2
              else
                match r2 with
                | String c r3 => if three a b c then skip r3 else s
                | EmptyString => s
                end
          | EmptyString => s
          end
    | EmptyString => EmptyString
    end.
Proof. destruct s; reflexivity. Qed.

(** A step of [skip_spaces]: it stops, or it goes on behind one
    character. *)
Lemma skip_step (s : string) :
  skip s = s
  \/ exists u r, u <> EmptyString /\ s = (u ++ r)%string /\ skip s = skip r.
Proof.
  rewrite (skip_spaces_eq s).
  destruct s as [|a r]; [now left|]. cbv beta iota.
  destruct (one a).
  { right. exists (String a EmptyString), r. now repeat split. }
  destruct r as [|b r2]; [now left|]. cbv beta iota.
  destruct (two a b).
  { right. exists (String a (String b EmptyString)), r2. now repeat split. }
  destruct r2 as [|c r3]; [now left|]. cbv beta iota.
  destruct (three a b c); [|now left].
  right. exists (String a (String b (String c EmptyString))), r3.
  now repeat split.
Qed.

Lemma skip_induction (P : string -> Prop) :
  (forall s, skip s = s -> P s) ->
  (forall u r, u <> EmptyString -> skip (u ++ r) = skip r -> P r ->
               P (u ++ r)%string) ->
  forall s, P s.
Proof.
  intros Hstop Hstep s.
  remember (String.length s) as n eqn:Hn. revert s Hn.
  induction n as [n IH] using lt_wf_ind. intros s Hn.
  destruct (skip_step s) as [H|(u & r & Hu & -> & H)]; [now apply Hstop|].
  apply Hstep; [assumption..|].
  apply (IH (String.length r)); [|reflexivity].
  rewrite Hn, length_append. destruct u; [contradiction|cbn; lia].
Qed.

(** What [skip_spaces] returns is the end of the text. *)
Lemma skip_suffix (s : string) : exists p, s = (p ++ skip s)%string.
Proof.
  induction s as [s H|u r _ H [p Hp]] using skip_induction.
  - exists EmptyString. now rewrite H.
  - exists (u ++ p)%string. rewrite H, append_assoc. now rewrite <- Hp.
Qed.

Lemma skip_skip (s : string) : skip (skip s) = skip s.
Proof.
  induction s as [s H|u r _ H IH] using skip_induction.
  - now rewrite !H.
  - now rewrite H.
Qed.

Lemma skip_length (s : string) :
  (String.length (skip s) <= String.length s)%nat.
Proof.
  destruct (skip_suffix s) as [p Hp]. rewrite Hp at 2.
  rewrite length_append. lia.
Qed.

(** A text whose head is not white space keeps none when its end is cut. *)
Lemma skip_cut (x q : string) :
  skip (x ++ q) = (x ++ q)%string -> skip x = x.
Proof.
  assert (Hlong : forall z w : string,
             (String.length z < String.length w)%nat -> skip z <> w).
  { intros z w Hlt Heq. pose proof (skip_length z) as H.
    rewrite Heq in H. lia. }
  rewrite (skip_spaces_eq (x ++ q)), (skip_spaces_eq x).
  destruct x as [|a r]; [reflexivity|]. cbn [append]. cbv beta iota.
  destruct (one a).
  { intros H. apply Hlong in H; [contradiction|cbn; lia]. }
  destruct r as [|b r2]; [reflexivity|]. cbn [append]. cbv beta iota.
  destruct (two a b).
  { intros H. apply Hlong in H; [contradiction|cbn; lia]. }
  destruct r2 as [|c r3]; [reflexivity|]. cbn [append]. cbv beta iota.
  destruct (three a b c); [|reflexivity].
  intros H. apply Hlong in H; [contradiction|cbn; lia].
Qed.

End SkipFacts.

(** What [lstrip] returns is the end of the text, and what [rstrip] returns
    is its beginning. *)
Lemma lstrip_suffix (s : string) : exists p, s = (p ++ lstrip s)%string.
Proof. apply skip_suffix. Qed.

Lemma rstrip_prefix (s : string) : exists q, s = (rstrip s ++ q)%string.
Proof.
  unfold rstrip.
  destruct (skip_suffix is_space (fun b a => is_space2 a b)
              (fun c b a => is_space3 a b c) (reverse s)) as [p Hp].
  exists (reverse p). rewrite <- reverse_append, <- Hp.
  now rewrite reverse_reverse.
Qed.

Lemma lstrip_lstrip (s : string) : lstrip (lstrip s) = lstrip s.
Proof. apply skip_skip. Qed.

Lemma rstrip_rstrip (s : string) : rstrip (rstrip s) = rstrip s.
Proof. unfold rstrip. now rewrite reverse_reverse, skip_skip. Qed.

Lemma lstrip_rstrip (s : string) :
  lstrip s = s -> lstrip (rstrip s) = rstrip s.
Proof.
  intros H. destruct (rstrip_prefix s) as [q Hq].
  apply (skip_cut _ _ _ (rstrip s) q). now rewrite <- Hq.
Qed.

(** Stripping a stripped text changes nothing. *)
Lemma strip_strip (s : string) : strip (strip s) = strip s.
Proof.
  unfold strip. rewrite (lstrip_rstrip (lstrip s) (lstrip_lstrip s)).
  apply rstrip_rstrip.
Qed.

(** [strip] on texts with white space of more than one byte. *)
Example strip_no_break_space :
  strip (String (ascii_of_nat 194) (String (ascii_of_nat 160) "QUIT "))
  = "QUIT".
Proof. vm_compute. reflexivity. Qed.

Example strip_em_space :
  strip (" a b"
         ++ String (ascii_of_nat 226) (String (ascii_of_nat 128)
                   (String (ascii_of_nat 131) EmptyString)))
  = "a b".
Proof. vm_compute. reflexivity. Qed.

(** * Further facts about the scheduler *)

Ltac run_world w :=
  unfold announce, notify, tts_say, delete_reminder, update_due_at, emit,
    statement, set_reminders, raise, bind;
  cbn [faults reminders logs out ext];
  destruct (faults w) as [|[?|] ?]; cbn [fst snd faults reminders logs out ext].

Section SchedulerOutput.
Context {E : Type}.

(** What processing one reminder sends out, and what it leaves alone. *)
Lemma process_reminder_out (now : fields) (r : reminder) (w : world E) :
  logs (snd (process_reminder now r w)) = logs w
  /\ ext (snd (process_reminder now r w)) = ext w
  /\ out (snd (process_reminder now r w))
     = out w ++ (if is_due now r then announcement r else []).
Proof.
  unfold is_due, announcement.
  destruct (parse_due r) as [[dt|dt off]|] eqn:Hp.
  - destruct (ge now dt) eqn:Hge.
    + destruct (known_rule (repeat_rule r)) eqn:Hk.
      * destruct (add dt (period_of (repeat_rule r))) as [n|] eqn:Ha.
        -- rewrite (process_fire_update now dt n) by assumption.
           run_world w; now rewrite <- !app_assoc.
        -- rewrite (process_fire_overflow now dt) by assumption.
           run_world w; now rewrite <- !app_assoc.
      * rewrite (process_fire_delete now dt) by assumption.
        run_world w; now rewrite <- !app_assoc.
    + rewrite (process_not_due now dt) by assumption.
      cbn. now rewrite app_nil_r.
  - destruct (process_aware now dt off r w Hp) as [e ->].
    cbn. now rewrite app_nil_r.
  - rewrite process_unparsable by assumption. cbn. now rewrite app_nil_r.
Qed.

Lemma for_each_out (now : fields) (rows : list reminder) :
  forall w : world E,
    logs (snd (for_each (process_reminder now) rows w)) = logs w
    /\ ext (snd (for_each (process_reminder now) rows w)) = ext w
    /\ exists k,
        out (snd (for_each (process_reminder now) rows w))
        = out w ++ announcements now (firstn k rows)
        /\ (fst (for_each (process_reminder now) rows w) = inr tt ->
            firstn k rows = rows).
Proof.
  induction rows as [|r rows IH]; intros w.
  - cbn. repeat split. exists 0%nat. cbn. now rewrite app_nil_r.
  - rewrite for_each_cons.
    destruct (process_reminder_out now r w) as (Hl & Hx & Ho).
    destruct (process_reminder now r w) as [[e|[]] w1]; cbn [fst snd] in *.
    + repeat split; try assumption. exists 1%nat. split; [|discriminate].
      unfold announcements. cbn [firstn flat_map]. now rewrite app_nil_r.
    + destruct (IH w1) as (Hl1 & Hx1 & k & Ho1 & Hk).
      split; [congruence|]. split; [congruence|].
      exists (S k). split.
      * rewrite Ho1, Ho. unfold announcements. cbn [firstn flat_map].
        now rewrite app_assoc.
      * intros H. cbn [firstn]. now rewrite (Hk H).
Qed.

Lemma tick_complete_out (now : fields) (w w' : world E) :
  tick now w = (w', None) ->
  out w' = out w ++ announcements now (reminders w).
Proof.
  rewrite tick_unfold.
  destruct (statement_frame w) as (_ & _ & Ho & _).
  destruct (statement w) as [[e|[]] w0]; cbn [fst snd] in *; [discriminate|].
  destruct (for_each_out now (reminders w) w0) as (_ & _ & k & Ho1 & Hk).
  destruct (for_each (process_reminder now) (reminders w) w0)
    as [[e|[]] w1]; cbn [fst snd] in *; [discriminate|].
  intros [= <-]. rewrite Ho1, (Hk eq_refl). congruence.
Qed.

Lemma announcements_app (now : fields) (a b : list reminder) :
  announcements now (a ++ b) = announcements now a ++ announcements now b.
Proof. unfold announcements. apply flat_map_app. Qed.

Lemma map_set_due_others (due : string) (i : Z) (t : list reminder) :
  ~ In i (map rid t) -> map (set_due due i) t = t.
Proof.
  induction t as [|x t IH]; [reflexivity|]. cbn [map]. intros H.
  rewrite set_due_other by (intros Heq; apply H; now left).
  f_equal. apply IH. intros Hin. apply H. now right.
Qed.

Lemma parse_due_valid (r : reminder) (dt : fields) :
  parse_due r = Some (Naive dt) -> valid dt = true.
Proof.
  unfold parse_due. destruct (due_at r) as [s|]; [|discriminate].
  apply fromisoformat_valid.
Qed.

(** *** One reminder through a tick that may end early *)

Lemma period_table_known (s : string) (td : timedelta) :
  period_table s = Some td ->
  known_rule (Some s) = true /\ period_of (Some s) = td.
Proof.
  unfold period_table, known_rule, period_of.
  destruct (String.eqb s "hourly") eqn:Hh.
  - apply String.eqb_eq in Hh. subst s. now intros [= <-].
  - destruct (String.eqb s "daily") eqn:Hd; [now intros [= <-]|].
    destruct (String.eqb s "weekly"); [now intros [= <-]|discriminate].
Qed.

(** Whatever the tick does, the row with the id of a recurring reminder is
    the row as it was or the row with the next due time. *)
Lemma tick_row_of (now dt n : fields) (w : world E) (r : reminder) :
  NoDup (ids w) -> In r (reminders w) ->
  parse_due r = Some (Naive dt) ->
  add dt (period_of (repeat_rule r)) = Some n ->
  forall x, In x (reminders (fst (tick now w))) -> rid x = rid r ->
            x = r
            \/ x = mk_reminder (rid r) (text r) (Some (isoformat_minutes n))
                               (repeat_rule r).
Proof.
  intros Hnd Hin Hp Ha.
  set (r' := mk_reminder (rid r) (text r) (Some (isoformat_minutes n))
                         (repeat_rule r)).
  apply (tick_invariant
           (fun t => forall x, In x t -> rid x = rid r -> x = r \/ x = r')).
  - intros y v Hy H x Hx Hid.
    destruct (process_reminder_step now y v) as [Hs|_ Hs|dt' n' _ Hp' Ha' Hs];
      rewrite Hs in Hx.
    + now apply H.
    + apply filter_In in Hx. now apply H.
    + apply in_map_iff in Hx. destruct Hx as (x0 & <- & Hx0).
      rewrite rid_set_due in Hid. specialize (H x0 Hx0 Hid).
      unfold set_due. destruct (rid x0 =? rid y) eqn:Hy0; [|assumption].
      apply Z.eqb_eq in Hy0.
      assert (y = r) as ->
          by (apply (same_id_same_row (reminders w)); auto; congruence).
      rewrite Hp in Hp'. injection Hp' as <-.
      rewrite Ha in Ha'. injection Ha' as <-.
      right. destruct H as [->| ->]; reflexivity.
  - intros x Hx Hid. left.
    now apply (same_id_same_row (reminders w)).
Qed.

(** A due recurring reminder whose UPDATE is reached and succeeds has its
    next due time in the table after the tick, however the tick ends. *)
Lemma tick_reaches_update (now dt n : fields) (w w0 w1 : world E)
      (pre post : list reminder) (r : reminder) :
  NoDup (ids w) -> reminders w = pre ++ r :: post ->
  known_rule (repeat_rule r) = true ->
  parse_due r = Some (Naive dt) -> ge now dt = true ->
  add dt (period_of (repeat_rule r)) = Some n ->
  statement w = (inr tt, w0) ->
  for_each (process_reminder now) pre w0 = (inr tt, w1) ->
  (forall e fs, faults w1 <> Some e :: fs) ->
  In (mk_reminder (rid r) (text r) (Some (isoformat_minutes n))
                  (repeat_rule r)) (reminders (fst (tick now w))).
Proof.
  intros Hnd Heq Hk Hp Hge Ha Hs H1 Hf.
  destruct (split_distinct _ pre post r Hnd Heq) as [Hpre Hpost].
  pose proof (statement_frame w) as (Hr0 & _). rewrite Hs in Hr0.
  cbn [snd] in Hr0.
  assert (Hin1 : In r (reminders w1)).
  { pose proof (for_each_others now pre w0 r Hpre) as H.
    rewrite H1 in H. apply H. rewrite Hr0, Heq.
    apply in_or_app. right. now left. }
  set (r' := mk_reminder (rid r) (text r) (Some (isoformat_minutes n))
                         (repeat_rule r)).
  assert (Hup : exists w2, process_reminder now r w1 = (inr tt, w2)
                           /\ In r' (reminders w2)).
  { rewrite (process_fire_update now dt n) by assumption.
    destruct ((announce r ;; update_due_at (isoformat_minutes n) (rid r)) w1)
      as [[e|[]] w2] eqn:H2.
    - exfalso. revert H2. run_world w1; try discriminate.
      now elim (Hf e0 l).
    - exists w2. split; [reflexivity|].
      rewrite (run_update r _ _ w1 w2 H2).
      replace r' with (set_due (isoformat_minutes n) (rid r) r)
        by (unfold set_due; now rewrite Z.eqb_refl).
      now apply in_map. }
  destruct Hup as (w2 & H2 & Hin2).
  pose proof (for_each_others now post w2 r') as Hkeep.
  rewrite tick_unfold, Hs, Heq, for_each_app, H1, for_each_cons, H2.
  destruct (for_each (process_reminder now) post w2) as [[e|[]] w3];
    cbn [fst snd] in *; now apply Hkeep.
Qed.


Lemma next_id_fresh (t : list reminder) : ~ In (next_id t) (map rid t).
Proof.
  assert (H : forall i, In i (map rid t) -> i <= fold_right Z.max 0 (map rid t)).
  { induction (map rid t) as [|j l IH]; [contradiction|].
    intros i [->|Hi]; cbn [fold_right]; [lia|]. specialize (IH i Hi). lia. }
  intros Hin. apply H in Hin. unfold next_id in Hin. lia.
Qed.

Lemma add_reminder_run (t d rule : option string) (w : world E) :
  add_reminder t d rule w
  = match faults w with
    | Some e :: fs =>
        (inl e, {| reminders := reminders w; logs := logs w; faults := fs;
                   out := out w; ext := ext w |})
    | fs =>
        (inr tt,
         {| reminders := reminders w
                         ++ [mk_reminder (next_id (reminders w)) t d rule];
            logs := logs w; faults := tl fs; out := out w; ext := ext w |})
    end.
Proof.
  destruct w as [rs l fs o x]. unfold add_reminder, statement, set_reminders, bind.
  cbn [reminders logs faults out ext]. now destruct fs as [|[e|] fs].
Qed.

Lemma add_reminder_NoDup (t d rule : option string) (w : world E) :
  NoDup (ids w) -> NoDup (ids (snd (add_reminder t d rule w))).
Proof.
  intros Hnd. rewrite add_reminder_run. unfold ids in *.
  assert (Hnew : NoDup (map rid (reminders w
                   ++ [mk_reminder (next_id (reminders w)) t d rule]))).
  { rewrite map_app. cbn [map rid].
    apply NoDup_rev in Hnd. rewrite <- (rev_involutive (map rid (reminders w) ++ _)).
    apply NoDup_rev. rewrite rev_app_distr. cbn [rev app].
    constructor; [|assumption].
    rewrite <- in_rev. apply next_id_fresh. }
  destruct (faults w) as [|[e|] fs]; cbn [snd reminders]; assumption.
Qed.

(** *** Setting reminders between the ticks *)

Lemma action_set_reminder_world (t d rule : option string) (w : world E) :
  snd (action_set_reminder t d rule w) = snd (add_reminder t d rule w).
Proof.
  unfold action_set_reminder, bind, ret.
  now destruct (add_reminder t d rule w) as [[e|[]] w1].
Qed.

Lemma run_operation_NoDup (o : operation) (w : world E) :
  NoDup (ids w) -> NoDup (ids (run_operation o w)).
Proof.
  intros Hnd. destruct o as [t d rule|now]; cbn [run_operation].
  - rewrite action_set_reminder_world. now apply add_reminder_NoDup.
  - now apply tick_NoDup.
Qed.

(** A recurring reminder stays in the table, as it was or with a later due
    time, whatever reminders are set between the ticks. *)
Lemma operations_keep_known (os : list operation) :
  forall (w : world E) (r : reminder),
    NoDup (ids w) -> In r (reminders w) ->
    known_rule (repeat_rule r) = true ->
    exists r', In r' (reminders (run_operations os w)) /\ rescheduled r r'.
Proof.
  unfold run_operations.
  induction os as [|o os IH]; intros w r Hnd Hin Hk.
  - exists r. split; [assumption|now left].
  - cbn [fold_left].
    assert (Hstep : exists r1, In r1 (reminders (run_operation o w))
                               /\ rescheduled r r1).
    { destruct o as [t d rule|now]; cbn [run_operation].
      - exists r. split; [|now left].
        rewrite action_set_reminder_world, add_reminder_run.
        destruct (faults w) as [|[e|] fs]; cbn [snd reminders];
          try assumption; apply in_or_app; now left.
      - now apply tick_keeps_known. }
    destruct Hstep as (r1 & Hin1 & Hr1).
    pose proof (rescheduled_same _ _ Hr1) as (_ & _ & Hrule).
    destruct (IH (run_operation o w) r1) as (r2 & Hin2 & Hr2).
    + now apply run_operation_NoDup.
    + assumption.
    + now rewrite Hrule.
    + exists r2. split; [assumption|]. now apply (rescheduled_trans r r1).
Qed.


(** The loop of the scheduler is a run of ticks. *)
Lemma loop_as_operations (clock : list fields) (w : world E) :
  scheduler_loop clock w = run_operations (map Tick clock) w.
Proof.
  unfold run_operations. revert w.
  induction clock as [|now clock IH]; intros w; [reflexivity|].
  cbn [scheduler_loop map fold_left run_operation]. apply IH.
Qed.

End SchedulerOutput.

(** * The claims about the scheduler *)

Example tick_example :
  tick (mk_fields 2024 1 31 10 0 45 0)
       (world0 [mk_reminder 1 (Some "tea") (Some "2024-01-31T10:00:30") (Some "daily");
                mk_reminder 2 (Some "bus") (Some "2024-01-31T09:00") None;
                mk_reminder 3 (Some "later") (Some "2024-02-01T09:00") None] [])
  = (mk_world
       [mk_reminder 1 (Some "tea") (Some "2024-02-01T10:00") (Some "daily");
        mk_reminder 3 (Some "later") (Some "2024-02-01T09:00") None]
       [] []
       [Notification "Reminder" "tea"; Stdout " [NOTIFY] Reminder: tea";
        Tts (JStr "Reminder: tea");
        Notification "Reminder" "bus"; Stdout " [NOTIFY] Reminder: bus";
        Tts (JStr "Reminder: bus")] tt, None).
Proof. vm_compute. reflexivity. Qed.

Section SchedulerClaims.
Context {E : Type}.





(** C10. A recurring reminder (its rule is in the table {hourly, daily,
    weekly}) that is due at T, with nonzero seconds, and for which T plus
    the period is n. The row with the next due time is the row whose due
    text is n written with minute precision. That text reads back as the
    time m without seconds and microseconds that is T plus the period less
    the seconds and microseconds of T, before T plus the period. Whatever a
    tick does, also one that an exception ends at a later row, the row with
    the id of the reminder is afterwards the row as it was or the row with
    the next due time, and it is the latter as soon as the UPDATE of the
    reminder is reached and succeeds. Once the row with the next due time is
    in the table, the due time of the reminder has neither seconds nor
    microseconds, whatever ticks and set_reminder actions follow. *)
Theorem reschedule_drops_seconds
        (now dt n : fields) (w : world E) (pre post : list reminder)
        (r : reminder) (s : string) (td : timedelta) :
  NoDup (ids w) -> reminders w = pre ++ r :: post ->
  repeat_rule r = Some s -> period_table s = Some td ->
  parse_due r = Some (Naive dt) -> ge now dt = true -> second dt <> 0 ->
  add dt td = Some n ->
  let r' := mk_reminder (rid r) (text r) (Some (isoformat_minutes n))
                        (repeat_rule r) in
  (exists m,
      parse_due r' = Some (Naive m)
      /\ second m = 0 /\ microsecond m = 0
      /\ stamp m
         = stamp dt + span td - (second dt * 1000000 + microsecond dt)
      /\ stamp n = stamp dt + span td
      /\ stamp m < stamp n)
  /\ (forall x, In x (reminders (fst (tick now w))) -> rid x = rid r ->
                x = r \/ x = r')
  /\ (forall w0 w1 : world E,
        statement w = (inr tt, w0) ->
        for_each (process_reminder now) pre w0 = (inr tt, w1) ->
        (forall e fs, faults w1 <> Some e :: fs) ->
        In r' (reminders (fst (tick now w))))
  /\ (forall v : world E,
        NoDup (ids v) -> In r' (reminders v) ->
        forall os, exists r'' m,
            In r'' (reminders (run_operations os v))
            /\ same_reminder r r''
            /\ parse_due r'' = Some (Naive m)
            /\ second m = 0 /\ microsecond m = 0).
Proof.
  intros Hnd Heq Hr Htd Hp Hge Hs Ha r'.
  destruct (period_table_known s td Htd) as [Hk Hper].
  assert (Hin : In r (reminders w))
    by (rewrite Heq; apply in_or_app; right; now left).
  assert (Ha' : add dt (period_of (repeat_rule r)) = Some n)
    by now rewrite Hr, Hper.
  assert (Hk' : known_rule (repeat_rule r) = true) by now rewrite Hr.
  pose proof (parse_due_valid r dt Hp) as Hdt.
  pose proof (add_valid _ _ _ Ha) as Hn.
  assert (Hread : parse_due r' = Some (Naive (trunc_minutes n)))
    by now apply fromisoformat_isoformat_minutes.
  split; [|split; [|split]].
  - exists (trunc_minutes n).
    destruct (period_whole_minutes (repeat_rule r)) as [Hsec Hus].
    destruct (add_whole_minutes dt n _ _ Hdt Hsec Hus Ha') as [Hsn Hun].
    pose proof (stamp_add dt n td Ha) as Hst.
    apply valid_fields in Hdt.
    split; [exact Hread|]. split; [reflexivity|]. split; [reflexivity|].
    assert (Htr : stamp (trunc_minutes n)
                  = stamp n - (second n * 1000000 + microsecond n))
      by (unfold stamp, trunc_minutes;
          cbn [year month day hour minute second microsecond]; lia).
    rewrite Htr, Hsn, Hun. repeat split; lia.
  - now apply (tick_row_of now dt n w r).
  - intros w0 w1 H0 H1 Hf.
    now apply (tick_reaches_update now dt n w w0 w1 pre post r).
  - intros v Hv Hin' os.
    destruct (operations_keep_known os v r' Hv Hin' Hk') as (r2 & Hin2 & Hr2).
    destruct Hr2 as [->|(m & Hm & ->)].
    + exists r', (trunc_minutes n).
      split; [exact Hin2|]. split; [now unfold same_reminder|].
      split; [exact Hread|now split].
    + eexists. exists (trunc_minutes m).
      split; [exact Hin2|]. split; [now unfold same_reminder|].
      split; [now apply fromisoformat_isoformat_minutes|now split].
Qed.



(** C6, as the specification states it, fails: when the DELETE of a due
    reminder raises, the tick ends there, and the due reminder after it is
    neither announced nor removed in this tick, as it is when the DELETE
    succeeds. *)
Lemma storage_error_skips_later_reminders :
  let gym := mk_reminder 4 (Some "gym") (Some "2024-01-31T09:30") None in
  let locked := Exn "database is locked" in
  let w := world0 [bus; gym] [None; Some locked] in
  parse_due gym = Some (Naive (mk_fields 2024 1 31 9 30 0 0))
  /\ ge morning (mk_fields 2024 1 31 9 30 0 0) = true
  /\ tick morning w
     = (mk_world [bus; gym] [] []
          [Notification "Reminder" "bus"; Stdout " [NOTIFY] Reminder: bus";
           Tts (JStr "Reminder: bus")] tt, Some locked)
  /\ tick morning (world0 [bus; gym] [])
     = (mk_world [] [] []
          [Notification "Reminder" "bus"; Stdout " [NOTIFY] Reminder: bus";
           Tts (JStr "Reminder: bus");
           Notification "Reminder" "gym"; Stdout " [NOTIFY] Reminder: gym";
           Tts (JStr "Reminder: gym")] tt, None).
Proof. cbv zeta. repeat split; vm_compute; reflexivity. Qed.

(** C6, amended. A due time that does not parse is isolated to its
    reminder: the reminder stays in the table and the tick is the tick of
    the table without it. Any other exception raised while a reminder is
    processed (a storage error on its UPDATE or DELETE among them) does not
    stop the loop and leaves that reminder and the ones after it in the
    table as they were, but it ends the tick: the reminders after it are not
    processed in this tick. *)
Theorem parse_error_isolated_other_errors_end_tick
        (now : fields) (w : world E) (pre post : list reminder) (r : reminder) :
  NoDup (ids w) -> reminders w = pre ++ r :: post ->
  (parse_due r = None ->
   In r (reminders (fst (tick now w)))
   /\ tick now (retable (filter (keep_other (rid r))) w)
      = (retable (filter (keep_other (rid r))) (fst (tick now w)),
         snd (tick now w)))
  /\ (forall w0 w1 w2 e,
        statement w = (inr tt, w0) ->
        for_each (process_reminder now) pre w0 = (inr tt, w1) ->
        process_reminder now r w1 = (inl e, w2) ->
        tick now w = (w2, Some e)
        /\ reminders w2 = reminders w1
        /\ In r (reminders w2)
        /\ forall x, In x post -> In x (reminders w2))
  /\ (forall (w1 : world E) e fs dt,
        parse_due r = Some (Naive dt) -> ge now dt = true ->
        (known_rule (repeat_rule r) = true ->
         add dt (period_of (repeat_rule r)) <> None) ->
        faults w1 = Some e :: fs ->
        exists w2, process_reminder now r w1 = (inl e, w2)).
Proof.
  intros Hnd Heq.
  destruct (split_distinct _ pre post r Hnd Heq) as [Hpre Hpost].
  assert (Hin : In r (reminders w))
    by (rewrite Heq; apply in_or_app; right; now left).
  split; [|split].
  - intros Hp. split.
    + apply tick_keeps_waiting; try assumption; intros; congruence.
    + rewrite !tick_unfold, statement_retable.
      destruct (statement w) as [[e|[]] w0]; [reflexivity|].
      cbn [fst snd retable reminders]. rewrite Heq.
      rewrite (filter_without pre post r Hpre Hpost).
      rewrite (for_each_skip _ pre post r w0)
        by (intros v; now apply process_unparsable).
      rewrite for_each_retable by (intros x _; apply without_commutes).
      now destruct (for_each (process_reminder now) (pre ++ post) w0)
        as [[e|[]] w1].
  - intros w0 w1 w2 e Hs H1 H2.
    pose proof (statement_frame w) as (Hr0 & _). rewrite Hs in Hr0.
    cbn [snd] in Hr0.
    pose proof (process_reminder_raise now r w1 w2 e H2) as Hsame.
    split; [|split; [assumption|]].
    + rewrite tick_unfold, Hs, Heq, for_each_app, H1, for_each_cons, H2.
      reflexivity.
    + rewrite Hsame.
      assert (Hkeep : forall x, In x (reminders w0) ->
                                ~ In (rid x) (map rid pre) ->
                                In x (reminders w1)).
      { intros x Hx Hn. pose proof (for_each_others now pre w0 x Hn Hx) as H.
        now rewrite H1 in H. }
      split.
      * apply Hkeep; [|assumption]. now rewrite Hr0.
      * intros x Hx. apply Hkeep.
        -- rewrite Hr0, Heq. apply in_or_app. right. now right.
        -- intros Hn. unfold ids in Hnd. rewrite Heq, map_app in Hnd.
           apply (NoDup_app_disjoint _ _ (rid x) Hnd Hn).
           cbn [map]. right. now apply in_map.
  - intros w1 e fs dt Hp Hge Hadd Hf.
    destruct (known_rule (repeat_rule r)) eqn:Hk.
    + destruct (add dt (period_of (repeat_rule r))) as [n|] eqn:Ha;
        [|now destruct Hadd].
      rewrite (process_fire_update now dt n) by assumption.
      destruct w1 as [t l fs' o x]. cbn in Hf. subst fs'.
      eexists. reflexivity.
    + rewrite (process_fire_delete now dt) by assumption.
      destruct w1 as [t l fs' o x]. cbn in Hf. subst fs'.
      eexists. reflexivity.
Qed.

End SchedulerClaims.

(** *** The claims on a table of three reminders *)

Ltac distinct := vm_compute; repeat constructor; cbn; intuition discriminate.
Ltac listed := vm_compute; tauto.



Lemma reschedule_drops_seconds_witness :
  let w := world0 [tea; flight] [] in
  let T := mk_fields 2024 1 31 10 0 30 0 in
  let n := mk_fields 2024 2 1 10 0 30 0 in
  let r' := mk_reminder (rid tea) (text tea) (Some (isoformat_minutes n))
                        (repeat_rule tea) in
  (NoDup (ids w) /\ reminders w = [] ++ tea :: [flight]
   /\ repeat_rule tea = Some "daily"
   /\ period_table "daily" = Some (mk_timedelta 1 0 0)
   /\ parse_due tea = Some (Naive T) /\ ge morning T = true
   /\ second T <> 0
   /\ add T (mk_timedelta 1 0 0) = Some n
   /\ isoformat_minutes n = "2024-02-01T10:00"
   /\ statement w = (inr tt, w)
   /\ for_each (process_reminder morning) [] w = (inr tt, w)
   /\ (forall e fs, faults w <> Some e :: fs)
   /\ snd (tick morning w) <> None)
  /\ (exists m,
         parse_due r' = Some (Naive m)
         /\ second m = 0 /\ microsecond m = 0
         /\ stamp m
            = stamp T + span (mk_timedelta 1 0 0)
              - (second T * 1000000 + microsecond T)
         /\ stamp n = stamp T + span (mk_timedelta 1 0 0)
         /\ stamp m < stamp n)
  /\ (forall x, In x (reminders (fst (tick morning w))) -> rid x = rid tea ->
                x = tea \/ x = r')
  /\ In r' (reminders (fst (tick morning w)))
  /\ forall os, exists r'' m,
        In r'' (reminders (run_operations os (fst (tick morning w))))
        /\ same_reminder tea r''
        /\ parse_due r'' = Some (Naive m)
        /\ second m = 0 /\ microsecond m = 0.
Proof.
  intros w T n r'.
  assert (Hnd : NoDup (ids w)) by distinct.
  assert (Hp : parse_due tea = Some (Naive T)) by (vm_compute; reflexivity).
  assert (Hge : ge morning T = true) by (vm_compute; reflexivity).
  assert (Hs : second T <> 0) by (cbn; discriminate).
  assert (Ha : add T (mk_timedelta 1 0 0) = Some n)
    by (vm_compute; reflexivity).
  assert (Hf : forall e fs, faults w <> Some e :: fs)
    by (intros e fs; discriminate).
  assert (Hend : snd (tick morning w) <> None) by (vm_compute; discriminate).
  destruct (reschedule_drops_seconds
              morning T n w [] [flight] tea "daily" (mk_timedelta 1 0 0)
              Hnd eq_refl eq_refl eq_refl Hp Hge Hs Ha)
    as (Hm & Hrow & Hreach & Hloop).
  pose proof (Hreach w w eq_refl eq_refl Hf) as Hin.
  split.
  { split; [exact Hnd|]. split; [reflexivity|]. split; [reflexivity|].
    split; [reflexivity|]. split; [exact Hp|]. split; [exact Hge|].
    split; [exact Hs|]. split; [exact Ha|].
    split; [vm_compute; reflexivity|]. split; [reflexivity|].
    split; [reflexivity|]. split; [exact Hf|exact Hend]. }
  split; [exact Hm|]. split; [exact Hrow|]. split; [exact Hin|].
  apply Hloop; [|exact Hin].
  apply tick_NoDup. exact Hnd.
Defined.


Lemma parse_error_isolated_witness :
  let vague := mk_reminder 6 (Some "call") (Some "tomorrow at noon") None in
  let w := world0 [bus; vague; rent] [] in
  NoDup (ids w) /\ reminders w = [bus] ++ vague :: [rent]
  /\ (parse_due vague = None ->
      In vague (reminders (fst (tick morning w)))
      /\ tick morning (retable (filter (keep_other (rid vague))) w)
         = (retable (filter (keep_other (rid vague))) (fst (tick morning w)),
            snd (tick morning w))).
Proof.
  intros vague w.
  assert (Hnd : NoDup (ids w)) by distinct.
  assert (Heq : reminders w = [bus] ++ vague :: [rent]) by reflexivity.
  split; [exact Hnd|]. split; [exact Heq|].
  exact (proj1 (parse_error_isolated_other_errors_end_tick
                  morning w [bus] [rent] vague Hnd Heq)).
Defined.

(** * The claims about the dispatcher *)

Section DispatcherClaims.
Context {E : Type}.
Variable openai_client : option (string -> E -> (exn + json) * E).
Variable handler :
  string -> call_args -> list reminder * E -> (exn + string) * (list reminder * E).
Variable repr : json -> string.

Local Abbreviation plan_with_openai := (plan_with_openai openai_client).
Local Abbreviation deliver := (deliver (E := E) repr).
Local Abbreviation execute := (execute handler repr).
Local Abbreviation handle_user_text :=
  (handle_user_text openai_client handler repr).

(** C1, as the specification states it, fails: when the handler of a known
    action raises, the error is printed, but the log holds the entry of the
    utterance only; no entry records the failed action. *)
Lemma failed_action_not_logged :
  let boom := "action_open_app() missing 1 required positional argument: 'name'" in
  Dispatcher.handle_user_text (scripted open_calc) (raising boom) no_repr
    "open the calculator" (world0 [] [])
  = (inr tt,
     mk_world [] [utterance "open the calculator"] []
       [Plan_request "open the calculator"; Call "open_app" (JDict []);
        Stdout ("[action:open_app] error: " ++ boom)] tt).
Proof. vm_compute. reflexivity. Qed.

(** C1, amended. When the plan names a registered action and its handler
    raises, [handle_user_text] returns normally: the exception is caught,
    its text is printed after [[action:name] error: ], which ends the
    output, and the log is the log before with the entry of the utterance
    appended and no entry for the failed action. *)
Theorem handler_failure_reported_not_logged
        (user_text name : string) (w w1 w2 : world E) (p : plan)
        (d : list (string * json)) (e : exn) (rs : list reminder) (x : E) :
  db_log "utterance" (JDict [("text", JStr user_text)]) w = (inr tt, w1) ->
  plan_with_openai user_text w1 = (inr p, w2) ->
  action p = JDict d -> d <> [] ->
  dict_get d "name" JNull = JStr name -> in_registry name = true ->
  handler name (as_call_args (dict_get d "args" (JDict [])))
          (reminders w2, ext w2) = (inl e, (rs, x)) ->
  exists o,
    handle_user_text user_text w
    = (inr tt,
       {| reminders := rs;
          logs := logs w ++ [utterance user_text];
          faults := faults w2;
          out := out w2 ++ o
                 ++ [Call name (dict_get d "args" (JDict []));
                     Stdout ("[action:" ++ name ++ "] error: " ++ str_exn e)];
          ext := x |})
    /\ forall n a, ~ In (Call n a) o.
Proof.
  intros H1 H2 Ha Hd Hn Hr Hh.
  pose proof (db_log_done _ _ _ _ H1) as Hw1.
  destruct (plan_run openai_client user_text w1) as (p' & x' & Hp).
  rewrite H2 in Hp. injection Hp as -> Hw2.
  destruct (deliver_run repr (py_or (reply p') (JStr "")) w2) as (o & Ho & Hno).
  exists o. split; [|exact Hno].
  unfold Dispatcher.handle_user_text, bind. rewrite H1, H2, Ho.
  unfold Dispatcher.execute. rewrite Ha.
  destruct d as [|kv d]; [contradiction|]. rewrite Hn.
  cbn [lookup py_str]. rewrite Hr.
  unfold try_except, call, bind, emit. cbn [reminders logs faults out ext].
  rewrite Hh. cbn [reminders logs faults out ext].
  rewrite Hw2. cbn [logs]. rewrite Hw1. cbn [logs].
  now rewrite <- !app_assoc.
Qed.

(** C7, as the specification states it, fails: when the append of the
    utterance raises, [handle_user_text] raises too, before the planner is
    called. *)
Lemma log_failure_aborts_handling :
  Dispatcher.handle_user_text (scripted open_calc) (returning "Opened calc")
    no_repr "open the calculator"
    (world0 [] [Some (Exn "database is locked")])
  = (inl (Exn "database is locked"), world0 [] []).
Proof. vm_compute. reflexivity. Qed.

(** C7, amended. The append of the entry of the utterance is the first
    thing [handle_user_text] does. When it succeeds, the entry follows the
    log as it was, the planner is called next, and whatever else is logged
    comes after the entry. When it raises, [handle_user_text] raises the
    same exception at once: nothing is logged, the planner is not called and
    no action is executed. *)
Theorem utterance_logged_first_or_handling_aborted
        (user_text : string) (w : world E) :
  match faults w with
  | Some e :: fs =>
      handle_user_text user_text w
      = (inl e, {| reminders := reminders w; logs := logs w; faults := fs;
                   out := out w; ext := ext w |})
  | _ =>
      exists l o,
        logs (snd (handle_user_text user_text w))
        = logs w ++ utterance user_text :: l
        /\ out (snd (handle_user_text user_text w))
           = out w ++ Plan_request user_text :: o
  end.
Proof.
  assert (Hok : forall w1 : world E,
             db_log "utterance" (JDict [("text", JStr user_text)]) w
             = (inr tt, w1) ->
             logs w1 = logs w ++ [utterance user_text] -> out w1 = out w ->
             exists l o,
               logs (snd (handle_user_text user_text w))
               = logs w ++ utterance user_text :: l
               /\ out (snd (handle_user_text user_text w))
                  = out w ++ Plan_request user_text :: o).
  { intros w1 H1 Hl Ho.
    destruct (plan_run openai_client user_text w1) as (p & x & Hp).
    destruct (deliver_run repr (py_or (reply p) (JStr ""))
                {| reminders := reminders w1; logs := logs w1;
                   faults := faults w1;
                   out := out w1 ++ [Plan_request user_text]; ext := x |})
      as (o & Hd & _).
    cbn [reminders logs faults out ext] in Hd.
    unfold Dispatcher.handle_user_text, bind. rewrite H1, Hp, Hd.
    match goal with
    | |- context [Dispatcher.execute _ _ ?a ?v] =>
        destruct (execute_grows handler repr a v) as (l' & o' & Hl' & Ho')
    end.
    cbn [logs out] in Hl', Ho'.
    exists l', (o ++ o'). rewrite Hl', Ho', Hl, Ho. split.
    - now rewrite <- app_assoc.
    - now rewrite <- !app_assoc.
  }
  pose proof (db_log_run "utterance" (JDict [("text", JStr user_text)]) w)
    as Hrun.
  destruct (faults w) as [|[e|] fs] eqn:Hf.
  - now apply (Hok _ Hrun).
  - unfold Dispatcher.handle_user_text, bind. now rewrite Hrun.
  - now apply (Hok _ Hrun).
Qed.

(** C8, amended. When the name in the plan is hashable and is not a key of
    [ACTIONS], [handle_user_text] returns normally: it prints
    [unknown action: ] and the name, a line no handler failure can print,
    it calls no handler (no call is made, and the reminders and the providers
    are as the planner left them), and the log holds nothing after the entry
    of the utterance. *)
Theorem unknown_action_reported
        (user_text : string) (w w1 w2 : world E) (p : plan)
        (d : list (string * json)) :
  db_log "utterance" (JDict [("text", JStr user_text)]) w = (inr tt, w1) ->
  plan_with_openai user_text w1 = (inr p, w2) ->
  action p = JDict d -> d <> [] ->
  lookup (dict_get d "name" JNull) = inr None ->
  exists o,
    handle_user_text user_text w
    = (inr tt,
       {| reminders := reminders w2;
          logs := logs w ++ [utterance user_text];
          faults := faults w2;
          out := out w2 ++ o
                 ++ [Stdout ("unknown action: "
                             ++ py_str repr (dict_get d "name" JNull))];
          ext := ext w2 |})
    /\ (forall n a, ~ In (Call n a) o)
    /\ forall n msg,
        ("unknown action: " ++ py_str repr (dict_get d "name" JNull)
         <> "[action:" ++ n ++ "] error: " ++ msg)%string.
Proof.
  intros H1 H2 Ha Hd Hl.
  pose proof (db_log_done _ _ _ _ H1) as Hw1.
  destruct (plan_run openai_client user_text w1) as (p' & x' & Hp).
  rewrite H2 in Hp. injection Hp as -> Hw2.
  destruct (deliver_run repr (py_or (reply p') (JStr "")) w2) as (o & Ho & Hno).
  exists o. split; [|split; [exact Hno|intros n msg; discriminate]].
  unfold Dispatcher.handle_user_text, bind. rewrite H1, H2, Ho.
  unfold Dispatcher.execute. rewrite Ha.
  destruct d as [|kv d]; [contradiction|]. rewrite Hl.
  unfold emit. cbn [reminders logs faults out ext].
  rewrite Hw2. cbn [logs]. rewrite Hw1. cbn [logs].
  now rewrite <- !app_assoc.
Qed.

End DispatcherClaims.

(** C2, as the specification states it, fails: without a client the reply
    to [hello] is not [(unavailable) hello]. *)
Lemma fallback_reply_is_not_unavailable :
  fst (plan_with_openai (E := unit) None "hello" (world0 [] []))
  = inr (mk_plan (JStr "(OpenAI not configured) hello") JNull)
  /\ JStr "(OpenAI not configured) hello" <> JStr "(unavailable) hello".
Proof. split; [vm_compute; reflexivity|discriminate]. Qed.

(** C2, amended. Without a client the planner returns, for every text, the
    plan whose reply is [(OpenAI not configured) ] followed by the text and
    whose action is [None]; [handle_user_text] then prints and speaks that
    reply and calls no handler. *)
Theorem fallback_plan_without_client
        (E : Type)
        (handler : string -> call_args -> list reminder * E
                   -> (exn + string) * (list reminder * E))
        (repr : json -> string) (user_text : string) (w : world E) :
  plan_with_openai None user_text w
  = (inr (mk_plan (JStr ("(OpenAI not configured) " ++ user_text)) JNull),
     {| reminders := reminders w; logs := logs w; faults := faults w;
        out := out w ++ [Plan_request user_text]; ext := ext w |})
  /\ handle_user_text None handler repr user_text w
     = match faults w with
       | Some e :: fs =>
           (inl e, {| reminders := reminders w; logs := logs w; faults := fs;
                      out := out w; ext := ext w |})
       | fs =>
           (inr tt,
            {| reminders := reminders w;
               logs := logs w ++ [utterance user_text];
               faults := tl fs;
               out := out w
                      ++ [Plan_request user_text;
                          Stdout (" ASSISTANT: (OpenAI not configured) "
                                  ++ user_text);
                          Tts (JStr ("(OpenAI not configured) " ++ user_text))];
               ext := ext w |})
       end.
Proof.
  split; [reflexivity|].
  unfold handle_user_text, bind. rewrite db_log_run.
  destruct w as [t l fs o x]. cbn [reminders logs faults out ext].
  destruct fs as [|[e|] fs]; cbn; try reflexivity;
    now rewrite <- !app_assoc.
Qed.

Lemma handler_failure_reported_not_logged_witness :
  let boom := "action_open_app() missing 1 required positional argument: 'name'" in
  let said := "open the calculator" in
  let d := [("name", JStr "open_app"); ("args", JDict [])] in
  let w := world0 [] [] in
  let w1 := mk_world [] [utterance said] [] [] tt in
  let w2 := mk_world [] [utterance said] [] [Plan_request said] tt in
  db_log "utterance" (JDict [("text", JStr said)]) w = (inr tt, w1)
  /\ plan_with_openai (scripted open_calc) said w1
     = (inr (mk_plan (JStr "") (JDict d)), w2)
  /\ d <> []
  /\ dict_get d "name" JNull = JStr "open_app"
  /\ in_registry "open_app" = true
  /\ raising boom "open_app" (as_call_args (dict_get d "args" (JDict [])))
                  (reminders w2, ext w2) = (inl (Exn boom), ([], tt))
  /\ exists o,
      handle_user_text (scripted open_calc) (raising boom) no_repr said w
      = (inr tt,
         {| reminders := [];
            logs := logs w ++ [utterance said];
            faults := faults w2;
            out := out w2 ++ o
                   ++ [Call "open_app" (dict_get d "args" (JDict []));
                       Stdout ("[action:" ++ "open_app" ++ "] error: "
                               ++ str_exn (Exn boom))];
            ext := tt |})
      /\ forall n a, ~ In (Call n a) o.
Proof.
  intros boom said d w w1 w2.
  assert (H1 : db_log "utterance" (JDict [("text", JStr said)]) w = (inr tt, w1))
    by (vm_compute; reflexivity).
  assert (H2 : plan_with_openai (scripted open_calc) said w1
               = (inr (mk_plan (JStr "") (JDict d)), w2))
    by (vm_compute; reflexivity).
  assert (Hd : d <> []) by discriminate.
  assert (Hn : dict_get d "name" JNull = JStr "open_app")
    by (vm_compute; reflexivity).
  assert (Hr : in_registry "open_app" = true) by (vm_compute; reflexivity).
  assert (Hh : raising boom "open_app"
                 (as_call_args (dict_get d "args" (JDict [])))
                 (reminders w2, ext w2) = (inl (Exn boom), ([], tt)))
    by (vm_compute; reflexivity).
  repeat (split; [assumption|]).
  exact (handler_failure_reported_not_logged
           (scripted open_calc) (raising boom) no_repr said "open_app"
           w w1 w2 (mk_plan (JStr "") (JDict d)) d (Exn boom) [] tt
           H1 H2 eq_refl Hd Hn Hr Hh).
Defined.

Lemma unknown_action_reported_witness :
  let said := "do the thing" in
  let d := [("name", JStr "do_the_thing")] in
  let w := world0 [] [] in
  let w1 := mk_world [] [utterance said] [] [] tt in
  let w2 := mk_world [] [utterance said] [] [Plan_request said] tt in
  db_log "utterance" (JDict [("text", JStr said)]) w = (inr tt, w1)
  /\ plan_with_openai (scripted do_the_thing) said w1
     = (inr (mk_plan (JStr "") (JDict d)), w2)
  /\ d <> []
  /\ lookup (dict_get d "name" JNull) = inr None
  /\ exists o,
      handle_user_text (scripted do_the_thing) (returning "ok") no_repr said w
      = (inr tt,
         {| reminders := reminders w2;
            logs := logs w ++ [utterance said];
            faults := faults w2;
            out := out w2 ++ o
                   ++ [Stdout ("unknown action: "
                               ++ py_str no_repr (dict_get d "name" JNull))];
            ext := ext w2 |})
      /\ (forall n a, ~ In (Call n a) o)
      /\ forall n msg,
          ("unknown action: " ++ py_str no_repr (dict_get d "name" JNull)
           <> "[action:" ++ n ++ "] error: " ++ msg)%string.
Proof.
  intros said d w w1 w2.
  assert (H1 : db_log "utterance" (JDict [("text", JStr said)]) w = (inr tt, w1))
    by (vm_compute; reflexivity).
  assert (H2 : plan_with_openai (scripted do_the_thing) said w1
               = (inr (mk_plan (JStr "") (JDict d)), w2))
    by (vm_compute; reflexivity).
  assert (Hd : d <> []) by discriminate.
  assert (Hl : lookup (dict_get d "name" JNull) = inr None)
    by (vm_compute; reflexivity).
  repeat (split; [assumption|]).
  exact (unknown_action_reported
           (scripted do_the_thing) (returning "ok") no_repr said
           w w1 w2 (mk_plan (JStr "") (JDict d)) d H1 H2 eq_refl Hd Hl).
Defined.

(** C8, as the specification states it, fails: a name that is a list is
    not a key of [ACTIONS], and it is not hashable, so the lookup raises
    [TypeError], outside the [try] of the dispatcher: [handle_user_text]
    raises, and no line [unknown action] is printed. *)
Lemma unhashable_name_raises :
  let name := JList [JStr "open_app"] in
  lookup name = inl (Exn "unhashable type: 'list'")
  /\ handle_user_text
       (scripted (JDict [("action", JDict [("name", name)])]))
       (returning "ok") no_repr "open it" (world0 [] [])
     = (inl (Exn "unhashable type: 'list'"),
        mk_world [] [utterance "open it"] [] [Plan_request "open it"] tt).
Proof. split; vm_compute; reflexivity. Qed.

(** * The claim about the input surfaces *)

(** The console prompt drops a line that strips to the empty text before it
    reaches the dispatcher. *)
Lemma cli_blank_line_skipped
      (E : Type) (client : option (string -> E -> (exn + json) * E))
      (handler : string -> call_args -> list reminder * E
                 -> (exn + string) * (list reminder * E))
      (repr : json -> string) (line : string) (rest : list string)
      (w : world E) :
  strip line = EmptyString ->
  cli_lines client handler repr (line :: rest) w
  = (emit (Input_prompt "you> ") ;; cli_lines client handler repr rest) w.
Proof. intros H. cbn [cli_lines]. now rewrite H. Qed.

(** C9 fails on the code. The console prompt drops the empty line and the
    line of blanks: nothing is logged and the planner is not called. The
    hotkey prompt hands both to [handle_user_text], which logs them and
    calls the planner; and the voice listener, which drops the empty
    transcript, hands over a transcript of blanks once the wake word was
    heard. *)
Theorem hotkey_forwards_blank_text :
  let run_cli := cli_loop (E := unit) None (returning "ok") no_repr in
  let run_hotkey := on_hotkey (E := unit) None (returning "ok") no_repr in
  let run_voice := voice_run (E := unit) None (returning "ok") no_repr in
  let planned (w : world unit) (s : string) := In (Plan_request s) (out w) in
  (logs (snd (run_cli [""; "   "] (world0 [] []))) = []
   /\ forall s, ~ planned (snd (run_cli [""; "   "] (world0 [] []))) s)
  /\ (logs (snd (run_hotkey (Some "") (world0 [] []))) = [utterance ""]
      /\ planned (snd (run_hotkey (Some "") (world0 [] []))) "")
  /\ (logs (snd (run_hotkey (Some "   ") (world0 [] []))) = [utterance "   "]
      /\ planned (snd (run_hotkey (Some "   ") (world0 [] []))) "   ")
  /\ (logs (snd (run_voice "hey atlas" ["hey atlas"; ""] (world0 [] []))) = []
      /\ logs (snd (run_voice "hey atlas" ["hey atlas"; "   "] (world0 [] [])))
         = [utterance "   "]).
Proof.
  cbv zeta. split; [split|split; [split|split; split]].
  - vm_compute. reflexivity.
  - intros s H. vm_compute in H. intuition discriminate.
  - vm_compute. reflexivity.
  - vm_compute. tauto.
  - vm_compute. reflexivity.
  - vm_compute. tauto.
  - vm_compute. reflexivity.
  - vm_compute. reflexivity.
Qed.

(** * Further properties of the scheduler and of the reminder store *)

Section SchedulerExtras.
Context {E : Type}.

(** X1. What a tick sends out is the announcements of due reminders, in the
    order of the rows and one per reminder: of all the due reminders when
    the tick runs to its end, of those among the first rows when an
    exception ends it. The tick writes nothing to the log and leaves the
    providers alone. *)
Theorem tick_announces_due_reminders (now : fields) (w : world E) :
  logs (fst (tick now w)) = logs w
  /\ ext (fst (tick now w)) = ext w
  /\ exists k,
      out (fst (tick now w))
      = out w ++ announcements now (firstn k (reminders w))
      /\ (snd (tick now w) = None -> firstn k (reminders w) = reminders w).
Proof.
  rewrite tick_unfold.
  destruct (statement_frame w) as (_ & Hl & Ho & Hx).
  destruct (statement w) as [[e|[]] w0]; cbn [fst snd] in *.
  - repeat split; try assumption. exists 0%nat. cbn.
    rewrite app_nil_r. split; [assumption|discriminate].
  - destruct (for_each_out now (reminders w) w0) as (Hl1 & Hx1 & k & Ho1 & Hk).
    destruct (for_each (process_reminder now) (reminders w) w0)
      as [[e|[]] w1]; cbn [fst snd] in *.
    + split; [congruence|]. split; [congruence|].
      exists k. split; [congruence|discriminate].
    + split; [congruence|]. split; [congruence|].
      exists k. split; [congruence|]. intros _. now apply Hk.
Qed.

(** X2. Every row of the table after a tick, however the tick ends, is a row
    of the table before it, untouched or with a due time written with
    minute precision: the scheduler adds no reminder and changes no id, text
    or rule. *)
Theorem tick_rows_come_from_before (now : fields) (w : world E) (x : reminder) :
  In x (reminders (fst (tick now w))) ->
  exists r, In r (reminders w) /\ rescheduled r x.
Proof.
  revert x.
  apply (tick_invariant
           (fun t => forall x, In x t ->
                               exists r, In r (reminders w) /\ rescheduled r x)).
  - intros y w' _ H x Hx.
    destruct (process_reminder_step now y w') as [Hs|_ Hs|dt n _ _ Ha Hs];
      rewrite Hs in Hx.
    + now apply H.
    + apply filter_In in Hx. now apply H.
    + apply in_map_iff in Hx. destruct Hx as (x0 & <- & Hx0).
      destruct (H x0 Hx0) as (r & Hr & Hres). exists r. split; [assumption|].
      unfold set_due. destruct (rid x0 =? rid y); [|assumption].
      right. exists n. split; [exact (add_valid _ _ _ Ha)|].
      destruct Hres as [->|(m & _ & ->)]; reflexivity.
  - intros x Hx. exists x. split; [assumption|now left].
Qed.

Lemma process_waiting (now : fields) (r : reminder) (w : world E) :
  waits now r = true -> process_reminder now r w = (inr tt, w).
Proof.
  unfold waits, is_due, is_aware.
  destruct (parse_due r) as [[dt|dt off]|] eqn:Hp; cbn.
  - destruct (ge now dt) eqn:Hge; [discriminate|].
    intros _. now apply (process_not_due now dt).
  - discriminate.
  - intros _. now apply process_unparsable.
Qed.

Lemma for_each_waiting (now : fields) (rows : list reminder) (w : world E) :
  forallb (waits now) rows = true ->
  for_each (process_reminder now) rows w = (inr tt, w).
Proof.
  induction rows as [|r rows IH]; [reflexivity|]. cbn [forallb].
  intros H. apply andb_prop in H. destruct H as [Hr Hrows].
  now rewrite for_each_cons, process_waiting, IH.
Qed.

(** X3. A tick in which no reminder is due, and no due time carries a UTC
    offset, is the SELECT alone: the table, the log, the output and the
    providers are as they were. With an empty table this holds for the whole
    loop, however long it runs. *)
Theorem idle_tick_changes_nothing (now : fields) (w : world E) :
  (forallb (waits now) (reminders w) = true ->
   reminders (fst (tick now w)) = reminders w
   /\ logs (fst (tick now w)) = logs w
   /\ out (fst (tick now w)) = out w
   /\ ext (fst (tick now w)) = ext w
   /\ (faults w = [] -> tick now w = (w, None)))
  /\ (reminders w = [] ->
      forall clock,
        reminders (scheduler_loop clock w) = []
        /\ logs (scheduler_loop clock w) = logs w
        /\ out (scheduler_loop clock w) = out w
        /\ ext (scheduler_loop clock w) = ext w).
Proof.
  assert (Hidle : forall v : world E,
             forallb (waits now) (reminders v) = true ->
             reminders (fst (tick now v)) = reminders v
             /\ logs (fst (tick now v)) = logs v
             /\ out (fst (tick now v)) = out v
             /\ ext (fst (tick now v)) = ext v
             /\ (faults v = [] -> tick now v = (v, None))).
  { intros v Hw. rewrite tick_unfold.
    destruct (statement_frame v) as (Hr & Hl & Ho & Hx).
    assert (Hs : faults v = [] -> statement v = (inr tt, v))
      by (unfold statement; now intros ->).
    destruct (statement v) as [[e|[]] w0]; cbn [fst snd] in *.
    - repeat split; try assumption. intros Hf. now specialize (Hs Hf).
    - rewrite for_each_waiting by assumption. cbn [fst snd].
      repeat split; try assumption. intros Hf. specialize (Hs Hf).
      now injection Hs as ->. }
  split; [apply Hidle|]. clear Hidle.
  intros Hempty clock. revert w Hempty.
  induction clock as [|t clock IH]; intros w Hempty.
  - cbn [scheduler_loop]. now rewrite Hempty.
  - cbn [scheduler_loop].
    assert (Ht : reminders (fst (tick t w)) = reminders w
                 /\ logs (fst (tick t w)) = logs w
                 /\ out (fst (tick t w)) = out w
                 /\ ext (fst (tick t w)) = ext w).
    { rewrite tick_unfold.
      destruct (statement_frame w) as (Hr & Hl & Ho & Hx).
      destruct (statement w) as [[e|[]] w0]; cbn [fst snd] in *;
        [repeat split; assumption|].
      rewrite Hempty. cbn. repeat split; congruence. }
    destruct Ht as (Hr & Hl & Ho & Hx).
    destruct (IH (fst (tick t w))) as (Hr' & Hl' & Ho' & Hx').
    + now rewrite Hr.
    + repeat split; congruence.
Qed.

(** *** A due time with a UTC offset *)

Lemma table_step_keeps_tail (y r : reminder) (post t t' : list reminder) :
  table_step y t t' -> ~ In (rid y) (map rid (r :: post)) ->
  (exists a, t = a ++ r :: post) -> exists a, t' = a ++ r :: post.
Proof.
  intros Hstep Hy (a & ->).
  assert (Hkeep : filter (keep_other (rid y)) (r :: post) = r :: post)
    by now apply filter_keep_others.
  assert (Hset : forall due, map (set_due due (rid y)) (r :: post) = r :: post)
    by (intros due; now apply map_set_due_others).
  destruct Hstep as [->| _ -> | dt n _ _ _ ->].
  - now exists a.
  - exists (filter (keep_other (rid y)) a). now rewrite filter_app, Hkeep.
  - exists (map (set_due (isoformat_minutes n) (rid y)) a).
    now rewrite map_app, Hset.
Qed.

Lemma tick_blocked (now : fields) (w : world E) (pre post : list reminder)
      (r : reminder) :
  NoDup (ids w) -> reminders w = pre ++ r :: post -> is_aware r = true ->
  snd (tick now w) <> None
  /\ exists a, reminders (fst (tick now w)) = a ++ r :: post.
Proof.
  intros Hnd Heq Haw. rewrite tick_unfold.
  destruct (statement_frame w) as (Hr & _).
  destruct (statement w) as [[e|[]] w0]; cbn [fst snd] in *.
  - split; [discriminate|]. exists pre. congruence.
  - rewrite Heq, for_each_app.
    assert (Hpre : exists a,
               reminders (snd (for_each (process_reminder now) pre w0))
               = a ++ r :: post).
    { apply (for_each_invariant (fun t => exists a, t = a ++ r :: post)).
      - intros y v Hy. apply (table_step_keeps_tail y);
          [apply process_reminder_step|].
        unfold ids in Hnd. rewrite Heq, map_app in Hnd.
        apply (NoDup_app_disjoint _ _ (rid y) Hnd). now apply in_map.
      - exists pre. congruence. }
    destruct (for_each (process_reminder now) pre w0) as [[e|[]] w1];
      cbn [fst snd] in *.
    + split; [discriminate|assumption].
    + rewrite for_each_cons. unfold is_aware in Haw.
      destruct (parse_due r) as [[dt|dt off]|] eqn:Hp; try discriminate.
      destruct (process_aware now dt off r w1 Hp) as [e ->].
      split; [discriminate|assumption].
Qed.

(** X4. A reminder whose due time carries a UTC offset blocks the rows after
    it: every tick ends with an exception, and over any number of ticks the
    reminder and the rows after it stay in the table as they are, so none
    of them ever fires. *)
Theorem aware_due_time_blocks_later_reminders
        (w : world E) (pre post : list reminder) (r : reminder) :
  NoDup (ids w) -> reminders w = pre ++ r :: post -> is_aware r = true ->
  (forall now, snd (tick now w) <> None)
  /\ forall clock,
      exists a, reminders (scheduler_loop clock w) = a ++ r :: post.
Proof.
  intros Hnd Heq Haw. split.
  - intros now. now apply (tick_blocked now w pre post r).
  - intros clock. revert w pre Hnd Heq.
    induction clock as [|now clock IH]; intros w pre Hnd Heq.
    + now exists pre.
    + cbn [scheduler_loop].
      destruct (tick_blocked now w pre post r Hnd Heq Haw) as (_ & a & Ha).
      apply (IH _ a); [now apply tick_NoDup|assumption].
Qed.

(** *** Reminders set through the action *)

(** X5. Whatever the two threads do, in any order, the ids of the table
    stay distinct: a reminder that is set gets an id no row has, and a tick
    adds none. *)
Theorem operations_keep_ids_distinct (os : list operation) (w : world E) :
  NoDup (ids w) -> NoDup (ids (run_operations os w)).
Proof.
  unfold run_operations. revert w.
  induction os as [|o os IH]; intros w Hnd; [assumption|].
  cbn [fold_left]. apply IH. destruct o as [t d rule|now]; cbn [run_operation].
  - unfold action_set_reminder, bind, ret.
    pose proof (add_reminder_NoDup t d rule w Hnd) as H.
    now destruct (add_reminder t d rule w) as [[e|[]] w1].
  - now apply tick_NoDup.
Qed.

Lemma loop_keeps_unparsable (clock : list fields) (w : world E) (r : reminder) :
  NoDup (ids w) -> In r (reminders w) -> parse_due r = None ->
  In r (reminders (scheduler_loop clock w)).
Proof.
  revert w. induction clock as [|now clock IH]; intros w Hnd Hin Hp;
    [assumption|].
  cbn [scheduler_loop]. apply IH; [now apply tick_NoDup| |assumption].
  apply tick_keeps_waiting; try assumption; intros; congruence.
Qed.

(** X6. [action_set_reminder] checks nothing: when the INSERT succeeds it
    reports [Reminder set for ] and the due text, whatever the text. A
    reminder set with a due text that does not parse, or with none, then
    stays in the table over any number of ticks: it never fires and is never
    removed. *)
Theorem set_reminder_accepts_unparsable_due
        (t d rule : option string) (w w1 : world E) (res : string) :
  NoDup (ids w) ->
  action_set_reminder t d rule w = (inr res, w1) ->
  res = ("Reminder set for " ++ str_text d)%string
  /\ In (mk_reminder (next_id (reminders w)) t d rule) (reminders w1)
  /\ (parse_due (mk_reminder (next_id (reminders w)) t d rule) = None ->
      forall clock,
        In (mk_reminder (next_id (reminders w)) t d rule)
           (reminders (scheduler_loop clock w1))).
Proof.
  intros Hnd. unfold action_set_reminder, bind, ret.
  pose proof (add_reminder_NoDup t d rule w Hnd) as Hnd1.
  rewrite add_reminder_run in *.
  assert (Hlast : In (mk_reminder (next_id (reminders w)) t d rule)
                     (reminders w
                      ++ [mk_reminder (next_id (reminders w)) t d rule]))
    by (apply in_or_app; right; now left).
  destruct (faults w) as [|[e|] fs]; cbn [snd] in Hnd1; intros [= <- <-];
    (split; [reflexivity|split; [exact Hlast|]]);
    intros Hp clock; now apply loop_keeps_unparsable.
Qed.

(** X7. A reminder set without a rule and with a due time that is reached
    fires in the next tick that runs to its end: it is announced after the
    due reminders that were in the table before it, once, and it is gone
    from the table. *)
Theorem reminder_set_then_fired
        (t : option string) (s : string) (now dt : fields) (w w1 w2 : world E) :
  NoDup (ids w) ->
  add_reminder t (Some s) None w = (inr tt, w1) ->
  fromisoformat s = Some (Naive dt) -> ge now dt = true ->
  tick now w1 = (w2, None) ->
  out w2
  = out w ++ announcements now (reminders w)
    ++ announcement (mk_reminder (next_id (reminders w)) t (Some s) None)
  /\ ~ In (next_id (reminders w)) (ids w2).
Proof.
  intros Hnd Hadd Hp Hge Ht.
  pose proof (add_reminder_NoDup t (Some s) None w Hnd) as Hnd1.
  rewrite Hadd in Hnd1. cbn [snd] in Hnd1.
  rewrite add_reminder_run in Hadd.
  set (row := mk_reminder (next_id (reminders w)) t (Some s) None) in *.
  assert (Hw1 : reminders w1 = reminders w ++ [row] /\ out w1 = out w)
    by (destruct (faults w) as [|[e|] fs]; inversion Hadd; now split).
  destruct Hw1 as [Hr1 Ho1].
  assert (Hprow : parse_due row = Some (Naive dt)) by exact Hp.
  split.
  - rewrite (tick_complete_out now w1 w2 Ht), Hr1, announcements_app, Ho1. do 2 f_equal. unfold announcements. cbn [flat_map].
    unfold is_due. rewrite Hprow, Hge. now rewrite app_nil_r.
  - apply (tick_deletes now dt w1 w2 row); try assumption.
    + rewrite Hr1. apply in_or_app. right. now left.
    + reflexivity.
Qed.


(** X22. A recurring reminder that fired in a tick that ran to its end is
    due strictly later than it was: the new due time is the old one plus
    the period, short of it by less than a minute (the seconds that the
    minute precision drops). So the same due time never fires twice. *)
Theorem rescheduled_due_time_is_later
        (now dt : fields) (w w' : world E) (r : reminder) :
  NoDup (ids w) -> In r (reminders w) ->
  known_rule (repeat_rule r) = true ->
  parse_due r = Some (Naive dt) -> ge now dt = true ->
  tick now w = (w', None) ->
  exists r' dt',
    In r' (reminders w') /\ same_reminder r r'
    /\ parse_due r' = Some (Naive dt')
    /\ ge dt dt' = false /\ ge dt' dt = true
    /\ stamp dt + span (period_of (repeat_rule r)) - 60000000 < stamp dt'
    /\ stamp dt' <= stamp dt + span (period_of (repeat_rule r)).
Proof.
  intros Hnd Hin Hk Hp Hge Ht.
  destruct (tick_reschedules now dt w w' r Hnd Hin Hk Hp Hge Ht)
    as (n & Ha & Hin' & Hparse).
  pose proof (parse_due_valid r dt Hp) as Hv.
  destruct (advanced_due_is_later dt n _ Hv Ha) as [Hlater Hnot].
  pose proof (stamp_add dt n _ Ha) as Hs.
  pose proof (stamp_trunc_minutes n (add_valid _ _ _ Ha)) as Htr.
  exists (mk_reminder (rid r) (text r) (Some (isoformat_minutes n))
                      (repeat_rule r)), (trunc_minutes n).
  split; [exact Hin'|]. split; [now repeat split|].
  split; [exact Hparse|]. split; [exact Hlater|]. split; [exact Hnot|].
  lia.
Qed.

Lemma NoDup_ids_middle (done rest : list reminder) (r : reminder) :
  NoDup (map rid (done ++ r :: rest)) ->
  ~ In (rid r) (map rid done) /\ ~ In (rid r) (map rid rest)
  /\ NoDup (map rid (done ++ rest)).
Proof.
  rewrite !map_app. cbn [map]. intros H.
  pose proof (NoDup_remove_2 _ _ _ H) as Hn.
  apply NoDup_remove_1 in H.
  repeat split; [| |assumption]; intros Hin; apply Hn, in_or_app; tauto.
Qed.

(** The rows still to process stand at the end of the table, behind what
    the tick made of the rows before them. *)
Lemma for_each_rows (now : fields) (rows : list reminder) :
  forall (done : list reminder) (w w' : world E),
    reminders w = done ++ rows -> NoDup (map rid (done ++ rows)) ->
    for_each (process_reminder now) rows w = (inr tt, w') ->
    reminders w' = done ++ flat_map (after_tick now) rows.
Proof.
  induction rows as [|r rest IH]; intros done w w' Hw Hnd.
  - cbn. intros [= <-]. now rewrite Hw.
  - rewrite for_each_cons.
    destruct (NoDup_ids_middle done rest r Hnd) as (Hdone & Hrest & Hnd').
    assert (Hstay : NoDup (map rid ((done ++ [r]) ++ rest)))
      by now rewrite <- app_assoc.
    cbn [flat_map]. unfold after_tick.
    destruct (parse_due r) as [[dt|dt off]|] eqn:Hp.
    + destruct (ge now dt) eqn:Hge.
      * destruct (known_rule (repeat_rule r)) eqn:Hk.
        -- destruct (add dt (period_of (repeat_rule r))) as [n|] eqn:Ha.
           ++ rewrite (process_fire_update now dt n) by assumption.
              destruct ((announce r ;; update_due_at _ _) w)
                as [[e|[]] w1] eqn:H1; [discriminate|].
              apply run_update in H1. intros Hf.
              rewrite Hw, map_app in H1. cbn [map] in H1.
              rewrite (map_set_due_others _ _ done Hdone),
                (map_set_due_others _ _ rest Hrest) in H1.
              rewrite (IH (done ++ [set_due (isoformat_minutes n) (rid r) r])
                          w1 w'); try assumption.
              ** now rewrite <- app_assoc.
              ** now rewrite H1, <- app_assoc.
              ** rewrite <- app_assoc, map_app. cbn [map app].
                 rewrite rid_set_due. now rewrite map_app in Hnd.
           ++ rewrite (process_fire_overflow now dt) by assumption.
              run_world w; discriminate.
        -- rewrite (process_fire_delete now dt) by assumption.
           destruct ((announce r ;; delete_reminder _) w)
             as [[e|[]] w1] eqn:H1; [discriminate|].
           apply run_delete in H1. intros Hf.
           rewrite Hw, filter_app in H1. cbn [filter] in H1.
           unfold keep_other at 2 in H1. rewrite Z.eqb_refl in H1.
           cbn [negb] in H1.
           rewrite (filter_keep_others _ done Hdone),
             (filter_keep_others _ rest Hrest) in H1.
           now apply (IH done w1 w').
      * rewrite (process_not_due now dt) by assumption. intros Hf.
        rewrite (IH (done ++ [r]) w w'); try assumption;
          now rewrite <- app_assoc.
    + destruct (process_aware now dt off r w Hp) as [e ->]. discriminate.
    + rewrite process_unparsable by assumption. intros Hf.
      rewrite (IH (done ++ [r]) w w'); try assumption;
        now rewrite <- app_assoc.
Qed.

(** X23. In a table with distinct ids, a tick that runs to its end treats
    every row on its own: the table after it is the table before it, in the
    same order, without the reminders that fired with no known rule, with a
    new due time for those that fired with one, and with the others as they
    were. *)
Theorem complete_tick_is_row_wise (now : fields) (w w' : world E) :
  NoDup (ids w) -> tick now w = (w', None) ->
  reminders w' = flat_map (after_tick now) (reminders w).
Proof.
  intros Hnd Ht.
  destruct (tick_complete now w w' Ht) as (w0 & Hs & Hf).
  pose proof (statement_frame w) as (Hr0 & _). rewrite Hs in Hr0.
  cbn [snd] in Hr0.
  now apply (for_each_rows now (reminders w) [] w0 w').
Qed.

End SchedulerExtras.

Lemma tick_rows_come_from_before_witness :
  exists r,
    In r (reminders desk)
    /\ rescheduled r (mk_reminder 1 (Some "tea") (Some "2024-02-01T10:00")
                                  (Some "daily")).
Proof.
  apply (tick_rows_come_from_before morning desk). vm_compute. tauto.
Defined.

Lemma idle_tick_changes_nothing_witness :
  forallb (waits (mk_fields 2024 1 31 8 0 0 0)) (reminders desk) = true
  /\ tick (mk_fields 2024 1 31 8 0 0 0) desk = (desk, None).
Proof.
  assert (H : forallb (waits (mk_fields 2024 1 31 8 0 0 0)) (reminders desk)
              = true) by (vm_compute; reflexivity).
  split; [exact H|].
  now apply (idle_tick_changes_nothing (mk_fields 2024 1 31 8 0 0 0) desk).
Defined.

Lemma aware_due_time_blocks_later_reminders_witness :
  (forall now, snd (tick now jammed) <> None)
  /\ forall clock,
      exists a,
        reminders (scheduler_loop clock jammed) = a ++ flight :: [dentist].
Proof.
  apply (aware_due_time_blocks_later_reminders jammed [bus] [dentist] flight).
  - distinct.
  - reflexivity.
  - vm_compute. reflexivity.
Defined.

Lemma operations_keep_ids_distinct_witness :
  NoDup (ids (run_operations
                [Set_reminder (Some "stretch") (Some "2024-01-31T10:00") None;
                 Tick morning;
                 Set_reminder (Some "call") (Some "tomorrow at noon") None]
                desk)).
Proof. apply operations_keep_ids_distinct. distinct. Defined.

Lemma set_reminder_accepts_unparsable_due_witness :
  let w1 := snd (action_set_reminder (Some "call") (Some "tomorrow at noon")
                                     None desk) in
  "Reminder set for tomorrow at noon"
  = ("Reminder set for " ++ str_text (Some "tomorrow at noon"))%string
  /\ In (mk_reminder (next_id (reminders desk)) (Some "call")
                     (Some "tomorrow at noon") None) (reminders w1)
  /\ (parse_due (mk_reminder (next_id (reminders desk)) (Some "call")
                             (Some "tomorrow at noon") None) = None ->
      forall clock,
        In (mk_reminder (next_id (reminders desk)) (Some "call")
                        (Some "tomorrow at noon") None)
           (reminders (scheduler_loop clock w1))).
Proof.
  intros w1.
  apply (set_reminder_accepts_unparsable_due
           (Some "call") (Some "tomorrow at noon") None desk w1).
  - distinct.
  - vm_compute. reflexivity.
Defined.

Lemma reminder_set_then_fired_witness :
  exists w2 : world unit,
    tick morning (snd (add_reminder (Some "stretch") (Some "2024-01-31T10:00")
                                    None desk)) = (w2, None)
    /\ out w2
       = out desk ++ announcements morning (reminders desk)
         ++ announcement (mk_reminder (next_id (reminders desk))
                                      (Some "stretch")
                                      (Some "2024-01-31T10:00") None)
    /\ ~ In (next_id (reminders desk)) (ids w2).
Proof.
  eexists. split; [vm_compute; reflexivity|].
  apply (reminder_set_then_fired
           (Some "stretch") "2024-01-31T10:00" morning
           (mk_fields 2024 1 31 10 0 0 0) desk
           (snd (add_reminder (Some "stretch") (Some "2024-01-31T10:00")
                              None desk)));
    [distinct|vm_compute; reflexivity..].
Defined.


Lemma rescheduled_due_time_is_later_witness :
  exists r' dt',
    In r' (reminders (fst (tick morning desk))) /\ same_reminder tea r'
    /\ parse_due r' = Some (Naive dt')
    /\ ge (mk_fields 2024 1 31 10 0 30 0) dt' = false
    /\ ge dt' (mk_fields 2024 1 31 10 0 30 0) = true
    /\ stamp (mk_fields 2024 1 31 10 0 30 0)
       + span (period_of (repeat_rule tea)) - 60000000 < stamp dt'
    /\ stamp dt' <= stamp (mk_fields 2024 1 31 10 0 30 0)
                    + span (period_of (repeat_rule tea)).
Proof.
  apply (rescheduled_due_time_is_later morning (mk_fields 2024 1 31 10 0 30 0)
           desk (fst (tick morning desk)) tea);
    [distinct|listed|vm_compute; reflexivity..].
Defined.

Lemma complete_tick_is_row_wise_witness :
  reminders (fst (tick morning desk))
  = flat_map (after_tick morning) (reminders desk).
Proof.
  apply complete_tick_is_row_wise; [distinct|vm_compute; reflexivity].
Defined.

(** * Further properties of the dispatcher *)

Section DispatcherExtras.
Context {E : Type}.
Variable openai_client : option (string -> E -> (exn + json) * E).
Variable handler :
  string -> call_args -> list reminder * E -> (exn + string) * (list reminder * E).
Variable repr : json -> string.

Local Abbreviation plan_with_openai := (plan_with_openai openai_client).
Local Abbreviation deliver := (deliver (E := E) repr).
Local Abbreviation execute := (execute handler repr).
Local Abbreviation handle_user_text :=
  (handle_user_text openai_client handler repr).

Lemma deliver_exact (v : json) (w : world E) :
  deliver v w
  = (inr tt,
     {| reminders := reminders w; logs := logs w; faults := faults w;
        out := out w ++ (if truthy v
                         then [Stdout (" ASSISTANT: " ++ py_str repr v); Tts v]
                         else []);
        ext := ext w |}).
Proof.
  unfold Dispatcher.deliver. destruct (truthy v).
  - unfold tts_say. unfold emit, bind. cbn. now rewrite <- app_assoc.
  - unfold ret. rewrite app_nil_r. now destruct w.
Qed.

(** After the entry of the utterance is logged and the plan is there, the
    reply is delivered and the action executed. *)
Lemma handle_after_plan (user_text : string) (w w1 w2 : world E) (p : plan) :
  db_log "utterance" (JDict [("text", JStr user_text)]) w = (inr tt, w1) ->
  plan_with_openai user_text w1 = (inr p, w2) ->
  handle_user_text user_text w
  = execute (action p)
      {| reminders := reminders w2; logs := logs w2; faults := faults w2;
         out := out w2
                ++ (if truthy (py_or (reply p) (JStr ""))
                    then [Stdout (" ASSISTANT: "
                                  ++ py_str repr (py_or (reply p) (JStr "")));
                          Tts (py_or (reply p) (JStr ""))]
                    else []);
         ext := ext w2 |}.
Proof.
  intros H1 H2. unfold Dispatcher.handle_user_text, bind.
  now rewrite H1, H2, deliver_exact.
Qed.

(** The call of a registered handler, with what is printed and logged after
    it. *)
Lemma execute_registered (d : list (string * json)) (name : string)
      (w : world E) :
  d <> [] -> dict_get d "name" JNull = JStr name -> in_registry name = true ->
  execute (JDict d) w
  = match handler name (as_call_args (dict_get d "args" (JDict [])))
                  (reminders w, ext w) with
    | (inl e, (rs, x)) =>
        (inr tt,
         {| reminders := rs; logs := logs w; faults := faults w;
            out := out w
                   ++ [Call name (dict_get d "args" (JDict []));
                       Stdout ("[action:" ++ name ++ "] error: " ++ str_exn e)];
            ext := x |})
    | (inr res, (rs, x)) =>
        match faults w with
        | Some e :: fs =>
            (inr tt,
             {| reminders := rs; logs := logs w; faults := fs;
                out := out w
                       ++ [Call name (dict_get d "args" (JDict []));
                           Stdout ("[action:" ++ name ++ "] " ++ res);
                           Stdout ("[action:" ++ name ++ "] error: "
                                   ++ str_exn e)];
                ext := x |})
        | fs =>
            (inr tt,
             {| reminders := rs;
                logs := logs w
                        ++ [action_entry name (dict_get d "args" (JDict []))
                                         res];
                faults := tl fs;
                out := out w
                       ++ [Call name (dict_get d "args" (JDict []));
                           Stdout ("[action:" ++ name ++ "] " ++ res)];
                ext := x |})
        end
    end.
Proof.
  intros Hd Hn Hr. unfold Dispatcher.execute.
  destruct d as [|kv d]; [contradiction|]. rewrite Hn.
  cbn [lookup py_str]. rewrite Hr.
  unfold try_except, call, bind, emit. cbn [reminders logs faults out ext].
  destruct (handler name _ _) as [[e|res] [rs x]].
  - cbn [reminders logs faults out ext]. now rewrite <- app_assoc.
  - rewrite db_log_run. cbn [reminders logs faults out ext].
    destruct (faults w) as [|[e|] fs]; cbn [reminders logs faults out ext tl];
      now rewrite <- !app_assoc.
Qed.

(** X8. When the request to the service raises, or its answer is JSON but
    not an object, no exception leaves the planner: the dispatcher prints
    and speaks a reply that starts with [NLU error: ], calls no handler,
    logs the utterance only and returns normally. *)
Theorem planner_failure_becomes_reply
        (create : string -> E -> (exn + json) * E)
        (user_text msg : string) (w : world E) (res : exn + json) (x : E) :
  (forall e fs, faults w <> Some e :: fs) ->
  create user_text (ext w) = (res, x) ->
  nlu_error res = Some msg ->
  Dispatcher.handle_user_text (Some create) handler repr user_text w
  = (inr tt,
     {| reminders := reminders w;
        logs := logs w ++ [utterance user_text];
        faults := tl (faults w);
        out := out w
               ++ [Plan_request user_text;
                   Stdout (" ASSISTANT: NLU error: " ++ msg);
                   Tts (JStr ("NLU error: " ++ msg))];
        ext := x |}).
Proof.
  intros Hf Hc Hm.
  unfold Dispatcher.handle_user_text, bind. rewrite db_log_run.
  assert (Hplan :
            forall v : world E,
              ext v = ext w ->
              Dispatcher.plan_with_openai (Some create) user_text v
              = (inr (mk_plan (JStr ("NLU error: " ++ msg)) JNull),
                 {| reminders := reminders v; logs := logs v;
                    faults := faults v;
                    out := out v ++ [Plan_request user_text]; ext := x |})).
  { intros v Hv. unfold Dispatcher.plan_with_openai, emit, bind.
    cbn [reminders logs faults out ext]. rewrite Hv, Hc.
    destruct res as [e|j]; cbn in Hm.
    - now injection Hm as <-.
    - destruct j; try discriminate; now injection Hm as <-. }
  assert (Hrun :
            forall fs,
              (let w1 := {| reminders := reminders w;
                            logs := logs w ++ [mk_log "utterance"
                                                 (JDict [("text", JStr user_text)])];
                            faults := fs; out := out w; ext := ext w |} in
               match Dispatcher.plan_with_openai (Some create) user_text w1 with
               | (inr a, w') =>
                   (_ <- Dispatcher.deliver repr (py_or (reply a) (JStr "")) ;;
                    Dispatcher.execute handler repr (action a)) w'
               | (inl e, w') => (inl e, w')
               end)
              = (inr tt,
                 {| reminders := reminders w;
                    logs := logs w ++ [utterance user_text];
                    faults := fs;
                    out := out w
                           ++ [Plan_request user_text;
                               Stdout (" ASSISTANT: NLU error: " ++ msg);
                               Tts (JStr ("NLU error: " ++ msg))];
                    ext := x |})).
  { intros fs. cbv zeta. rewrite Hplan by reflexivity.
    unfold bind. rewrite deliver_exact.
    cbn [reminders logs faults out ext reply action py_or truthy String.eqb
         append negb py_str Dispatcher.execute ret].
    unfold ret. now rewrite <- app_assoc. }
  destruct (faults w) as [|[e|] fs] eqn:Hfw.
  - apply (Hrun []).
  - now elim (Hf e fs).
  - apply (Hrun fs).
Qed.

(** X9. When the handler of a registered action returns and the entry of
    the action can be logged, the result is printed after [[action:name] ],
    which ends the output, and the log grows by exactly two entries: the
    utterance, then the action with its name, its arguments and the text of
    its result. *)
Theorem successful_action_printed_and_logged
        (user_text name res : string) (w w1 w2 : world E) (p : plan)
        (d : list (string * json)) (rs : list reminder) (x : E) :
  db_log "utterance" (JDict [("text", JStr user_text)]) w = (inr tt, w1) ->
  plan_with_openai user_text w1 = (inr p, w2) ->
  action p = JDict d -> d <> [] ->
  dict_get d "name" JNull = JStr name -> in_registry name = true ->
  handler name (as_call_args (dict_get d "args" (JDict [])))
          (reminders w2, ext w2) = (inr res, (rs, x)) ->
  (forall e fs, faults w2 <> Some e :: fs) ->
  exists o,
    handle_user_text user_text w
    = (inr tt,
       {| reminders := rs;
          logs := logs w
                  ++ [utterance user_text;
                      action_entry name (dict_get d "args" (JDict [])) res];
          faults := tl (faults w2);
          out := out w2 ++ o
                 ++ [Call name (dict_get d "args" (JDict []));
                     Stdout ("[action:" ++ name ++ "] " ++ res)];
          ext := x |})
    /\ calls o = [].
Proof.
  intros H1 H2 Ha Hd Hn Hr Hh Hf.
  pose proof (db_log_done _ _ _ _ H1) as Hw1.
  destruct (plan_run openai_client user_text w1) as (p' & x' & Hp).
  rewrite H2 in Hp. injection Hp as -> Hw2.
  rewrite (handle_after_plan user_text w w1 w2 p' H1 H2), Ha.
  rewrite (execute_registered d name _ Hd Hn Hr).
  cbn [reminders logs faults out ext]. rewrite Hh.
  exists (if truthy (py_or (reply p') (JStr ""))
          then [Stdout (" ASSISTANT: "
                        ++ py_str repr (py_or (reply p') (JStr "")));
                Tts (py_or (reply p') (JStr ""))]
          else []). split.
  - destruct (faults w2) as [|[e|] fs] eqn:Hfw; [|now elim (Hf e fs)|];
      rewrite Hw2; cbn [logs]; rewrite Hw1; cbn [logs tl];
      rewrite <- !app_assoc; reflexivity.
  - now destruct (truthy _).
Qed.

(** X10. When the handler returned but the entry of the action cannot be
    logged, the exception of the log is caught by the [except] meant for the
    handler: after the line with the result, a line [[action:name] error: ]
    with the text of the storage exception is printed, although the action
    was carried out; the log holds the utterance only. *)
Theorem action_log_failure_reported_as_action_error
        (user_text name res : string) (w w1 w2 : world E) (p : plan)
        (d : list (string * json)) (rs : list reminder) (x : E)
        (e : exn) (fs : list (option exn)) :
  db_log "utterance" (JDict [("text", JStr user_text)]) w = (inr tt, w1) ->
  plan_with_openai user_text w1 = (inr p, w2) ->
  action p = JDict d -> d <> [] ->
  dict_get d "name" JNull = JStr name -> in_registry name = true ->
  handler name (as_call_args (dict_get d "args" (JDict [])))
          (reminders w2, ext w2) = (inr res, (rs, x)) ->
  faults w2 = Some e :: fs ->
  exists o,
    handle_user_text user_text w
    = (inr tt,
       {| reminders := rs;
          logs := logs w ++ [utterance user_text];
          faults := fs;
          out := out w2 ++ o
                 ++ [Call name (dict_get d "args" (JDict []));
                     Stdout ("[action:" ++ name ++ "] " ++ res);
                     Stdout ("[action:" ++ name ++ "] error: " ++ str_exn e)];
          ext := x |})
    /\ calls o = [].
Proof.
  intros H1 H2 Ha Hd Hn Hr Hh Hf.
  pose proof (db_log_done _ _ _ _ H1) as Hw1.
  destruct (plan_run openai_client user_text w1) as (p' & x' & Hp).
  rewrite H2 in Hp. injection Hp as -> Hw2.
  rewrite (handle_after_plan user_text w w1 w2 p' H1 H2), Ha.
  rewrite (execute_registered d name _ Hd Hn Hr).
  cbn [reminders logs faults out ext]. rewrite Hh, Hf.
  exists (if truthy (py_or (reply p') (JStr ""))
          then [Stdout (" ASSISTANT: "
                        ++ py_str repr (py_or (reply p') (JStr "")));
                Tts (py_or (reply p') (JStr ""))]
          else []). split.
  - rewrite Hw2. cbn [logs]. rewrite Hw1. cbn [logs].
    rewrite <- !app_assoc. reflexivity.
  - now destruct (truthy _).
Qed.

(** The two ways [handle_user_text] starts. *)
Lemma handle_log_failed (user_text : string) (w : world E) (e : exn)
      (fs : list (option exn)) :
  faults w = Some e :: fs ->
  handle_user_text user_text w
  = (inl e, {| reminders := reminders w; logs := logs w; faults := fs;
               out := out w; ext := ext w |}).
Proof.
  intros Hf. unfold Dispatcher.handle_user_text, bind.
  now rewrite db_log_run, Hf.
Qed.

Lemma handle_logged (user_text : string) (w : world E) :
  (forall e fs, faults w <> Some e :: fs) ->
  exists p x,
    handle_user_text user_text w
    = execute (action p)
        {| reminders := reminders w;
           logs := logs w ++ [utterance user_text];
           faults := tl (faults w);
           out := out w
                  ++ Plan_request user_text
                     :: (if truthy (py_or (reply p) (JStr ""))
                         then [Stdout (" ASSISTANT: "
                                       ++ py_str repr
                                            (py_or (reply p) (JStr "")));
                               Tts (py_or (reply p) (JStr ""))]
                         else []);
           ext := x |}.
Proof.
  intros Hf.
  pose proof (db_log_run "utterance" (JDict [("text", JStr user_text)]) w)
    as H1.
  assert (H1' : db_log "utterance" (JDict [("text", JStr user_text)]) w
                = (inr tt,
                   {| reminders := reminders w;
                      logs := logs w ++ [utterance user_text];
                      faults := tl (faults w); out := out w; ext := ext w |})).
  { rewrite H1. destruct (faults w) as [|[e|] fs]; try reflexivity.
    now elim (Hf e fs). }
  match type of H1' with _ = (_, ?v) =>
    destruct (plan_run openai_client user_text v) as (p & x & Hp)
  end.
  cbn [reminders logs faults out ext] in Hp.
  exists p, x. rewrite (handle_after_plan user_text w _ _ p H1' Hp).
  cbn [reminders logs faults out ext]. now rewrite <- app_assoc.
Qed.

(** What executing an action adds, and when it raises. *)
Lemma execute_trace (a : json) (w : world E) :
  exists l o,
    logs (snd (execute a w)) = logs w ++ l
    /\ out (snd (execute a w)) = out w ++ o
    /\ (List.length l <= 1)%nat /\ utterances l = [] /\ planned o = []
    /\ (List.length (calls o) <= 1)%nat
    /\ (calls o = [] -> reminders (snd (execute a w)) = reminders w)
    /\ (forall e, fst (execute a w) = inl e ->
                  snd (execute a w) = w
                  /\ (e = Exn "unhashable type: 'list'"
                      \/ e = Exn "unhashable type: 'dict'")).
Proof.
  unfold Dispatcher.execute.
  destruct a as [|b|z|nz t|s|l|d];
    try (exists [], []; cbn; rewrite !app_nil_r; repeat split; auto;
         discriminate).
  destruct d as [|kv d];
    [exists [], []; cbn; rewrite !app_nil_r; repeat split; auto;
     discriminate|].
  destruct (dict_get (kv :: d) "name" JNull) as [|b|z|nz t|s|l|d'] eqn:Hn;
    cbn [lookup].
  1-4: (eexists [], [_]; unfold emit; cbn; rewrite !app_nil_r;
        repeat split; auto; discriminate).
  - destruct (in_registry s).
    + unfold try_except, call, bind, emit. cbn [reminders logs faults out ext].
      destruct (handler s _ _) as [[e|res] [rs x]].
      * eexists [], [_; _]. cbn. rewrite app_nil_r, <- app_assoc.
        repeat split; auto; discriminate.
      * rewrite db_log_run. cbn [reminders logs faults out ext].
        destruct (faults w) as [|[e|] fs]; cbn.
        -- eexists [_], [_; _]. rewrite <- app_assoc. cbn.
           repeat split; auto; discriminate.
        -- eexists [], [_; _; _]. rewrite app_nil_r, <- !app_assoc. cbn.
           repeat split; auto; discriminate.
        -- eexists [_], [_; _]. rewrite <- app_assoc. cbn.
           repeat split; auto; discriminate.
    + eexists [], [_]. unfold emit. cbn. rewrite !app_nil_r.
      repeat split; auto; discriminate.
  - exists [], []. unfold raise. cbn. rewrite !app_nil_r.
    repeat split; auto;
      match goal with H : inl _ = inl _ |- _ => injection H as <- end; auto.
  - exists [], []. unfold raise. cbn. rewrite !app_nil_r.
    repeat split; auto;
      match goal with H : inl _ = inl _ |- _ => injection H as <- end; auto.
Qed.

Lemma calls_app (a b : list effect) : calls (a ++ b) = calls a ++ calls b.
Proof. apply filter_app. Qed.

Lemma planned_app (a b : list effect) :
  planned (a ++ b) = planned a ++ planned b.
Proof. apply flat_map_app. Qed.

Lemma utterances_app (a b : list log_entry) :
  utterances (a ++ b) = utterances a ++ utterances b.
Proof. apply filter_app. Qed.

(** X11. An exception that a handler raises, or that the log of its result
    raises, never leaves the dispatcher: once the entry of the utterance is
    logged, [handle_user_text] returns normally whatever the handler and the
    storage do, provided the name in the plan is not a list or a dict, which
    [ACTIONS.get] cannot hash. *)
Theorem handler_errors_stay_in_dispatcher
        (user_text : string) (w w1 w2 : world E) (p : plan) :
  db_log "utterance" (JDict [("text", JStr user_text)]) w = (inr tt, w1) ->
  plan_with_openai user_text w1 = (inr p, w2) ->
  (forall d e, action p = JDict d ->
               lookup (dict_get d "name" JNull) <> inl e) ->
  fst (handle_user_text user_text w) = inr tt.
Proof.
  intros H1 H2 Hname.
  rewrite (handle_after_plan user_text w w1 w2 p H1 H2).
  match goal with
  | |- fst (Dispatcher.execute _ _ ?a ?v) = _ =>
      destruct (execute_trace a v) as (_ & _ & _ & _ & _ & _ & _ & _ & _ & He);
      destruct (Dispatcher.execute handler repr a v) as [[e|[]] w3] eqn:Hx;
      [|reflexivity]
  end.
  exfalso. cbn [fst snd] in He. destruct (He e eq_refl) as [_ Hcase].
  unfold Dispatcher.execute in Hx.
  destruct (action p) as [|b|z|nz t|s|l|d] eqn:Ha; try discriminate.
  destruct d as [|kv d]; [discriminate|].
  specialize (Hname (kv :: d)).
  destruct (lookup (dict_get (kv :: d) "name" JNull)) as [e'|[fn|]] eqn:Hl.
  - now elim (Hname e' eq_refl).
  - revert Hx. unfold try_except, call, bind, emit.
    cbn [reminders logs faults out ext].
    destruct (handler fn _ _) as [[e'|res] [rs x]]; [discriminate|].
    rewrite db_log_run. cbn [reminders logs faults out ext].
    now destruct (faults _) as [|[e'|] fs].
  - discriminate.
Qed.

(** X12. One utterance makes the dispatcher call the planner at most once
    and a handler at most once, and log at most two entries; it only appends
    to the log and to the output, and when no handler is called the table of
    reminders is as it was. *)
Theorem one_utterance_at_most_one_action (user_text : string) (w : world E) :
  exists l o,
    logs (snd (handle_user_text user_text w)) = logs w ++ l
    /\ out (snd (handle_user_text user_text w)) = out w ++ o
    /\ (List.length l <= 2)%nat
    /\ (List.length (planned o) <= 1)%nat
    /\ (List.length (calls o) <= 1)%nat
    /\ (calls o = [] ->
        reminders (snd (handle_user_text user_text w)) = reminders w).
Proof.
  destruct (faults w) as [|[e0|] fs] eqn:Hf.
  2: { rewrite (handle_log_failed user_text w e0 fs Hf). exists [], [].
       cbn. rewrite !app_nil_r. repeat split; auto. }
  all: destruct (handle_logged user_text w) as (p & x & Hh);
      [intros e1 fs1; rewrite Hf; discriminate|];
    rewrite Hh;
    set (said := if truthy (py_or (reply p) (JStr ""))
                 then [Stdout (" ASSISTANT: "
                               ++ py_str repr (py_or (reply p) (JStr "")));
                       Tts (py_or (reply p) (JStr ""))]
                 else []);
    assert (Hsaid : planned said = [] /\ calls said = [])
      by (subst said; now destruct (truthy _));
    destruct Hsaid as [Hps Hcs];
    match goal with
    | |- context [Dispatcher.execute _ _ ?a ?v] =>
        destruct (execute_trace a v)
          as (l & o & Hl & Ho & Hlen & _ & Hp & Hc & Hr & _)
    end;
    cbn [reminders logs out] in Hl, Ho, Hr;
    exists (utterance user_text :: l), (Plan_request user_text :: said ++ o);
    rewrite Hl, Ho, <- !app_assoc; cbn [app];
    (split; [reflexivity|]); (split; [reflexivity|]);
    (split; [cbn [List.length]; lia|]);
    change (planned (Plan_request user_text :: said ++ o))
      with (user_text :: planned (said ++ o));
    change (calls (Plan_request user_text :: said ++ o))
      with (calls (said ++ o));
    rewrite planned_app, calls_app, Hp, Hps, Hcs; cbn [app List.length];
    repeat split; auto.
Qed.

End DispatcherExtras.

(** *** The properties on concrete runs *)

Lemma planner_failure_becomes_reply_witness :
  handle_user_text (failing "Connection error.") (returning "ok") no_repr
                   "hello" (world0 [] [])
  = (inr tt,
     mk_world [] [utterance "hello"] []
       [Plan_request "hello";
        Stdout " ASSISTANT: NLU error: Connection error.";
        Tts (JStr "NLU error: Connection error.")] tt).
Proof.
  apply (planner_failure_becomes_reply
           (returning "ok") no_repr
           (fun _ x => (inl (Exn "Connection error."), x))
           "hello" "Connection error." (world0 [] [])
           (inl (Exn "Connection error.")) tt).
  - intros e fs. discriminate.
  - reflexivity.
  - reflexivity.
Defined.

Lemma successful_action_printed_and_logged_witness :
  let said := "open the calculator" in
  let d := [("name", JStr "open_app"); ("args", JDict [])] in
  let w := world0 [] [] in
  let w2 := mk_world [] [utterance said] [] [Plan_request said] tt in
  exists o,
    handle_user_text (scripted open_calc) (returning "Opened calc") no_repr
                     said w
    = (inr tt,
       {| reminders := [];
          logs := logs w
                  ++ [utterance said;
                      action_entry "open_app" (dict_get d "args" (JDict []))
                                   "Opened calc"];
          faults := tl (faults w2);
          out := out w2 ++ o
                 ++ [Call "open_app" (dict_get d "args" (JDict []));
                     Stdout ("[action:" ++ "open_app" ++ "] " ++ "Opened calc")];
          ext := tt |})
    /\ calls o = [].
Proof.
  intros said d w w2.
  apply (successful_action_printed_and_logged
           (scripted open_calc) (returning "Opened calc") no_repr
           said "open_app" "Opened calc" w
           (mk_world [] [utterance said] [] [] tt) w2
           (mk_plan (JStr "") (JDict d)) d [] tt).
  - vm_compute. reflexivity.
  - vm_compute. reflexivity.
  - reflexivity.
  - discriminate.
  - vm_compute. reflexivity.
  - vm_compute. reflexivity.
  - vm_compute. reflexivity.
  - intros e fs. discriminate.
Defined.

Lemma action_log_failure_reported_as_action_error_witness :
  let said := "open the calculator" in
  let d := [("name", JStr "open_app"); ("args", JDict [])] in
  let locked := Exn "database is locked" in
  let w := world0 [] [None; Some locked] in
  let w2 := mk_world [] [utterance said] [Some locked] [Plan_request said] tt in
  exists o,
    handle_user_text (scripted open_calc) (returning "Opened calc") no_repr
                     said w
    = (inr tt,
       {| reminders := [];
          logs := logs w ++ [utterance said];
          faults := [];
          out := out w2 ++ o
                 ++ [Call "open_app" (dict_get d "args" (JDict []));
                     Stdout ("[action:" ++ "open_app" ++ "] " ++ "Opened calc");
                     Stdout ("[action:" ++ "open_app" ++ "] error: "
                             ++ str_exn locked)];
          ext := tt |})
    /\ calls o = [].
Proof.
  intros said d locked w w2.
  apply (action_log_failure_reported_as_action_error
           (scripted open_calc) (returning "Opened calc") no_repr
           said "open_app" "Opened calc" w
           (mk_world [] [utterance said] [Some locked] [] tt) w2
           (mk_plan (JStr "") (JDict d)) d [] tt locked []).
  - vm_compute. reflexivity.
  - vm_compute. reflexivity.
  - reflexivity.
  - discriminate.
  - vm_compute. reflexivity.
  - vm_compute. reflexivity.
  - vm_compute. reflexivity.
  - reflexivity.
Defined.

Lemma handler_errors_stay_in_dispatcher_witness :
  let boom := "action_open_app() missing 1 required positional argument: 'name'" in
  let said := "open the calculator" in
  fst (handle_user_text (scripted open_calc) (raising boom) no_repr said
                        (world0 [] [None; Some (Exn "database is locked")]))
  = inr tt.
Proof.
  intros boom said.
  apply (handler_errors_stay_in_dispatcher
           (scripted open_calc) (raising boom) no_repr said
           (world0 [] [None; Some (Exn "database is locked")])
           (mk_world [] [utterance said] [Some (Exn "database is locked")]
                     [] tt)
           (mk_world [] [utterance said] [Some (Exn "database is locked")]
                     [Plan_request said] tt)
           (mk_plan (JStr "")
                    (JDict [("name", JStr "open_app"); ("args", JDict [])]))).
  - vm_compute. reflexivity.
  - vm_compute. reflexivity.
  - intros d e [= <-]. vm_compute. discriminate.
Defined.

(** * Further properties of the input surfaces *)

Lemma is_exit_not_empty (u : string) :
  is_exit u = true -> String.eqb u "" = false.
Proof. now destruct u. Qed.

Section SurfaceExtras.
Context {E : Type}.
Variable openai_client : option (string -> E -> (exn + json) * E).
Variable handler :
  string -> call_args -> list reminder * E -> (exn + string) * (list reminder * E).
Variable repr : json -> string.

Local Abbreviation handle_user_text :=
  (handle_user_text openai_client handler repr).
Local Abbreviation cli_lines := (cli_lines openai_client handler repr).
Local Abbreviation cli_loop := (cli_loop openai_client handler repr).
Local Abbreviation on_hotkey := (on_hotkey openai_client handler repr).
Local Abbreviation voice_results := (voice_results openai_client handler repr).
Local Abbreviation voice_run := (voice_run openai_client handler repr).

(** What one call of the dispatcher adds to the utterances of the log and to
    the texts that reached the planner: the text, or nothing when the call
    raised before logging it. *)
Lemma handle_heard (u : string) (w : world E) :
  exists us,
    (us = [] \/ us = [u])
    /\ utterances (logs (snd (handle_user_text u w)))
       = utterances (logs w) ++ map utterance us
    /\ planned (out (snd (handle_user_text u w))) = planned (out w) ++ us.
Proof.
  destruct (faults w) as [|[e0|] fs] eqn:Hf.
  2: { rewrite (handle_log_failed openai_client handler repr u w e0 fs Hf).
       exists []. cbn. rewrite !app_nil_r. auto. }
  all: destruct (handle_logged openai_client handler repr u w) as (p & x & Hh);
      [intros e1 fs1; rewrite Hf; discriminate|];
    rewrite Hh;
    set (said := if truthy (py_or (reply p) (JStr ""))
                 then [Stdout (" ASSISTANT: "
                               ++ py_str repr (py_or (reply p) (JStr "")));
                       Tts (py_or (reply p) (JStr ""))]
                 else []);
    assert (Hsaid : planned said = [])
      by (subst said; now destruct (truthy _));
    match goal with
    | |- context [Dispatcher.execute _ _ ?a ?v] =>
        destruct (execute_trace handler repr a v)
          as (l & o & Hl & Ho & _ & Hu & Hp & _)
    end;
    cbn [reminders logs out] in Hl, Ho;
    exists [u]; split; [now right|];
    rewrite Hl, Ho, !utterances_app, !planned_app, Hu, Hp, !app_nil_r;
    change (planned (Plan_request u :: said)) with (u :: planned said);
    rewrite Hsaid; split; reflexivity.
Qed.

(** One line at the prompt. *)
Lemma cli_lines_cons (line : string) (rest : list string) (w : world E) :
  cli_lines (line :: rest) w
  = (if String.eqb (strip line) "" then cli_lines rest
     else if is_exit (strip line) then ret tt
          else handle_user_text (strip line) ;; cli_lines rest)
      {| reminders := reminders w; logs := logs w; faults := faults w;
         out := out w ++ [Input_prompt "you> "]; ext := ext w |}.
Proof. reflexivity. Qed.

Lemma cli_lines_heard (lines : list string) :
  forall w : world E,
  exists us,
    utterances (logs (snd (cli_lines lines w)))
    = utterances (logs w) ++ map utterance us
    /\ planned (out (snd (cli_lines lines w))) = planned (out w) ++ us
    /\ Forall (fun u => u <> EmptyString /\ strip u = u /\ is_exit u = false
                        /\ exists line, In line lines /\ u = strip line) us.
Proof.
  induction lines as [|line rest IH]; intros w.
  - exists []. cbn. rewrite planned_app. cbn. rewrite !app_nil_r. auto.
  - assert (Hrest : forall v : world E,
               utterances (logs v) = utterances (logs w) ->
               planned (out v) = planned (out w) ->
               exists us,
                 utterances (logs (snd (cli_lines rest v)))
                 = utterances (logs w) ++ map utterance us
                 /\ planned (out (snd (cli_lines rest v)))
                    = planned (out w) ++ us
                 /\ Forall (fun u => u <> EmptyString /\ strip u = u
                                     /\ is_exit u = false
                                     /\ exists l, In l (line :: rest)
                                                  /\ u = strip l) us).
    { intros v Hl Ho. destruct (IH v) as (us & H1 & H2 & H3).
      exists us. rewrite H1, H2, Hl, Ho. repeat split.
      eapply Forall_impl; [|exact H3].
      intros u (Ha & Hb & Hc & l & Hin & Hd). repeat split; auto.
      exists l. split; [now right|assumption]. }
    rewrite cli_lines_cons.
    destruct (String.eqb (strip line) "") eqn:Hempty.
    + apply Hrest; cbn [logs out]; [reflexivity|].
      rewrite planned_app. cbn. now rewrite app_nil_r.
    + destruct (is_exit (strip line)) eqn:Hexit.
      * exists []. unfold ret. cbn [snd logs out map].
        rewrite planned_app. cbn. rewrite !app_nil_r. auto.
      * unfold bind.
        match goal with
        | |- context [Dispatcher.handle_user_text _ _ _ ?u ?v] =>
            destruct (handle_heard u v) as (us & Hus & Hl & Ho)
        end.
        cbn [logs out] in Hl, Ho.
        rewrite planned_app in Ho. cbn [planned flat_map app] in Ho.
        rewrite app_nil_r in Ho.
        destruct (Dispatcher.handle_user_text _ _ _ (strip line) _)
          as [[e|[]] w1]; cbn [snd] in *.
        -- exists us. repeat split; [assumption..|].
           destruct Hus as [->| ->]; constructor; [|constructor].
           repeat split.
           ++ intros Heq. rewrite Heq in Hempty. discriminate.
           ++ apply strip_strip.
           ++ assumption.
           ++ exists line. split; [now left|reflexivity].
        -- set (P := fun u => u <> EmptyString /\ strip u = u
                              /\ is_exit u = false
                              /\ exists l, In l (line :: rest) /\ u = strip l).
           assert (Hthis : Forall P us).
           { destruct Hus as [->| ->]; constructor; [|constructor].
             repeat split.
             ++ intros Heq. rewrite Heq in Hempty. discriminate.
             ++ apply strip_strip.
             ++ assumption.
             ++ exists line. split; [now left|reflexivity]. }
           destruct (IH w1) as (us' & H1 & H2 & H3).
           exists (us ++ us'). rewrite H1, H2, Hl, Ho, map_app, <- !app_assoc.
           repeat split. apply Forall_app. split; [exact Hthis|].
           eapply Forall_impl; [|exact H3].
           intros u (Ha & Hb & Hc & l & Hin & Hd). repeat split; auto.
           exists l. split; [now right|assumption].
Qed.

(** X13. Whatever is typed at the console prompt, every text that the
    console hands to the dispatcher (every utterance it logs, every text it
    sends to the planner) is a line that was typed, stripped of the blanks
    around it; it is not empty, and it is not [exit] or [quit]. *)
Theorem cli_dispatches_stripped_commands (lines : list string) (w : world E) :
  exists us,
    utterances (logs (snd (cli_loop lines w)))
    = utterances (logs w) ++ map utterance us
    /\ planned (out (snd (cli_loop lines w))) = planned (out w) ++ us
    /\ Forall (fun u => u <> EmptyString /\ strip u = u /\ is_exit u = false
                        /\ exists line, In line lines /\ u = strip line) us.
Proof.
  unfold Surfaces.cli_loop, bind, emit. cbn [reminders logs faults out ext].
  match goal with
  | |- context [Surfaces.cli_lines _ _ _ _ ?v] =>
      destruct (cli_lines_heard lines v) as (us & H1 & H2 & H3)
  end.
  cbn [logs out] in H1, H2. rewrite planned_app in H2. cbn in H2.
  rewrite app_nil_r in H2. now exists us.
Qed.

Lemma cli_lines_exit (pre rest : list string) (line : string) :
  is_exit (strip line) = true ->
  forall w : world E,
    cli_lines (pre ++ line :: rest) w = cli_lines (pre ++ [line]) w.
Proof.
  intros Hexit. pose proof (is_exit_not_empty _ Hexit) as Hne.
  induction pre as [|l pre IH]; intros w.
  - cbn [app]. rewrite !cli_lines_cons. now rewrite Hne, Hexit.
  - cbn [app]. rewrite !cli_lines_cons.
    destruct (String.eqb (strip l) ""); [apply IH|].
    destruct (is_exit (strip l)); [reflexivity|]. unfold bind.
    destruct (Dispatcher.handle_user_text _ _ _ _ _) as [[e|[]] w1];
      [reflexivity|apply IH].
Qed.

(** X14. A line that strips to [exit] or [quit], in any case, ends the
    console loop normally: the lines after it are never read, whatever they
    are, and typed as the first line it leaves everything as it was but for
    the banner and one prompt. *)
Theorem cli_stops_at_exit (pre rest : list string) (line : string)
        (w : world E) :
  is_exit (strip line) = true ->
  cli_loop (pre ++ line :: rest) w = cli_loop (pre ++ [line]) w
  /\ cli_loop (line :: rest) w
     = (inr tt,
        {| reminders := reminders w; logs := logs w; faults := faults w;
           out := out w
                  ++ [Stdout " Type to chat. Press Ctrl+C to quit. Use hotkey Ctrl+Alt+A anytime.";
                      Input_prompt "you> "];
           ext := ext w |}).
Proof.
  intros Hexit. split.
  - unfold Surfaces.cli_loop, bind, emit. now apply cli_lines_exit.
  - pose proof (is_exit_not_empty _ Hexit) as Hne.
    unfold Surfaces.cli_loop, bind, emit. rewrite cli_lines_cons, Hne, Hexit.
    unfold ret. cbn [reminders logs faults out ext].
    now rewrite <- app_assoc.
Qed.

(** X15. The console loop does not catch the exceptions of the dispatcher:
    when the entry of a typed command cannot be logged, [cli_loop] raises
    the storage exception after the prompt; nothing is planned or logged
    and the lines after it are not read. *)
Theorem log_failure_ends_cli (line : string) (rest : list string)
        (w : world E) (e : exn) (fs : list (option exn)) :
  strip line <> EmptyString -> is_exit (strip line) = false ->
  faults w = Some e :: fs ->
  cli_loop (line :: rest) w
  = (inl e,
     {| reminders := reminders w; logs := logs w; faults := fs;
        out := out w
               ++ [Stdout " Type to chat. Press Ctrl+C to quit. Use hotkey Ctrl+Alt+A anytime.";
                   Input_prompt "you> "];
        ext := ext w |}).
Proof.
  intros Hne Hexit Hf. apply String.eqb_neq in Hne.
  unfold Surfaces.cli_loop, bind, emit. rewrite cli_lines_cons, Hne, Hexit.
  unfold bind. cbn [reminders logs faults out ext].
  rewrite (handle_log_failed openai_client handler repr (strip line) _ e fs)
    by exact Hf.
  cbn [reminders logs faults out ext]. now rewrite <- app_assoc.
Qed.

Lemma voice_results_raised (wake : string) (pre rest : list string) :
  forall (active : bool) (w w1 : world E) (e : exn),
    voice_results wake active pre w = (inl e, w1) ->
    voice_results wake active (pre ++ rest) w = (inl e, w1).
Proof.
  induction pre as [|r pre IH]; intros active w w1 e; [discriminate|].
  cbn [app Surfaces.voice_results].
  destruct (String.eqb (lower r) ""); [apply IH|].
  destruct active; cbn [negb].
  - unfold bind.
    destruct (Dispatcher.handle_user_text _ _ _ _ _) as [[e'|[]] w'];
      [trivial|apply IH].
  - destruct (contains wake (lower r)); [|apply IH].
    unfold bind, notify, emit. cbn [reminders logs faults out ext]. apply IH.
Qed.

(** X16. The hotkey prompt and the voice listener never raise. The hotkey
    prompt swallows every exception without a trace. The listener reports
    the exception in one warning and ends: the results that the recogniser
    delivers after it are not processed, so one failed utterance turns voice
    control off for the rest of the run. *)
Theorem hotkey_and_voice_swallow_errors :
  (forall typed (w : world E), fst (on_hotkey typed w) = inr tt)
  /\ (forall wake results (w : world E),
         fst (voice_run wake results w) = inr tt)
  /\ (forall wake pre rest (w w1 : world E) e,
         voice_results (lower wake) false pre w = (inl e, w1) ->
         voice_run wake (pre ++ rest) w
         = (inr tt,
            {| reminders := reminders w1; logs := logs w1;
               faults := faults w1;
               out := out w1 ++ [Warning ("Vosk error: " ++ str_exn e)];
               ext := ext w1 |})).
Proof.
  split; [|split].
  - intros typed w. unfold Surfaces.on_hotkey, try_except.
    match goal with
    | |- context [match ?c with _ => _ end] => now destruct c as [[e|[]] w1]
    end.
  - intros wake results w. unfold Surfaces.voice_run, try_except.
    match goal with
    | |- context [match ?c with _ => _ end] => now destruct c as [[e|[]] w1]
    end.
  - intros wake pre rest w w1 e H. unfold Surfaces.voice_run, try_except.
    now rewrite (voice_results_raised _ pre rest false w w1 e H).
Qed.

Lemma voice_results_asleep (wake : string) (results : list string)
      (w : world E) :
  forallb (fun r => negb (contains wake (lower r))) results = true ->
  voice_results wake false results w = (inr tt, w).
Proof.
  induction results as [|r results IH]; [reflexivity|].
  cbn [forallb Surfaces.voice_results negb]. intros H.
  apply andb_prop in H. destruct H as [Hr Hrest].
  destruct (String.eqb (lower r) ""); [now apply IH|].
  destruct (contains wake (lower r)); [discriminate|now apply IH].
Qed.

(** X17. Speech in which the wake word never occurs has no effect: the
    listener neither notifies nor logs nor calls the planner, and the world
    is as it was. *)
Theorem voice_ignores_speech_without_wake_word
        (wake_word : string) (results : list string) (w : world E) :
  forallb (fun r => negb (contains (lower wake_word) (lower r))) results
  = true ->
  voice_run wake_word results w = (inr tt, w).
Proof.
  intros H. unfold Surfaces.voice_run, try_except.
  now rewrite voice_results_asleep.
Qed.

End SurfaceExtras.

(** *** The properties on concrete runs *)

Lemma cli_stops_at_exit_witness :
  let run := cli_loop (E := unit) None (returning "ok") no_repr in
  let quit :=
    String (ascii_of_nat 194) (String (ascii_of_nat 160) "QUIT ") in
  is_exit (strip quit) = true
  /\ run (["hello"] ++ quit :: ["open the calculator"]) (world0 [] [])
     = run (["hello"] ++ [quit]) (world0 [] [])
  /\ run (quit :: ["open the calculator"]) (world0 [] [])
     = (inr tt,
        mk_world [] [] []
          ([] ++ [Stdout " Type to chat. Press Ctrl+C to quit. Use hotkey Ctrl+Alt+A anytime.";
                  Input_prompt "you> "]) tt).
Proof.
  intros run quit.
  assert (H : is_exit (strip quit) = true) by (vm_compute; reflexivity).
  split; [exact H|].
  exact (cli_stops_at_exit None (returning "ok") no_repr
           ["hello"] ["open the calculator"] quit (world0 [] []) H).
Defined.

Lemma log_failure_ends_cli_witness :
  cli_loop None (returning "ok") no_repr ("  hello " :: ["exit"])
           (world0 [] [Some (Exn "database is locked")])
  = (inl (Exn "database is locked"),
     mk_world [] [] []
       ([] ++ [Stdout " Type to chat. Press Ctrl+C to quit. Use hotkey Ctrl+Alt+A anytime.";
               Input_prompt "you> "]) tt).
Proof.
  apply (log_failure_ends_cli None (returning "ok") no_repr
           "  hello " ["exit"] (world0 [] [Some (Exn "database is locked")])
           (Exn "database is locked") []).
  - vm_compute. discriminate.
  - vm_compute. reflexivity.
  - reflexivity.
Defined.

Lemma hotkey_and_voice_swallow_errors_witness :
  let locked := Exn "database is locked" in
  let w := world0 [] [Some locked] in
  let w1 :=
    mk_world [] [] []
      [Notification "Atlas Assistant" "Listening...";
       Stdout " [NOTIFY] Atlas Assistant: Listening..."] tt in
  voice_results None (returning "ok") no_repr (lower "Hey Atlas") false
                ["hey atlas"; "open the calculator"] w
  = (inl locked, w1)
  /\ voice_run None (returning "ok") no_repr "Hey Atlas"
               (["hey atlas"; "open the calculator"]
                ++ ["hey atlas"; "what time is it"]) w
     = (inr tt,
        {| reminders := reminders w1; logs := logs w1; faults := faults w1;
           out := out w1 ++ [Warning ("Vosk error: " ++ str_exn locked)];
           ext := ext w1 |}).
Proof.
  intros locked w w1.
  assert (H : voice_results None (returning "ok") no_repr (lower "Hey Atlas")
                            false ["hey atlas"; "open the calculator"] w
              = (inl locked, w1)) by (vm_compute; reflexivity).
  split; [exact H|].
  exact (proj2 (proj2 (hotkey_and_voice_swallow_errors
                         None (returning "ok") no_repr))
               "Hey Atlas" ["hey atlas"; "open the calculator"]
               ["hey atlas"; "what time is it"] w w1 locked H).
Defined.

Lemma voice_ignores_speech_without_wake_word_witness :
  voice_run None (returning "ok") no_repr "Hey Atlas"
            ["open the calculator"; ""; "what time is it"] desk
  = (inr tt, desk).
Proof.
  apply (voice_ignores_speech_without_wake_word None (returning "ok") no_repr).
  vm_compute. reflexivity.
Defined.

(** * Properties of the hotkeys action *)

Lemma split_not_nil (sep : ascii) (s : string) : split sep s <> [].
Proof.
  induction s as [|c r IH]; [discriminate|]. cbn [split].
  destruct (Ascii.eqb c sep); [discriminate|].
  now destruct (split sep r).
Qed.

Lemma split_cons (c : ascii) (r : string) :
  Ascii.eqb c "," = false ->
  exists piece pieces,
    split "," r = piece :: pieces
    /\ split "," (String c r) = String c piece :: pieces.
Proof.
  intros Hc. cbn [split]. rewrite Hc.
  pose proof (split_not_nil "," r) as H.
  destruct (split "," r) as [|piece pieces]; [contradiction|].
  now exists piece, pieces.
Qed.

Lemma split_no_comma (a : string) :
  has_comma a = false -> split "," a = [a].
Proof.
  induction a as [|c r IH]; [reflexivity|]. cbn [has_comma split].
  intros H. apply orb_false_elim in H. destruct H as [Hc Hr].
  now rewrite Hc, (IH Hr).
Qed.

Lemma split_app_comma (a b : string) :
  has_comma a = false ->
  split "," (a ++ String "," b)%string = a :: split "," b.
Proof.
  induction a as [|c r IH]; [reflexivity|]. cbn [has_comma append split].
  intros H. apply orb_false_elim in H. destruct H as [Hc Hr].
  now rewrite Hc, (IH Hr).
Qed.

Lemma keys_after_blank (s : string) : keys (String " " s) = keys s.
Proof.
  unfold keys.
  destruct (split_cons " " s eq_refl) as (piece & pieces & H1 & H2).
  now rewrite H1, H2.
Qed.

Lemma length_split (s : string) :
  List.length (split "," s) = S (commas s).
Proof.
  induction s as [|c r IH]; [reflexivity|]. cbn [split commas].
  destruct (Ascii.eqb c ","); cbn [List.length]; [now rewrite IH|].
  pose proof (split_not_nil "," r) as H.
  now destruct (split "," r).
Qed.

Lemma split_pieces (s : string) :
  Forall (fun piece => has_comma piece = false) (split "," s).
Proof.
  induction s as [|c r IH]; [now repeat constructor|]. cbn [split].
  destruct (Ascii.eqb c ",") eqn:Hc; [now constructor|].
  destruct (split "," r) as [|piece pieces];
    [constructor; [cbn [has_comma]; now rewrite Hc|constructor]|].
  inversion IH as [|? ? Hp Hps]; subst. constructor; [|assumption].
  cbn [has_comma]. now rewrite Hc, Hp.
Qed.

Lemma has_comma_append (a b : string) :
  has_comma (a ++ b) = has_comma a || has_comma b.
Proof.
  induction a as [|c a IH]; [reflexivity|]. cbn [append has_comma].
  now rewrite IH, orb_assoc.
Qed.

Lemma strip_no_comma (s : string) :
  has_comma s = false -> has_comma (strip s) = false.
Proof.
  intros H. unfold strip.
  destruct (lstrip_suffix s) as [p Hp].
  destruct (rstrip_prefix (lstrip s)) as [q Hq].
  rewrite Hp, has_comma_append in H. apply orb_false_elim in H.
  destruct H as [_ H]. rewrite Hq, has_comma_append in H.
  apply orb_false_elim in H. tauto.
Qed.

(** X18. The keys that [action_hotkeys] presses: one more than the text has
    commas, so never none, and the empty text presses one key with the
    empty name; and every name is free of commas and of blanks around it.
    With the module missing, the answer is [pyautogui not installed]
    whatever the text. *)
Theorem hotkeys_presses_one_key_per_piece (keys_csv : string) :
  List.length (keys keys_csv) = S (commas keys_csv)
  /\ Forall key_name (keys keys_csv)
  /\ (forall pressed,
         action_hotkeys recording keys_csv pressed
         = ("ok", pressed ++ [keys keys_csv]))
  /\ forall (E : Type) (x : E),
      action_hotkeys None keys_csv x = ("pyautogui not installed", x).
Proof.
  split; [|split; [|split]].
  - unfold keys. now rewrite length_map, length_split.
  - unfold keys. apply Forall_map.
    eapply Forall_impl; [|apply split_pieces].
    intros piece Hp. split; [apply strip_strip|now apply strip_no_comma].
  - reflexivity.
  - reflexivity.
Qed.

(** X19. Key names written one after the other, with a comma or with a
    comma and a blank between them, are read back as they were: the keys
    that [action_hotkeys] presses for the joined text are the names, in
    order. *)
Theorem hotkeys_reads_back_joined_names (names : list string) :
  names <> [] -> Forall key_name names ->
  keys (String.concat ", " names) = names
  /\ keys (String.concat "," names) = names.
Proof.
  intros Hne H. destruct names as [|k rest]; [contradiction|]. clear Hne.
  revert k H.
  induction rest as [|k' rest IH]; intros k H;
    inversion H as [|? ? [Hk Hc] Hrest]; subst.
  - cbn [String.concat]. unfold keys.
    rewrite (split_no_comma k Hc). cbn [map]. now rewrite Hk.
  - destruct (IH k' Hrest) as [IH1 IH2].
    change (String.concat ", " (k :: k' :: rest))
      with (k ++ String "," (String " " (String.concat ", " (k' :: rest))))%string.
    change (String.concat "," (k :: k' :: rest))
      with (k ++ String "," (String.concat "," (k' :: rest)))%string.
    unfold keys. rewrite !(split_app_comma k _ Hc). cbn [map]. rewrite Hk.
    fold (keys (String " " (String.concat ", " (k' :: rest)))).
    fold (keys (String.concat "," (k' :: rest))).
    now rewrite keys_after_blank, IH1, IH2.
Qed.

Lemma hotkeys_reads_back_joined_names_witness :
  keys (String.concat ", " ["ctrl"; "alt"; "a"]) = ["ctrl"; "alt"; "a"]
  /\ keys (String.concat "," ["ctrl"; "alt"; "a"]) = ["ctrl"; "alt"; "a"].
Proof.
  apply hotkeys_reads_back_joined_names; [discriminate|].
  repeat constructor.
Defined.

(** * Properties of the actions that record a habit *)

Section AppExtras.
Context {X : Type}.
Variable launch : string -> X -> option exn * X.
Variable browse : string -> X -> option exn * X.

Lemma action_open_app_run (name : string) (w : world (desktop X)) :
  action_open_app launch name w
  = match launch name (os (ext w)) with
    | (Some e, x) =>
        (inr ("Failed to open app: " ++ str_exn e)%string,
         {| reminders := reminders w; logs := logs w; faults := faults w;
            out := out w; ext := mk_desktop (habits (ext w)) x |})
    | (None, x) =>
        match faults w with
        | Some e :: fs =>
            (inr ("Failed to open app: " ++ str_exn e)%string,
             {| reminders := reminders w; logs := logs w; faults := fs;
                out := out w; ext := mk_desktop (habits (ext w)) x |})
        | fs =>
            (inr ("Opened " ++ name)%string,
             {| reminders := reminders w; logs := logs w; faults := tl fs;
                out := out w;
                ext := mk_desktop
                         (habits (ext w) ++ ["open_app:" ++ name]%string) x |})
        end
    end.
Proof.
  unfold action_open_app, try_except, bind, start, record_habit, statement,
    set_os, ret.
  destruct w as [t l fs o [h x]]. cbn [reminders logs faults out ext habits os].
  destruct (launch name x) as [[e|] x1]; [reflexivity|].
  cbn [reminders logs faults out ext habits os].
  now destruct fs as [|[e|] fs].
Qed.

Lemma action_open_url_failed (url : string) (w : world (desktop X))
      (e : exn) (fs : list (option exn)) :
  faults w = Some e :: fs ->
  action_open_url browse url w
  = (inl e,
     {| reminders := reminders w; logs := logs w; faults := fs;
        out := out w;
        ext := mk_desktop (habits (ext w))
                          (snd (browse url (os (ext w)))) |}).
Proof.
  intros Hf.
  unfold action_open_url, open_url, bind, record_habit, statement, set_os.
  cbn [reminders logs faults out ext habits os]. now rewrite Hf.
Qed.

(** X21. [action_open_app] never raises, and it records the habit
    [open_app:name] exactly when it answers [Opened name]. When the
    application was started but the habit cannot be recorded, the storage
    exception is caught by the [except] meant for the start: the answer is
    [Failed to open app: ] with the text of the storage exception, although
    the application runs. [action_open_url] has no [try]: there the storage
    exception is raised to the caller, after the URL was opened. *)
Theorem open_app_blames_start_for_storage_error
        (name : string) (w : world (desktop X)) :
  (exists res, fst (action_open_app launch name w) = inr res)
  /\ (fst (action_open_app launch name w) = inr ("Opened " ++ name)%string ->
      habits (ext (snd (action_open_app launch name w)))
      = habits (ext w) ++ ["open_app:" ++ name]%string)
  /\ (fst (action_open_app launch name w) <> inr ("Opened " ++ name)%string ->
      habits (ext (snd (action_open_app launch name w))) = habits (ext w))
  /\ (forall e fs x,
         launch name (os (ext w)) = (None, x) -> faults w = Some e :: fs ->
         action_open_app launch name w
         = (inr ("Failed to open app: " ++ str_exn e)%string,
            {| reminders := reminders w; logs := logs w; faults := fs;
               out := out w; ext := mk_desktop (habits (ext w)) x |}))
  /\ (forall e fs,
         faults w = Some e :: fs ->
         action_open_url browse name w
         = (inl e,
            {| reminders := reminders w; logs := logs w; faults := fs;
               out := out w;
               ext := mk_desktop (habits (ext w))
                                 (snd (browse name (os (ext w)))) |})).
Proof.
  split; [|split; [|split; [|split]]].
  - rewrite action_open_app_run.
    destruct (launch name _) as [[e|] x]; [now eexists|].
    destruct (faults w) as [|[e|] fs]; now eexists.
  - rewrite action_open_app_run.
    destruct (launch name _) as [[e|] x]; cbn [fst snd ext habits].
    + discriminate.
    + destruct (faults w) as [|[e|] fs]; cbn [fst snd ext habits];
        try reflexivity.
      discriminate.
  - rewrite action_open_app_run.
    destruct (launch name _) as [[e|] x]; cbn [fst snd ext habits];
      [reflexivity|].
    destruct (faults w) as [|[e|] fs]; cbn [fst snd ext habits];
      try reflexivity; intros H; now elim H.
  - intros e fs x Hl Hf. now rewrite action_open_app_run, Hl, Hf.
  - intros e fs Hf. now apply action_open_url_failed.
Qed.

End AppExtras.

Lemma open_app_blames_start_for_storage_error_witness :
  let locked := Exn "database is locked" in
  let w := mk_world [] [] [Some locked] [] (mk_desktop [] []) in
  action_open_app starting "calc" w
  = (inr "Failed to open app: database is locked",
     mk_world [] [] [] [] (mk_desktop [] ["calc"])).
Proof.
  intros locked w.
  apply (proj1 (proj2 (proj2 (proj2
           (open_app_blames_start_for_storage_error starting starting
              "calc" w)))) locked [] ["calc"]); reflexivity.
Defined.
